(** * CodeConstellation: the project scanner

    A shallow embedding of [src/ProjectScanner.ts] (the class
    [ProjectScanner]) together with the parts of the Node.js runtime it
    calls: string primitives, the POSIX flavour of the [path] module, the
    [fs] calls [readdir], [stat], [readFile] and [existsSync], and the
    three regular expressions of [parseDependenciesFromContent].

    - Strings are sequences of code units below 256 ([string] of the
      standard library).
    - The file system is a tree below [/] that does not change while a
      scan runs.  An entry of a listing carries its own subtree, and
      the calls the scanner makes on the full path of a listed entry
      act on that entry; [reached_at_path] shows that the full path of
      every file of the walk does name it.
    - A rejected promise or thrown exception is an explicit [Thrown]
      outcome of a small state-and-exception monad whose state is the
      scanner object; [await] is sequencing.
    - The matcher of the package [ignore] is a predicate on relative
      paths; [console.error] has no effect on the scanner and is left
      out. *)

From Stdlib Require Import String Ascii List Bool Arith NArith Lia Permutation.
Import ListNotations.
Local Open Scope list_scope.
Local Open Scope bool_scope.
Local Open Scope string_scope.

Set Implicit Arguments.
#[local] Set Warnings "-register-all".

(* ================================================================== *)
(** ** ECMAScript string primitives *)
(* ================================================================== *)

Module Js.

(** [s.startsWith(p)] *)
Fixpoint startsWith (s p : string) {struct p} : bool :=
  match p with
  | EmptyString => true
  | String a p' =>
      match s with
      | String b s' => Ascii.eqb a b && startsWith s' p'
      | EmptyString => false
      end
  end.

(** [String.prototype.toLowerCase] on one code unit below 256:
    [A-Z] and the Latin-1 capitals U+00C0..U+00DE (without the
    multiplication sign U+00D7) move up by 32. *)
Definition lowerChar (c : ascii) : ascii :=
  let n := nat_of_ascii c in
  if ((Nat.leb 65 n) && (Nat.leb n 90))
     || ((Nat.leb 192 n) && (Nat.leb n 222) && negb (Nat.eqb n 215))
  then ascii_of_nat (n + 32) else c.

Fixpoint toLowerCase (s : string) : string :=
  match s with
  | EmptyString => EmptyString
  | String c s' => String (lowerChar c) (toLowerCase s')
  end.

(** [s.split(sep)] for a one-character separator. *)
Fixpoint split (sep : ascii) (s : string) : list string :=
  match s with
  | EmptyString => [EmptyString]
  | String c s' =>
      if Ascii.eqb c sep then EmptyString :: split sep s'
      else match split sep s' with
           | h :: t => String c h :: t
           | [] => [String c EmptyString]
           end
  end.

(** [a.join(sep)] *)
Fixpoint join (sep : string) (l : list string) : string :=
  match l with
  | [] => EmptyString
  | [x] => x
  | x :: rest => x ++ sep ++ join sep rest
  end.

(** [s.replace(/\./g, '/')] *)
Fixpoint replaceDots (s : string) : string :=
  match s with
  | EmptyString => EmptyString
  | String c s' =>
      String (if Ascii.eqb c "."%char then "/"%char else c) (replaceDots s')
  end.

(** [arr.includes(x)] on an array of strings. *)
Definition includes (arr : list string) (x : string) : bool :=
  existsb (String.eqb x) arr.

(** Truthiness of a possibly [undefined] string, and [a || b]. *)
Definition truthy (v : option string) : bool :=
  match v with
  | Some (String _ _) => true
  | _ => false
  end.

Definition or (a b : option string) : option string :=
  if truthy a then a else b.

Definition endsWithSlash (s : string) : bool :=
  match rev (list_ascii_of_string s) with
  | c :: _ => Ascii.eqb c "/"%char
  | [] => false
  end.

End Js.

(* ================================================================== *)
(** ** The [path] module (POSIX) *)
(* ================================================================== *)

Module path.

Definition isAbsolute (p : string) : bool :=
  match p with
  | String c _ => Ascii.eqb c "/"%char
  | EmptyString => false
  end.

(** [normalizeString]: the segments of a path are pushed on a stack;
    empty segments and [.] are dropped, [..] pops an ordinary segment
    and is kept (when [allowAboveRoot]) or dropped otherwise.  [acc]
    is the stack, top first. *)
Fixpoint normalizeSegs (allowAboveRoot : bool) (acc segs : list string)
  : list string :=
  match segs with
  | [] => rev acc
  | s :: rest =>
      if String.eqb s "" || String.eqb s "." then
        normalizeSegs allowAboveRoot acc rest
      else if String.eqb s ".." then
        match acc with
        | top :: acc' =>
            if String.eqb top ".." then
              normalizeSegs allowAboveRoot
                (if allowAboveRoot then ".." :: acc else acc) rest
            else normalizeSegs allowAboveRoot acc' rest
        | [] =>
            normalizeSegs allowAboveRoot
              (if allowAboveRoot then [".."] else []) rest
        end
      else normalizeSegs allowAboveRoot (s :: acc) rest
  end.

Definition normalizeString (p : string) (allowAboveRoot : bool) : string :=
  Js.join "/" (normalizeSegs allowAboveRoot [] (Js.split "/" p)).

Definition normalize (p : string) : string :=
  if String.eqb p "" then "." else
  let abs := isAbsolute p in
  let trailing := Js.endsWithSlash p in
  let q := normalizeString p (negb abs) in
  if String.eqb q "" then
    (if abs then "/" else if trailing then "./" else ".")
  else
    let q' := if trailing then q ++ "/" else q in
    if abs then "/" ++ q' else q'.

(** [path.join(a, b)] *)
Definition join (a b : string) : string :=
  match String.eqb a "", String.eqb b "" with
  | true, true => "."
  | true, false => normalize b
  | false, true => normalize a
  | false, false => normalize (a ++ "/" ++ b)
  end.

(** The loop of [path.resolve]: arguments are taken from the right
    until an absolute one is met. *)
Fixpoint resolveLoop (rargs : list string) (resolved : string) : string :=
  match rargs with
  | [] => resolved
  | p :: rest =>
      if String.eqb p "" then resolveLoop rest resolved
      else if isAbsolute p then p ++ "/" ++ resolved
      else resolveLoop rest (p ++ "/" ++ resolved)
  end.

(** The segments of [path.resolve(...args)] and whether the result is
    absolute; [cwd] is [process.cwd()]. *)
Definition resolveSegs (cwd : string) (args : list string)
  : bool * list string :=
  let raw := resolveLoop (rev args ++ [cwd])%list "" in
  let abs := isAbsolute raw in
  (abs, normalizeSegs (negb abs) [] (Js.split "/" raw)).

Definition resolve (cwd : string) (args : list string) : string :=
  let '(abs, segs) := resolveSegs cwd args in
  let q := Js.join "/" segs in
  if abs then "/" ++ q
  else if String.eqb q "" then "." else q.

(** Longest common prefix of two segment lists is dropped. *)
Fixpoint dropCommon (a b : list string) : list string * list string :=
  match a, b with
  | x :: a', y :: b' =>
      if String.eqb x y then dropCommon a' b' else (a, b)
  | _, _ => (a, b)
  end.

(** [path.relative(from, to)] *)
Definition relative (cwd from to : string) : string :=
  if String.eqb from to then "" else
  let '(up, down) :=
    dropCommon (snd (resolveSegs cwd [from])) (snd (resolveSegs cwd [to])) in
  Js.join "/" (map (fun _ => "..") up ++ down)%list.

(** [path.dirname(p)]: trailing slashes are dropped, then the last
    segment; index 0 is never inspected by the loop. *)
Fixpoint dropWhileSlash (l : list ascii) : list ascii :=
  match l with
  | c :: l' => if Ascii.eqb c "/"%char then dropWhileSlash l' else l
  | [] => []
  end.

Fixpoint dropUntilSlash (l : list ascii) : option (list ascii) :=
  match l with
  | c :: l' => if Ascii.eqb c "/"%char then Some l' else dropUntilSlash l'
  | [] => None
  end.

Definition dirname (p : string) : string :=
  match p with
  | EmptyString => "."
  | String c0 tl =>
      let hasRoot := Ascii.eqb c0 "/"%char in
      match dropUntilSlash (dropWhileSlash (rev (list_ascii_of_string tl))) with
      | None => if hasRoot then "/" else "."
      | Some before =>
          match before with
          | [] => if hasRoot then "//" else String c0 EmptyString
          | _ => String c0 (string_of_list_ascii (rev before))
          end
      end
  end.

(** The last portion of a path, trailing slashes ignored. *)
Definition lastPortion (p : string) : list ascii :=
  let fix upToSlash (l : list ascii) : list ascii :=
    match l with
    | c :: l' => if Ascii.eqb c "/"%char then [] else c :: upToSlash l'
    | [] => []
    end in
  rev (upToSlash (dropWhileSlash (rev (list_ascii_of_string p)))).

(** Splits the reversed last portion at its last dot: the characters
    after the dot (reversed) and the characters before it (reversed). *)
Fixpoint cutAtDot (rbase : list ascii) : option (list ascii * list ascii) :=
  match rbase with
  | [] => None
  | c :: l' =>
      if Ascii.eqb c "."%char then Some ([], l')
      else match cutAtDot l' with
           | Some (after, before) => Some (c :: after, before)
           | None => None
           end
  end.

(** [path.extname(p)]: from the last dot of the last portion to its
    end; empty when there is no dot, when the only dot is the first
    character, and for the portion [..]. *)
Definition extname (p : string) : string :=
  match cutAtDot (rev (lastPortion p)) with
  | None => ""
  | Some (rafter, rbefore) =>
      match rbefore with
      | [] => ""
      | _ =>
          if match rafter, rbefore with
             | [], [c] => Ascii.eqb c "."%char
             | _, _ => false
             end
          then ""
          else String "."%char (string_of_list_ascii (rev rafter))
      end
  end.

End path.

(* ================================================================== *)
(** ** The file system seen through [fs] *)
(* ================================================================== *)

Module fs.

(** One entry of the tree.  A regular file carries what [stat] and
    [readFile] answer for it ([None]: the call rejects).  A directory
    carries whether [readdir] may list it.  [Other] is an entry that a
    [Dirent] reports neither as file nor as directory (symbolic link,
    socket, FIFO, device); its flag is what [existsSync] answers. *)
Inductive node : Type :=
| File (size : option N) (data : option string)
| Dir (listable : bool) (entries : list (string * node))
| Other (resolves : bool).

(** The world of one scan: [process.cwd()] and the tree below [/].
    It does not change while a scan runs. *)
Record world : Type := { cwd : string; slash : node }.

Definition child (es : list (string * node)) (name : string) : option node :=
  match find (fun e => String.eqb (fst e) name) es with
  | Some e => Some (snd e)
  | None => None
  end.

Fixpoint lookup (n : node) (segs : list string) : option node :=
  match segs with
  | [] => Some n
  | s :: rest =>
      match n with
      | Dir _ es =>
          match child es s with
          | Some c => lookup c rest
          | None => None
          end
      | _ => None
      end
  end.

Definition at_path (w : world) (p : string) : option node :=
  lookup (slash w) (snd (path.resolveSegs (cwd w) [p])).

(** [fs.existsSync(p)]: never throws. *)
Definition existsSync (w : world) (p : string) : bool :=
  if String.eqb p "" then false else
  match at_path w p with
  | Some (File _ _) => negb (Js.endsWithSlash p)
  | Some (Dir _ _) => true
  | Some (Other r) => r
  | None => false
  end.

(** [fs.promises.readdir(p, { withFileTypes: true })]: the entries, or
    [None] when the promise rejects (no such directory, not a
    directory, no permission). *)
Definition listing (n : option node) : option (list (string * node)) :=
  match n with
  | Some (Dir true es) => Some es
  | _ => None
  end.

(** What [readdir(p)] opens: nothing for the empty path. *)
Definition opendir (w : world) (p : string) : option node :=
  if String.eqb p "" then None else at_path w p.

Definition readdir (w : world) (p : string) : option (list (string * node)) :=
  listing (opendir w p).

(** [Dirent.isDirectory()], [Dirent.isFile()] *)
Definition isDirectory (n : node) : bool :=
  match n with Dir _ _ => true | _ => false end.

Definition isFile (n : node) : bool :=
  match n with File _ _ => true | _ => false end.

(** [fs.promises.stat] and [fs.promises.readFile(_, 'utf-8')] on a
    listed entry. *)
Definition stat (n : node) : option N :=
  match n with File sz _ => sz | _ => None end.

Definition readFile (n : node) : option string :=
  match n with File _ d => d | _ => None end.

(** Induction over trees: the property holds for every entry of a
    directory before it holds for the directory. *)
Section node_induction.
Variable P : node -> Prop.
Hypothesis P_File : forall sz d, P (File sz d).
Hypothesis P_Other : forall r, P (Other r).
Hypothesis P_Dir :
  forall l es, Forall (fun e => P (snd e)) es -> P (Dir l es).

Fixpoint node_rect' (n : node) : P n :=
  match n with
  | File sz d => P_File sz d
  | Other r => P_Other r
  | Dir l es =>
      P_Dir l
        ((fix go (es : list (string * node)) : Forall (fun e => P (snd e)) es :=
            match es with
            | [] => Forall_nil _
            | e :: es' => Forall_cons e (node_rect' (snd e)) (go es')
            end) es)
  end.
End node_induction.

End fs.

(* ================================================================== *)
(** ** Regular expressions *)
(* ================================================================== *)

Module RegExp.

(** The fragment used by the scanner: quantifiers apply to a single
    character class, groups are numbered. *)
Inductive regex : Type :=
| Lit (s : string)
| Class (p : ascii -> bool)
| Many (lazy : bool) (p : ascii -> bool)
| Cat (r1 r2 : regex)
| Alt (r1 r2 : regex)
| Group (n : nat) (r : regex)
| LineStart.

Definition Plus (p : ascii -> bool) : regex := Cat (Class p) (Many false p).

Definition code (c : ascii) : nat := nat_of_ascii c.

Definition isLineTerminator (c : ascii) : bool :=
  Nat.eqb (code c) 10 || Nat.eqb (code c) 13.

(** [.] without the [s] flag *)
Definition dot (c : ascii) : bool := negb (isLineTerminator c).

(** [\s] *)
Definition space (c : ascii) : bool :=
  (Nat.leb 9 (code c) && Nat.leb (code c) 13)
  || Nat.eqb (code c) 32 || Nat.eqb (code c) 160.

(** [\w] *)
Definition word (c : ascii) : bool :=
  (Nat.leb 65 (code c) && Nat.leb (code c) 90)
  || (Nat.leb 97 (code c) && Nat.leb (code c) 122)
  || (Nat.leb 48 (code c) && Nat.leb (code c) 57)
  || Nat.eqb (code c) 95.

(** The class of the two quotation marks (codes 39 and 34). *)
Definition quote (c : ascii) : bool :=
  Nat.eqb (code c) 39 || Nat.eqb (code c) 34.

(** The matcher state: the character before the position, the number
    of characters consumed since the start of the attempt, and the
    captures made so far (latest first). *)
Record mstate : Type :=
  { before : option ascii; index : nat; captures : list (nat * string) }.

Definition step (c : ascii) (st : mstate) : mstate :=
  {| before := Some c; index := S (index st); captures := captures st |}.

Definition capture (n : nat) (v : string) (st : mstate) : mstate :=
  {| before := before st; index := index st;
     captures := (n, v) :: captures st |}.

Section matcher.
Variable R : Type.
Definition cont : Type := string -> mstate -> option R.

Fixpoint lit (l s : string) (st : mstate) (k : cont) : option R :=
  match l with
  | EmptyString => k s st
  | String a l' =>
      match s with
      | String c s' => if Ascii.eqb a c then lit l' s' (step c st) k else None
      | EmptyString => None
      end
  end.

(** [p*?]: the continuation first, one more character on failure. *)
Fixpoint lazyMany (p : ascii -> bool) (s : string) (st : mstate) (k : cont)
  : option R :=
  match k s st with
  | Some x => Some x
  | None =>
      match s with
      | String c s' => if p c then lazyMany p s' (step c st) k else None
      | EmptyString => None
      end
  end.

(** [p*]: as many characters as possible, giving back on failure. *)
Fixpoint greedyMany (p : ascii -> bool) (s : string) (st : mstate) (k : cont)
  : option R :=
  match s with
  | String c s' =>
      if p c then
        match greedyMany p s' (step c st) k with
        | Some x => Some x
        | None => k s st
        end
      else k s st
  | EmptyString => k s st
  end.

Fixpoint run (r : regex) (s : string) (st : mstate) (k : cont) : option R :=
  match r with
  | Lit l => lit l s st k
  | Class p =>
      match s with
      | String c s' => if p c then k s' (step c st) else None
      | EmptyString => None
      end
  | Many lazy p => if lazy then lazyMany p s st k else greedyMany p s st k
  | Cat r1 r2 => run r1 s st (fun s' st' => run r2 s' st' k)
  | Alt r1 r2 =>
      match run r1 s st k with
      | Some x => Some x
      | None => run r2 s st k
      end
  | Group n r1 =>
      run r1 s st
        (fun s' st' =>
           k s' (capture n (substring 0 (index st' - index st) s) st'))
  | LineStart =>
      match before st with
      | None => k s st
      | Some c => if isLineTerminator c then k s st else None
      end
  end.
End matcher.

(** One match: its length and its captures. *)
Definition result : Type := nat * list (nat * string).

(** An attempt at one position; [prev] is the character before it. *)
Definition matchAt (r : regex) (prev : option ascii) (s : string)
  : option result :=
  run r s {| before := prev; index := 0; captures := [] |}
    (fun _ st => Some (index st, captures st)).

(** [match[n]]: [undefined] when group [n] took no part. *)
Definition group (m : result) (n : nat) : option string :=
  match find (fun c => Nat.eqb (fst c) n) (snd m) with
  | Some c => Some (snd c)
  | None => None
  end.

(** [while ((match = regex.exec(content)) !== null)] with the [g]
    flag: the leftmost match from [lastIndex] on, then [lastIndex]
    moves to its end.  [skip] counts the characters of the last match
    still to pass.  An empty match would leave [lastIndex] in place;
    [matchAt_nonempty] below shows that the scanner's expressions
    never match the empty string. *)
Fixpoint execAll (r : regex) (prev : option ascii) (s : string) (skip : nat)
  : list result :=
  match skip, s with
  | S n, String c s' => execAll r (Some c) s' n
  | S _, EmptyString => []
  | O, _ =>
      match matchAt r prev s with
      | Some m =>
          m :: match s with
               | String c s' => execAll r (Some c) s' (fst m - 1)
               | EmptyString => []
               end
      | None =>
          match s with
          | String c s' => execAll r (Some c) s' 0
          | EmptyString => []
          end
      end
  end.

Definition matches (r : regex) (content : string) : list result :=
  execAll r None content 0.

(** Least number of characters a match consumes. *)
Fixpoint minLen (r : regex) : nat :=
  match r with
  | Lit l => String.length l
  | Class _ => 1
  | Many _ _ => 0
  | Cat r1 r2 => minLen r1 + minLen r2
  | Alt r1 r2 => Nat.min (minLen r1) (minLen r2)
  | Group _ r1 => minLen r1
  | LineStart => 0
  end.

(** *** A relational reading of the matcher *)

(** The state after the characters of [t] were consumed. *)
Fixpoint consume (t : string) (st : mstate) : mstate :=
match t with
| EmptyString => st
| String c t' => consume t' (step c st)
end.

Fixpoint allChars (p : ascii -> bool) (t : string) : bool :=
match t with
| EmptyString => true
| String c t' => p c && allChars p t'
end.

(** [Match r s st s' st']: from input [s] in state [st] the expression
    [r] can consume a prefix and leave input [s'] in state [st']. *)
Inductive Match : regex -> string -> mstate -> string -> mstate -> Prop :=
| M_Lit l s st :
    Match (Lit l) (l ++ s) st s (consume l st)
| M_Class p c s st :
    p c = true -> Match (Class p) (String c s) st s (step c st)
| M_Many lz p t s st :
    allChars p t = true -> Match (Many lz p) (t ++ s) st s (consume t st)
| M_Cat r1 r2 s st s1 st1 s2 st2 :
    Match r1 s st s1 st1 -> Match r2 s1 st1 s2 st2 ->
    Match (Cat r1 r2) s st s2 st2
| M_AltL r1 r2 s st s' st' :
    Match r1 s st s' st' -> Match (Alt r1 r2) s st s' st'
| M_AltR r1 r2 s st s' st' :
    Match r2 s st s' st' -> Match (Alt r1 r2) s st s' st'
| M_Group n r s st s' st' :
    Match r s st s' st' ->
    Match (Group n r) s st s'
      (capture n (substring 0 (index st' - index st) s) st')
| M_LineStart s st :
    match before st with
    | None => True
    | Some c => isLineTerminator c = true
    end ->
    Match LineStart s st s st.

(** The groups of an expression with their bodies. *)
Fixpoint groupsOf (r : regex) : list (nat * regex) :=
match r with
| Cat r1 r2 | Alt r1 r2 => (groupsOf r1 ++ groupsOf r2)%list
| Group n r1 => (n, r1) :: groupsOf r1
| _ => []
end.

End RegExp.

(* ================================================================== *)
(** ** [src/types/index.ts] *)
(* ================================================================== *)

Module types.

Record Node : Type :=
  { id : string; name : string; type : string; size : N; preview : string }.

Record Link : Type := { source : string; target : string }.

Record GraphData : Type := { nodes : list Node; links : list Link }.

End types.

(* ================================================================== *)
(** ** [ProjectScanner] *)
(* ================================================================== *)

(** The fields of the class.  [probed] is a history variable that the
    class does not have: the arguments of [fileExists], in call order. *)
Record ProjectScanner : Type :=
  { workspaceRoot : string;
    visitedFiles : list string;
    nodes : list types.Node;
    links : list types.Link;
    ig : string -> bool;
    probed : list string }.

(** What a rejected [fs] promise carries: the call and its path. *)
Record error : Type := { syscall : string; errpath : string }.

Inductive outcome (A : Type) : Type :=
| Returned (a : A)
| Thrown (e : error).
Arguments Thrown {A} e.

(** A method body: it runs on the scanner object, changes its fields in
    place and returns or throws. *)
Definition M (A : Type) : Type := ProjectScanner -> outcome A * ProjectScanner.

Definition ret {A} (a : A) : M A := fun this => (Returned a, this).

Definition bind {A B} (c : M A) (k : A -> M B) : M B :=
  fun this =>
    match c this with
    | (Returned a, this') => k a this'
    | (Thrown e, this') => (Thrown e, this')
    end.

Definition throw {A} (e : error) : M A := fun this => (Thrown e, this).

(** [this.workspaceRoot] and [this.ig.ignores]: the two fields a scan
    reads. *)
Definition this_workspaceRoot : M string :=
  fun this => (Returned (workspaceRoot this), this).

Definition this_ig : M (string -> bool) :=
  fun this => (Returned (ig this), this).

(** [try { body } catch (error) { console.error(...) }] *)
Definition try_catch (body : M unit) : M unit :=
  fun this =>
    match body this with
    | (Thrown _, this') => (Returned tt, this')
    | r => r
    end.

(** [await] of an [fs] promise. *)
Definition await {A} (call : string) (p : string) (r : option A) : M A :=
  match r with
  | Some a => ret a
  | None => throw {| syscall := call; errpath := p |}
  end.

Declare Scope js_scope.
Delimit Scope js_scope with js.
Notation "x <- c ;; k" := (bind c (fun x => k))
  (at level 61, c at next level, right associativity) : js_scope.
Notation "c ;; k" := (bind c (fun _ => k))
  (at level 61, right associativity) : js_scope.
Local Open Scope js_scope.

Definition push_node (n : types.Node) : M unit :=
  fun this =>
    (Returned tt,
     {| workspaceRoot := workspaceRoot this; visitedFiles := visitedFiles this;
        nodes := (nodes this ++ [n])%list; links := links this;
        ig := ig this; probed := probed this |}).

Definition push_link (l : types.Link) : M unit :=
  fun this =>
    (Returned tt,
     {| workspaceRoot := workspaceRoot this; visitedFiles := visitedFiles this;
        nodes := nodes this; links := (links this ++ [l])%list;
        ig := ig this; probed := probed this |}).

Definition note_probe (p : string) : M unit :=
  fun this =>
    (Returned tt,
     {| workspaceRoot := workspaceRoot this; visitedFiles := visitedFiles this;
        nodes := nodes this; links := links this;
        ig := ig this; probed := (probed this ++ [p])%list |}).

(** [{ nodes: this.nodes, links: this.links }] *)
Definition this_graph : M types.GraphData :=
  fun this =>
    (Returned {| types.nodes := nodes this; types.links := links this |}, this).

(** [this.nodes = []; this.links = []; this.visitedFiles.clear();] *)
Definition reset : M unit :=
  fun this =>
    (Returned tt,
     {| workspaceRoot := workspaceRoot this; visitedFiles := [];
        nodes := []; links := [];
        ig := ig this; probed := probed this |}).

(** *** The three expressions of [parseDependenciesFromContent] *)

Import RegExp.

(** In the three comments below [Q] stands for the class of the two
    quotation marks, written as a bracket expression in the source.

    [/import\s+.*?from\s+Q(.*?)Q|require\(Q(.*?)Q\)|import\(Q(.*?)Q\)/g] *)
Definition ecmaImport : regex :=
  Alt (Cat (Lit "import") (Cat (Plus space) (Cat (Many true dot)
        (Cat (Lit "from") (Cat (Plus space) (Cat (Class quote)
          (Cat (Group 1 (Many true dot)) (Class quote))))))))
  (Alt (Cat (Lit "require(") (Cat (Class quote)
          (Cat (Group 2 (Many true dot)) (Cat (Class quote) (Lit ")")))))
       (Cat (Lit "import(") (Cat (Class quote)
          (Cat (Group 3 (Many true dot)) (Cat (Class quote) (Lit ")")))))).

(** [/@import\s+Q(.*?)Q|url\(Q(.*?)Q\)/g] *)
Definition cssImport : regex :=
  Alt (Cat (Lit "@import") (Cat (Plus space) (Cat (Class quote)
        (Cat (Group 1 (Many true dot)) (Class quote)))))
      (Cat (Lit "url(") (Cat (Class quote)
        (Cat (Group 2 (Many true dot)) (Cat (Class quote) (Lit ")"))))).

(** [/^import\s+(\w+)|^from\s+(\w+)\s+import/gm] *)
Definition pyImport : regex :=
  Alt (Cat LineStart (Cat (Lit "import") (Cat (Plus space) (Group 1 (Plus word)))))
      (Cat LineStart (Cat (Lit "from") (Cat (Plus space)
        (Cat (Group 2 (Plus word)) (Cat (Plus space) (Lit "import")))))).

(** The first part of [parseDependenciesFromContent]: the array
    [importPaths]; an entry may be [undefined] or empty. *)
Definition importPaths (ext content : string) : list (option string) :=
  if Js.includes [".ts"; ".tsx"; ".js"; ".jsx"] ext then
    map (fun m => Js.or (Js.or (group m 1) (group m 2)) (group m 3))
        (matches ecmaImport content)
  else if Js.includes [".css"; ".scss"] ext then
    map (fun m => Js.or (group m 1) (group m 2)) (matches cssImport content)
  else if String.eqb ext ".py" then
    map (fun m => Js.or (group m 1) (group m 2)) (matches pyImport content)
  else [].

Definition supportedExtensions : list string :=
  [".ts"; ".tsx"; ".js"; ".jsx"; ".css"; ".scss";
   ".html"; ".py"; ".java"; ".c"; ".cpp"; ".h";
   ".json"; ".md"; ".go"; ".rs"; ".php"].

(** [isCodeFile(filename)] *)
Definition isCodeFile (filename : string) : bool :=
  let ext := Js.toLowerCase (path.extname filename) in
  Js.includes supportedExtensions ext.

Definition extensions : list string :=
  [".ts"; ".tsx"; ".js"; ".jsx"; ".css"; ".scss"; "/index.ts"; "/index.js"].

Definition skippedNames : list string :=
  ["node_modules"; "dist"; "out"; "build"; "target"; "vendor"].

(** [content.split('\n').slice(0, 10).join('\n')] *)
Definition previewOf (content : string) : string :=
  Js.join (String (ascii_of_nat 10) EmptyString)
    (firstn 10 (Js.split (ascii_of_nat 10) content)).

Section Scanner.

Variable w : fs.world.

(** [fileExists(relativePath)] *)
Definition fileExists (relativePath : string) : M bool :=
  root <- this_workspaceRoot ;;
  note_probe relativePath ;;
  ret (fs.existsSync w (path.join root relativePath)).

(** The loop [for (const e of extensions)] with its [break]: the
    value of [targetRelativePath] after the loop. *)
Fixpoint probe (targetRelativePath : string) (exts : list string) : M string :=
  match exts with
  | [] => ret targetRelativePath
  | e :: rest =>
      found <- fileExists (targetRelativePath ++ e) ;;
      if found then ret (targetRelativePath ++ e)
      else probe targetRelativePath rest
  end.

(** One turn of the loop [for (const importPath of importPaths)]. *)
Definition resolveImport (dir ext relativeId : string)
    (importPath : option string) : M unit :=
  match importPath with
  | Some (String _ _ as importPath) =>
      if Js.startsWith importPath "." then
        root <- this_workspaceRoot ;;
        let absoluteImportPath := path.resolve (fs.cwd w) [dir; importPath] in
        let targetRelativePath :=
          path.relative (fs.cwd w) root absoluteImportPath in
        found <- fileExists targetRelativePath ;;
        targetRelativePath <-
          (if negb found then probe targetRelativePath extensions
           else ret targetRelativePath) ;;
        if negb (Js.startsWith targetRelativePath "..") then
          found <- fileExists targetRelativePath ;;
          if found then
            push_link {| types.source := relativeId;
                         types.target := targetRelativePath |}
          else ret tt
        else ret tt
      else if String.eqb ext ".py" then
        let possiblePyFile := Js.replaceDots importPath ++ ".py" in
        found <- fileExists possiblePyFile ;;
        if found then
          push_link {| types.source := relativeId;
                       types.target := possiblePyFile |}
        else ret tt
      else ret tt
  | _ => ret tt
  end.

Fixpoint forEach {A} (f : A -> M unit) (l : list A) : M unit :=
  match l with
  | [] => ret tt
  | x :: rest => f x ;; forEach f rest
  end.

(** [parseDependenciesFromContent(content, filePath, relativeId)] *)
Definition parseDependenciesFromContent
    (content filePath relativeId : string) : M unit :=
  try_catch
    (let dir := path.dirname filePath in
     let ext := Js.toLowerCase (path.extname filePath) in
     forEach (resolveImport dir ext relativeId) (importPaths ext content)).

(** [processFile(fullPath, relativePath, fileName)]; [entry] is the
    file that [fullPath] names. *)
Definition processFile (entry : fs.node)
    (fullPath relativePath fileName : string) : M unit :=
  try_catch
    (stats <- await "stat" fullPath (fs.stat entry) ;;
     content <- await "open" fullPath (fs.readFile entry) ;;
     let preview := previewOf content in
     push_node {| types.id := relativePath;
                  types.name := fileName;
                  types.type := path.extname fileName;
                  types.size := stats;
                  types.preview := preview |} ;;
     parseDependenciesFromContent content fullPath relativePath).

(** The tests of the loop body of [scanDirectory] that [continue]. *)
Definition skipped (ignores : string -> bool)
    (entryName relativePath : string) : bool :=
  (Js.startsWith entryName "." && negb (String.eqb entryName ".gitignore"))
  || Js.includes skippedNames entryName
  || ignores relativePath.

(** [scanDirectory(dir)]; [d] is what [dir] names.  The entries of a
    listing carry their own subtrees, so the recursive call on
    [fullPath] lists the entry just met. *)
Fixpoint scanDirectory (dir : string) (d : fs.node) {struct d} : M unit :=
  match d with
  | fs.Dir true entries =>
      (fix loop (entries : list (string * fs.node)) : M unit :=
         match entries with
         | [] => ret tt
         | (entryName, entry) :: rest =>
             (root <- this_workspaceRoot ;;
              ignores <- this_ig ;;
              let fullPath := path.join dir entryName in
              let relativePath := path.relative (fs.cwd w) root fullPath in
              if skipped ignores entryName relativePath then ret tt
              else if fs.isDirectory entry then scanDirectory fullPath entry
              else if fs.isFile entry then
                (if isCodeFile entryName
                 then processFile entry fullPath relativePath entryName
                 else ret tt)
              else ret tt) ;;
             loop rest
         end) entries
  | _ => throw {| syscall := "scandir"; errpath := dir |}
  end.

(** The call [this.scanDirectory(this.workspaceRoot)]: [readdir]
    opens what the root path names. *)
Definition scanWorkspace : M unit :=
  root <- this_workspaceRoot ;;
  d <- await "scandir" root (fs.opendir w root) ;;
  scanDirectory root d.

(** [scan()] *)
Definition scan : M types.GraphData :=
  reset ;;
  scanWorkspace ;;
  this_graph.

End Scanner.

(** [new ProjectScanner(workspaceRoot)]: the constructor with
    [loadGitignore].  [ignore_add content] stands for the matcher that
    the package [ignore] builds from the text of a [.gitignore];
    without rules nothing is ignored.  [None]: [readFileSync] throws. *)
Definition new_ProjectScanner (w : fs.world)
    (ignore_add : string -> string -> bool) (root : string)
  : option ProjectScanner :=
  let fresh rules :=
    {| workspaceRoot := root; visitedFiles := []; nodes := []; links := [];
       ig := rules; probed := [] |} in
  let gitignorePath := path.join root ".gitignore" in
  if fs.existsSync w gitignorePath then
    match fs.at_path w gitignorePath with
    | Some f => option_map (fun content => fresh (ignore_add content)) (fs.readFile f)
    | None => None
    end
  else Some (fresh (fun _ => false)).

(* ================================================================== *)
(** ** The accumulators only grow *)
(* ================================================================== *)

(** A scan reads [workspaceRoot] and [ig] and appends to [nodes],
    [links] and [probed].  What a method appends is what it leaves when
    run on a scanner with empty accumulators. *)
Definition blank (this : ProjectScanner) : ProjectScanner :=
  {| workspaceRoot := workspaceRoot this; visitedFiles := [];
     nodes := []; links := []; ig := ig this; probed := [] |}.

Definition merge (this b : ProjectScanner) : ProjectScanner :=
  {| workspaceRoot := workspaceRoot this; visitedFiles := visitedFiles this;
     nodes := (nodes this ++ nodes b)%list;
     links := (links this ++ links b)%list;
     ig := ig this;
     probed := (probed this ++ probed b)%list |}.

Definition appender {A} (c : M A) : Prop :=
  forall this,
    c this = (fst (c (blank this)), merge this (snd (c (blank this)))).

(* ================================================================== *)
(** ** The walk, stated apart from the scanner *)
(* ================================================================== *)

(** A regular file that the walk meets and does not skip. *)
Record candidate : Type :=
  { c_fullPath : string;
    c_relativePath : string;
    c_name : string;
    c_entry : fs.node }.

Section Walk.

Variable w : fs.world.
Variable root : string.
Variable ignores : string -> bool.

(** The regular files below [dir] that pass the dotfile rule, the
    denylist and the ignore rules, in the order of the listings. *)
Fixpoint reached (dir : string) (d : fs.node) {struct d} : list candidate :=
  match d with
  | fs.Dir _ entries =>
      (fix each (entries : list (string * fs.node)) : list candidate :=
         match entries with
         | [] => []
         | (entryName, entry) :: rest =>
             let fullPath := path.join dir entryName in
             let relativePath := path.relative (fs.cwd w) root fullPath in
             ((if skipped ignores entryName relativePath then []
               else if fs.isDirectory entry then reached fullPath entry
               else if fs.isFile entry then
                 [{| c_fullPath := fullPath; c_relativePath := relativePath;
                     c_name := entryName; c_entry := entry |}]
               else []) ++ each rest)%list
         end) entries
  | _ => []
  end.

(** [dir] and every directory below it that the walk enters can be
    listed. *)
Fixpoint listable (dir : string) (d : fs.node) {struct d} : bool :=
  match d with
  | fs.Dir true entries =>
      (fix each (entries : list (string * fs.node)) : bool :=
         match entries with
         | [] => true
         | (entryName, entry) :: rest =>
             let fullPath := path.join dir entryName in
             let relativePath := path.relative (fs.cwd w) root fullPath in
             (if skipped ignores entryName relativePath then true
              else if fs.isDirectory entry then listable fullPath entry
              else true) && each rest
         end) entries
  | _ => false
  end.

(** [stat] and [readFile] both answer. *)
Definition readable (c : candidate) : bool :=
  match fs.stat (c_entry c), fs.readFile (c_entry c) with
  | Some _, Some _ => true
  | _, _ => false
  end.

(** A file that becomes a Node: allowed extension, no error. *)
Definition accepted (c : candidate) : bool :=
  isCodeFile (c_name c) && readable c.

Definition contentOf (c : candidate) : string :=
  match fs.readFile (c_entry c) with Some s => s | None => "" end.

Definition nodeOf (c : candidate) : types.Node :=
  {| types.id := c_relativePath c;
     types.name := c_name c;
     types.type := path.extname (c_name c);
     types.size := match fs.stat (c_entry c) with Some n => n | None => 0%N end;
     types.preview := previewOf (contentOf c) |}.

(** The scanner with empty accumulators. *)
Definition emptyScanner : ProjectScanner :=
  {| workspaceRoot := root; visitedFiles := []; nodes := []; links := [];
     ig := ignores; probed := [] |}.

(** The Links that [parseDependenciesFromContent] appends for one
    file. *)
Definition linksOf (c : candidate) : list types.Link :=
  links (snd (parseDependenciesFromContent w (contentOf c)
                (c_fullPath c) (c_relativePath c) emptyScanner)).

End Walk.

(** The body of the loop of [scanDirectory] for one entry, and what
    the walk collects for it. *)
Definition scanEntry (w : fs.world) (dir entryName : string) (entry : fs.node)
  : M unit :=
  root <- this_workspaceRoot ;;
  ignores <- this_ig ;;
  let fullPath := path.join dir entryName in
  let relativePath := path.relative (fs.cwd w) root fullPath in
  if skipped ignores entryName relativePath then ret tt
  else if fs.isDirectory entry then scanDirectory w fullPath entry
  else if fs.isFile entry then
    (if isCodeFile entryName
     then processFile w entry fullPath relativePath entryName
     else ret tt)
  else ret tt.

Definition reachedEntry (w : fs.world) (root : string) (ignores : string -> bool)
    (dir entryName : string) (entry : fs.node) : list candidate :=
  let fullPath := path.join dir entryName in
  let relativePath := path.relative (fs.cwd w) root fullPath in
  if skipped ignores entryName relativePath then []
  else if fs.isDirectory entry then reached w root ignores fullPath entry
  else if fs.isFile entry then
    [{| c_fullPath := fullPath; c_relativePath := relativePath;
        c_name := entryName; c_entry := entry |}]
  else [].

Definition listableEntry (w : fs.world) (root : string) (ignores : string -> bool)
    (dir entryName : string) (entry : fs.node) : bool :=
  let fullPath := path.join dir entryName in
  let relativePath := path.relative (fs.cwd w) root fullPath in
  if skipped ignores entryName relativePath then true
  else if fs.isDirectory entry then listable w root ignores fullPath entry
  else true.

(** The graph of a walk from the root directory [d]. *)
Definition graphOf (w : fs.world) (root : string) (ignores : string -> bool)
    (d : fs.node) : types.GraphData :=
  let files := filter accepted (reached w root ignores root d) in
  {| types.nodes := map nodeOf files;
     types.links := flat_map (linksOf w root ignores) files |}.

(** [walk_ok c ok cs]: run on empty accumulators, the method [c]
    returns exactly when [ok], and then it has appended the Nodes of
    the accepted files among [cs] and the Links of their contents. *)
Definition walk_ok (w : fs.world) (root : string) (ignores : string -> bool)
    (c : M unit) (ok : bool) (cs : list candidate) : Prop :=
  let E := emptyScanner root ignores in
  if ok then
    fst (c E) = Returned tt
    /\ nodes (snd (c E)) = map nodeOf (filter accepted cs)
    /\ links (snd (c E)) = flat_map (linksOf w root ignores) (filter accepted cs)
  else exists e, fst (c E) = Thrown e.

(* ================================================================== *)
(** ** Assertions on methods *)
(* ================================================================== *)

(** [triple P c Q E]: from a scanner satisfying [P], the method [c]
    returns [a] in a scanner satisfying [Q a], or throws in a scanner
    satisfying [E]. *)
Definition triple {A} (P : ProjectScanner -> Prop) (c : M A)
    (Q : A -> ProjectScanner -> Prop) (E : ProjectScanner -> Prop) : Prop :=
  forall this, P this ->
    match c this with
    | (Returned a, this') => Q a this'
    | (Thrown _, this') => E this'
    end.

(** What the scanner guarantees of a Link emitted for the file
    [relativeId]. *)
Definition emitted_link (w : fs.world) (root relativeId : string)
    (l : types.Link) : Prop :=
  types.source l = relativeId
  /\ Js.startsWith (types.target l) ".." = false
  /\ fs.existsSync w (path.join root (types.target l)) = true.


(* ================================================================== *)
(** ** Well-formed listings *)
(* ================================================================== *)

(** A name as [readdir] reports it: not empty, not [.] or [..], and
    without a slash. *)
Fixpoint slashFree (s : string) : bool :=
match s with
| EmptyString => true
| String c s' => negb (Ascii.eqb c "/"%char) && slashFree s'
end.

Definition plain (s : string) : bool :=
negb (String.eqb s "") && negb (String.eqb s ".")
&& negb (String.eqb s "..") && slashFree s.

Fixpoint distinct (l : list string) : bool :=
match l with
| [] => true
| x :: rest => negb (existsb (String.eqb x) rest) && distinct rest
end.

(** Every listing below [n] has plain and distinct names. *)
Fixpoint wellFormed (n : fs.node) : bool :=
match n with
| fs.Dir _ entries =>
    distinct (map fst entries)
    && (fix each (entries : list (string * fs.node)) : bool :=
          match entries with
          | [] => true
          | (entryName, entry) :: rest =>
              plain entryName && wellFormed entry && each rest
          end) entries
| _ => true
end.

(** The canonical segments of an absolute path. *)
Definition segments (p : string) : list string :=
path.normalizeSegs false [] (Js.split "/" p).

(* ================================================================== *)
(** ** Sample workspaces *)
(* ================================================================== *)

Module Sample.

Definition file (content : string) : fs.node :=
  fs.File (Some (N.of_nat (String.length content))) (Some content).

(** A world whose only directory below [/] is the workspace [/w]. *)
Definition workspace (entries : list (string * fs.node)) : fs.world :=
  {| fs.cwd := "/"; fs.slash := fs.Dir true [("w", fs.Dir true entries)] |}.

(** A scanner on [/w] without ignore rules. *)
Definition scanner : ProjectScanner := emptyScanner "/w" (fun _ => false).

(** A Python file with a dotted import next to the module it names. *)
Definition dotted : fs.world :=
  workspace
    [("main.py", file "from pkg.sub import y");
     ("pkg", fs.Dir true [("sub.py", file "y = 1")])].

(** A readable file next to a directory that cannot be listed. *)
Definition locked : fs.world :=
  workspace
    [("a.ts", file "export const a = 1");
     ("private", fs.Dir false [("b.ts", file "export const b = 2")])].

(** A file whose extension is written in capitals. *)
Definition capitals : fs.world :=
  workspace [("Foo.TS", file "export {}")].

(** An import of a directory that holds an index file. *)
Definition index : fs.world :=
  workspace
    [("a.ts", file "import x from './sub'");
     ("sub", fs.Dir true [("index.ts", file "export default 1")])].

(** An import of a package. *)
Definition package : fs.world :=
  workspace [("a.ts", file "import x from 'react'")].

(** An import of a file without extension, an import that leaves the
    workspace, and a file that cannot be read. *)
Definition mixed : fs.world :=
  {| fs.cwd := "/";
     fs.slash :=
       fs.Dir true
         [("etc", fs.Dir true [("passwd", file "root")]);
          ("w", fs.Dir true
             [("a.ts", file "import l from './LICENSE'; import p from '../etc/passwd'; import b from './lib/b'");
              ("LICENSE", file "MIT");
              ("notes.txt", file "import x from './a'");
              ("secret.ts", fs.File (Some 9%N) None);
              ("lib", fs.Dir true
                 [("b.ts", file "import a from '../a'");
                  ("c.py", file "import a")]);
              ("a.py", file "")])] |}.

(** The graph a run resolved to (empty when it threw). *)
Definition graph_of (r : outcome types.GraphData * ProjectScanner)
  : types.GraphData :=
  match fst r with
  | Returned g => g
  | Thrown _ => {| types.nodes := []; types.links := [] |}
  end.

Definition mixed_graph : types.GraphData := graph_of (scan mixed scanner).
Definition mixed_after : ProjectScanner := snd (scan mixed scanner).

(** The root directory of [mixed] and the files its walk reaches;
    the fourth, [secret.ts], cannot be read. *)
Definition mixed_root : fs.node :=
  match fs.opendir mixed "/w" with
  | Some d => d
  | None => fs.Other false
  end.

Definition mixed_reached : list candidate :=
  reached mixed "/w" (fun _ => false) "/w" mixed_root.

Definition mixed_secret : candidate :=
  nth 3 mixed_reached
    {| c_fullPath := ""; c_relativePath := ""; c_name := "";
       c_entry := fs.Other false |}.

(** Files whose extensions differ in case or are not on the list. *)
Definition extensions : fs.world :=
  workspace
    [("a.ts", file "export const a = 1");
     ("Foo.TS", file "export {}");
     ("style.Css", file "body {}");
     ("notes.txt", file "import x from './a'");
     ("Makefile", file "all:");
     ("b.tsx.bak", file "import a from './a'")].

Definition extensions_graph : types.GraphData :=
  graph_of (scan extensions scanner).
Definition extensions_after : ProjectScanner := snd (scan extensions scanner).

(** A workspace with hidden entries, artifact directories and a
    directory that a rule ignores. *)
Definition guarded : fs.world :=
  workspace
    [(".gitignore", file "logs");
     (".git", fs.Dir true [("hook.js", file "")]);
     (".eslintrc.js", file "module.exports = {}");
     ("node_modules", fs.Dir true [("pkg.js", file "")]);
     ("dist", fs.Dir true [("bundle.js", file "")]);
     ("logs", fs.Dir true [("run.js", file "")]);
     ("src", fs.Dir true
        [("a.ts", file "export const a = 1");
         ("vendor", fs.Dir true [("v.js", file "")]);
         (".cache.ts", file "")]);
     ("out.ts", file "export {}")].

(** A scanner on [/w] whose rules ignore [logs] and what lies below. *)
Definition guard : ProjectScanner :=
  emptyScanner "/w" (fun p => Js.startsWith p "logs").

Definition guarded_graph : types.GraphData := graph_of (scan guarded guard).
Definition guarded_after : ProjectScanner := snd (scan guarded guard).

Definition guarded_root : fs.node :=
  match fs.opendir guarded "/w" with
  | Some d => d
  | None => fs.Other false
  end.

End Sample.

(* ================================================================== *)
(** ** Further notions for stating properties *)
(* ================================================================== *)

(** [s] does not contain the character [sep]. *)
Fixpoint lacks (sep : ascii) (s : string) : bool :=
match s with
| EmptyString => true
| String c s' => negb (Ascii.eqb c sep) && lacks sep s'
end.

(** [only_scandir root ignores c]: run on empty accumulators, whatever
    [c] throws is the error of a [readdir]. *)
Definition only_scandir (root : string) (ignores : string -> bool)
    (c : M unit) : Prop :=
forall e, fst (c (emptyScanner root ignores)) = Thrown e ->
          syscall e = "scandir".

(** [passes ignores X names]: going down from the directory with the
    relative segments [X] through the entries [names], no entry is
    skipped by the dotfile rule, the denylist or the ignore rules. *)
Fixpoint passes (ignores : string -> bool) (X names : list string) : bool :=
match names with
| [] => true
| n :: rest =>
    negb (skipped ignores n (Js.join "/" (X ++ [n])%list))
    && passes ignores (X ++ [n])%list rest
end.

(** The characters of a list up to its first slash. *)
Fixpoint takeToSlash (l : list ascii) : list ascii :=
match l with
| c :: l' => if Ascii.eqb c "/"%char then [] else c :: takeToSlash l'
| [] => []
end.

(** The extensions for which [parseDependenciesFromContent] has an
    expression. *)
Definition parsedExtensions : list string :=
[".ts"; ".tsx"; ".js"; ".jsx"; ".css"; ".scss"; ".py"].

(* ================================================================== *)
(** ** [src/GraphPanel.ts]: the host side *)
(* ================================================================== *)

Module GraphPanel.

(** What a call of [_openFile] does: nothing, the call
    [openTextDocument] on a path, or a [TypeError] because
    [workspaceFolders[0]] is [undefined]. *)
Inductive opening : Type :=
| Nothing
| OpenTextDocument (fullPath : string)
| TypeError.

(** [_openFile(relativePath)]; [workspaceFolders] is
    [vscode.workspace.workspaceFolders] with the [uri.fsPath] of each
    folder, [None] for [undefined]. *)
Definition _openFile (workspaceFolders : option (list string))
    (relativePath : string) : opening :=
match workspaceFolders with
| None => Nothing
| Some [] => TypeError
| Some (rootPath :: _) => OpenTextDocument (path.join rootPath relativePath)
end.

(** What a call of [_update] leads to: the error message, a
    [TypeError] because [workspaceFolders[0]] is [undefined], an
    exception of the constructor of the scanner, the rejection of
    [scan()] (no message is posted), or the message [updateData]. *)
Inductive updating : Type :=
| ShowErrorMessage (message : string)
| NoFirstFolder
| ConstructorThrows
| ScanRejects (e : error)
| PostMessage (data : types.GraphData).

(** [_update()]; [ignore_add] as for [new_ProjectScanner]. *)
Definition _update (w : fs.world) (ignore_add : string -> string -> bool)
    (workspaceFolders : option (list string)) : updating :=
match workspaceFolders with
| None => ShowErrorMessage "No workspace folder open"
| Some [] => NoFirstFolder
| Some (rootPath :: _) =>
    match new_ProjectScanner w ignore_add rootPath with
    | None => ConstructorThrows
    | Some scanner =>
        match fst (scan w scanner) with
        | Returned data => PostMessage data
        | Thrown e => ScanRejects e
        end
    end
end.

End GraphPanel.

(* ================================================================== *)
(** ** [src/GraphPanel.ts]: the script of the webview *)
(* ================================================================== *)

Module Webview.

(** An end of a link in the webview: the id that the scanner sent, or
    the node object that the graph library has put in its place. *)
Inductive endpoint : Type :=
| Id (id : string)
| Obj (node : types.Node).

Record link : Type := { source : endpoint; target : endpoint }.

(** [typeof e === 'object' ? e.id : e] *)
Definition idOf (e : endpoint) : string :=
match e with
| Id s => s
| Obj n => types.id n
end.

(** The links of a message as the scanner posts them. *)
Definition received (l : types.Link) : link :=
{| source := Id (types.source l); target := Id (types.target l) |}.

(** The callback of [self.findIndex] in the handler of [updateData]. *)
Definition sameEnds (sourceId targetId : string) (l : link) : bool :=
String.eqb (idOf (source l)) sourceId && String.eqb (idOf (target l)) targetId.

(** [arr.findIndex(f)]; [None] stands for [-1]. *)
Fixpoint findIndex {A} (f : A -> bool) (l : list A) : option nat :=
match l with
| [] => None
| x :: rest => if f x then Some 0 else option_map S (findIndex f rest)
end.

(** [arr.filter((x, index) => f(x, index))], counting from [index]. *)
Fixpoint filterFrom {A} (f : A -> nat -> bool) (index : nat) (l : list A)
  : list A :=
match l with
| [] => []
| x :: rest =>
    if f x index then x :: filterFrom f (S index) rest
    else filterFrom f (S index) rest
end.

(** [set.has(x)] for a set of strings kept in insertion order. *)
Definition has (s : list string) (x : string) : bool :=
existsb (String.eqb x) s.

(** [set.add(x)] *)
Definition add (s : list string) (x : string) : list string :=
if has s x then s else (s ++ [x])%list.

(** The callback of [links.filter] in the handler of [updateData]. *)
Definition keepLink (nodeIds : list string) (self : list link)
    (l : link) (index : nat) : bool :=
let sourceId := idOf (source l) in
let targetId := idOf (target l) in
let firstIdx := findIndex (sameEnds sourceId targetId) self in
match firstIdx with
| Some i => Nat.eqb index i
| None => false
end
&& has nodeIds sourceId && has nodeIds targetId.

(** [cleanLinks] of the handler of [updateData]. *)
Definition cleanLinks (nodes : list types.Node) (links : list link)
  : list link :=
let nodeIds := map types.id nodes in
filterFrom (keepLink nodeIds links) 0 links.

(** The two ids of a link. *)
Definition ends (l : link) : string * string :=
(idOf (source l), idOf (target l)).

Definition endsEqb (a b : string * string) : bool :=
String.eqb (fst a) (fst b) && String.eqb (snd a) (snd b).

(** [cleanLinks] told apart from indices: going through the links
    with the pairs [seen] so far, a link is kept when its pair is new
    and both its ends are ids of nodes. *)
Fixpoint keptAfter (nodeIds : list string) (seen : list (string * string))
    (links : list link) : list link :=
match links with
| [] => []
| l :: rest =>
    let tail := keptAfter nodeIds (seen ++ [ends l])%list rest in
    if negb (existsb (endsEqb (ends l)) seen)
       && has nodeIds (idOf (source l)) && has nodeIds (idOf (target l))
    then l :: tail else tail
end.

(** [String.prototype.replace] with a one-character global pattern. *)
Fixpoint replaceAll (c : ascii) (by_ : string) (s : string) : string :=
match s with
| EmptyString => EmptyString
| String a s' =>
    if Ascii.eqb a c then by_ ++ replaceAll c by_ s'
    else String a (replaceAll c by_ s')
end.

(** The double quotation mark. *)
Definition dquote : ascii := ascii_of_nat 34.

(** [escapeHtml(unsafe)] of [setupGraphProperties] *)
Definition escapeHtml (unsafe : string) : string :=
replaceAll "'" "&#039;"
  (replaceAll dquote "&quot;"
     (replaceAll ">" "&gt;"
        (replaceAll "<" "&lt;"
           (replaceAll "&" "&amp;" unsafe)))).

(** What [escapeHtml] does to one character. *)
Definition escapeChar (c : ascii) : string :=
if Ascii.eqb c "&" then "&amp;"
else if Ascii.eqb c "<" then "&lt;"
else if Ascii.eqb c ">" then "&gt;"
else if Ascii.eqb c dquote then "&quot;"
else if Ascii.eqb c "'" then "&#039;"
else String c EmptyString.

(** One turn of [links.forEach] in [onNodeHover] and [highlightType]:
    [neighbors] is a set of ids, [neighborLinks] a set of link objects,
    kept here as their positions in the array. *)
Definition neighborStep (nodeId : string) (index : nat) (l : link)
    (acc : list string * list nat) : list string * list nat :=
let sId := idOf (source l) in
let tId := idOf (target l) in
if String.eqb sId nodeId then (add (fst acc) tId, (snd acc ++ [index])%list)
else if String.eqb tId nodeId then (add (fst acc) sId, (snd acc ++ [index])%list)
else acc.

Fixpoint neighborsFrom (nodeId : string) (index : nat) (links : list link)
    (acc : list string * list nat) : list string * list nat :=
match links with
| [] => acc
| l :: rest =>
    neighborsFrom nodeId (S index) rest (neighborStep nodeId index l acc)
end.

(** [neighbors] and [neighborLinks] after the hover over the node
    [nodeId]: both sets are cleared, then filled. *)
Definition hover (nodeId : string) (links : list link)
  : list string * list nat :=
neighborsFrom nodeId 0 links ([], []).

(** [s.indexOf(sub)]; [None] stands for [-1]. *)
Fixpoint indexOf (s sub : string) : option nat :=
if Js.startsWith s sub then Some 0
else match s with
     | EmptyString => None
     | String _ s' => option_map S (indexOf s' sub)
     end.

(** The callback of [nodes.find] in [handleSearch]. *)
Definition nameHolds (query : string) (n : types.Node) : bool :=
match indexOf (Js.toLowerCase (types.name n)) (Js.toLowerCase query) with
| Some _ => true
| None => false
end.

(** [handleSearch(query)]: the value of [searchNode] afterwards. *)
Definition handleSearch (nodes : list types.Node)
    (searchNode : option types.Node) (query : string) : option types.Node :=
match query with
| EmptyString => None
| _ =>
    match find (nameHolds query) nodes with
    | Some node => Some node
    | None => searchNode
    end
end.

(** [n.type || 'other'] *)
Definition typeOrOther (n : types.Node) : string :=
match types.type n with
| EmptyString => "other"
| t => t
end.

(** The loop of [renderLegend] that fills [types]. *)
Fixpoint collectTypes (nodes : list types.Node) (types_ : list string)
  : list string :=
match nodes with
| [] => types_
| n :: rest =>
    let t := typeOrOther n in
    collectTypes rest
      (match findIndex (String.eqb t) types_ with
       | None => (types_ ++ [t])%list
       | Some _ => types_
       end)
end.

(** The callback of [nodes.find] in [highlightType]. *)
Definition ofType (type : string) (n : types.Node) : bool :=
String.eqb (types.type n) type
|| (String.eqb type "other" && String.eqb (types.type n) "").

End Webview.

(* ================================================================== *)
(** ** Notions for the statements about the webview *)
(* ================================================================== *)

(** The characters that open or close a tag or an attribute value. *)
Definition markup (c : ascii) : bool :=
Ascii.eqb c "<" || Ascii.eqb c ">" || Ascii.eqb c Webview.dquote
|| Ascii.eqb c "'".

(** The link [l] joins the nodes with the ids [a] and [b], in one
    direction or the other. *)
Definition joins (a : string) (l : Webview.link) (b : string) : Prop :=
(Webview.idOf (Webview.source l) = a /\ Webview.idOf (Webview.target l) = b)
\/ (Webview.idOf (Webview.target l) = a /\ Webview.idOf (Webview.source l) = b).

(** The link [l] has the node with the id [a] at one of its ends. *)
Definition touches (a : string) (l : Webview.link) : Prop :=
Webview.idOf (Webview.source l) = a \/ Webview.idOf (Webview.target l) = a.

(** [sub] occurs in [s]. *)
Definition occursIn (sub s : string) : Prop :=
exists a b, s = a ++ sub ++ b.

(* ================================================================== *)
(** ** The extension filter in the words of the specification *)
(* ================================================================== *)

(** [capitalOf c d]: [d] is one of the small letters [a] to [z] and
    [c] is its capital. *)
Definition capitalOf (c d : ascii) : bool :=
Nat.leb 97 (nat_of_ascii d) && Nat.leb (nat_of_ascii d) 122
&& Nat.eqb (nat_of_ascii c + 32) (nat_of_ascii d).

(** Two characters that differ at most in case. *)
Definition sameLetter (c d : ascii) : bool :=
Ascii.eqb c d || capitalOf c d || capitalOf d c.

(** Two strings compared case-insensitively. *)
Fixpoint sameIgnoringCase (a b : string) : bool :=
match a, b with
| EmptyString, EmptyString => true
| String c a', String d b' => sameLetter c d && sameIgnoringCase a' b'
| _, _ => false
end.

(** A small letter or the dot: the characters of the allow-list. *)
Definition smallOrDot (d : ascii) : bool :=
Nat.eqb (nat_of_ascii d) 46
|| (Nat.leb 97 (nat_of_ascii d) && Nat.leb (nat_of_ascii d) 122).

(* ================================================================== *)
(** * Properties *)
(* ================================================================== *)

(** ** The [path] module on the examples of its documentation *)

Example extname_html : path.extname "index.html" = ".html". Proof. reflexivity. Qed.
Example extname_two : path.extname "index.coffee.md" = ".md". Proof. reflexivity. Qed.
Example extname_dot : path.extname "index." = ".". Proof. reflexivity. Qed.
Example extname_none : path.extname "index" = "". Proof. reflexivity. Qed.
Example extname_hidden : path.extname ".index" = "". Proof. reflexivity. Qed.
Example extname_hidden_md : path.extname ".index.md" = ".md". Proof. reflexivity. Qed.
Example extname_dotdot : path.extname ".." = "". Proof. reflexivity. Qed.
Example extname_full : path.extname "/w/src/Foo.TS" = ".TS". Proof. reflexivity. Qed.
Example dirname_abs : path.dirname "/foo/bar/baz/asdf/quux" = "/foo/bar/baz/asdf". Proof. reflexivity. Qed.
Example dirname_top : path.dirname "/a" = "/". Proof. reflexivity. Qed.
Example dirname_rel : path.dirname "a" = ".". Proof. reflexivity. Qed.
Example dirname_trail : path.dirname "/a/b/" = "/a". Proof. reflexivity. Qed.
Example join_doc :
  path.join "/foo/bar" "baz/asdf/quux/.." = "/foo/bar/baz/asdf". Proof. reflexivity. Qed.
Example join_empty : path.join "/w" "" = "/w". Proof. reflexivity. Qed.
Example join_up : path.join "/w" "../x" = "/x". Proof. reflexivity. Qed.
Example join_rel_up : path.join "w" "../../x" = "../x". Proof. reflexivity. Qed.
Example normalize_doc :
  path.normalize "/foo/bar//baz/asdf/quux/.." = "/foo/bar/baz/asdf". Proof. reflexivity. Qed.
Example resolve_doc :
  path.resolve "/home" ["/foo/bar"; "./baz"] = "/foo/bar/baz". Proof. reflexivity. Qed.
Example resolve_abs :
  path.resolve "/home" ["/foo/bar"; "/tmp/file/"] = "/tmp/file". Proof. reflexivity. Qed.
Example resolve_cwd :
  path.resolve "/home/me" ["wwwroot"; "static_files/gif"; "../gif/image.gif"]
  = "/home/me/wwwroot/static_files/gif/image.gif". Proof. reflexivity. Qed.
Example relative_doc :
  path.relative "/" "/data/orandea/test/aaa" "/data/orandea/impl/bbb"
  = "../../impl/bbb". Proof. reflexivity. Qed.
Example relative_down : path.relative "/" "/w" "/w/a/b.ts" = "a/b.ts". Proof. reflexivity. Qed.
Example relative_same : path.relative "/" "/w" "/w/." = "". Proof. reflexivity. Qed.
Example relative_parent : path.relative "/" "/w/p" "/w" = "..". Proof. reflexivity. Qed.

(** ** Appending methods *)

Lemma blank_blank this : blank (blank this) = blank this.
Proof. reflexivity. Qed.

Lemma blank_merge this b : blank (merge this b) = blank this.
Proof. reflexivity. Qed.

Lemma merge_blank this : merge this (blank this) = this.
Proof. destruct this; unfold merge, blank; simpl. now rewrite !app_nil_r. Qed.

Lemma merge_assoc this a b : merge (merge this a) b = merge this (merge a b).
Proof. unfold merge; simpl. now rewrite !app_assoc. Qed.

(** The output of an appender on a blank scanner is itself blank below
    what it appended. *)
Lemma appender_blank_out {A} (c : M A) this :
  appender c -> blank (snd (c (blank this))) = blank this.
Proof.
  intros Hc. rewrite (Hc (blank this)). simpl. reflexivity.
Qed.

Lemma appender_ret {A} (a : A) : appender (ret a).
Proof. intros this. unfold ret; simpl. now rewrite merge_blank. Qed.

Lemma appender_throw {A} e : appender (@throw A e).
Proof. intros this. unfold throw; simpl. now rewrite merge_blank. Qed.

Lemma appender_await {A} call p (r : option A) : appender (await call p r).
Proof. destruct r; [apply appender_ret | apply appender_throw]. Qed.

Lemma appender_this_workspaceRoot : appender this_workspaceRoot.
Proof. intros this. unfold this_workspaceRoot; simpl. now rewrite merge_blank. Qed.

Lemma appender_this_ig : appender this_ig.
Proof. intros this. unfold this_ig; simpl. now rewrite merge_blank. Qed.

Lemma appender_push_node n : appender (push_node n).
Proof. intros this. destruct this; unfold push_node, merge, blank; simpl.
  now rewrite !app_nil_r. Qed.

Lemma appender_push_link l : appender (push_link l).
Proof. intros this. destruct this; unfold push_link, merge, blank; simpl.
  now rewrite !app_nil_r. Qed.

Lemma appender_note_probe p : appender (note_probe p).
Proof. intros this. destruct this; unfold note_probe, merge, blank; simpl.
  now rewrite !app_nil_r. Qed.

Lemma appender_bind {A B} (c : M A) (k : A -> M B) :
  appender c -> (forall a, appender (k a)) -> appender (bind c k).
Proof.
  intros Hc Hk this. unfold bind.
  rewrite (Hc this).
  pose proof (appender_blank_out this Hc) as Hb.
  destruct (c (blank this)) as [[a|e] b]; simpl in *.
  - rewrite (Hk a (merge this b)), blank_merge.
    rewrite (Hk a b), Hb. simpl.
    now rewrite merge_assoc.
  - reflexivity.
Qed.

Lemma appender_try_catch (c : M unit) : appender c -> appender (try_catch c).
Proof.
  intros Hc this. unfold try_catch. rewrite (Hc this).
  destruct (c (blank this)) as [[a|e] b]; reflexivity.
Qed.

Lemma appender_if {A} (b : bool) (c1 c2 : M A) :
  appender c1 -> appender c2 -> appender (if b then c1 else c2).
Proof. now destruct b. Qed.

Create HintDb appender.
#[local] Hint Resolve appender_ret appender_throw appender_await
  appender_this_workspaceRoot appender_this_ig appender_push_node
  appender_push_link appender_note_probe appender_try_catch
  appender_if : appender.

Ltac appender_step :=
  first [ solve [ auto with appender ]
        | apply appender_bind; [ | intro ]
        | apply appender_if
        | apply appender_try_catch ].

Section AppenderScanner.
Variable w : fs.world.

Lemma appender_fileExists p : appender (fileExists w p).
Proof. unfold fileExists. repeat appender_step. Qed.

Lemma appender_probe t exts : appender (probe w t exts).
Proof.
  induction exts as [|e rest IH]; simpl.
  - apply appender_ret.
  - apply appender_bind; [apply appender_fileExists|].
    intros found. destruct found; [apply appender_ret | exact IH].
Qed.

Lemma appender_resolveImport dir ext rid ip :
  appender (resolveImport w dir ext rid ip).
Proof.
  unfold resolveImport.
  destruct ip as [[|c p]|]; try apply appender_ret.
  pose proof appender_fileExists. pose proof appender_probe.
  repeat appender_step.
Qed.

Lemma appender_forEach {A} (f : A -> M unit) l :
  (forall a, appender (f a)) -> appender (forEach f l).
Proof.
  intros Hf. induction l as [|x rest IH]; simpl.
  - apply appender_ret.
  - apply appender_bind; [apply Hf | intros _; exact IH].
Qed.

Lemma appender_parseDependenciesFromContent content filePath rid :
  appender (parseDependenciesFromContent w content filePath rid).
Proof.
  unfold parseDependenciesFromContent.
  apply appender_try_catch, appender_forEach.
  intros ip. apply appender_resolveImport.
Qed.

Lemma appender_processFile entry fullPath relativePath fileName :
  appender (processFile w entry fullPath relativePath fileName).
Proof.
  unfold processFile.
  pose proof appender_parseDependenciesFromContent.
  repeat appender_step.
Qed.

Lemma appender_scanDirectory d : forall dir, appender (scanDirectory w dir d).
Proof.
  induction d as [sz data | r | l es IH] using fs.node_rect'; intros dir.
  - apply appender_throw.
  - apply appender_throw.
  - destruct l; [| apply appender_throw].
    simpl. induction es as [|[entryName entry] rest IHrest].
    + apply appender_ret.
    + inversion IH as [|? ? Hentry Hrest]; subst. simpl in Hentry.
      apply appender_bind; [| intros _; apply IHrest; exact Hrest].
      pose proof appender_processFile.
      repeat appender_step.
Qed.

End AppenderScanner.

(** What a sequence appends to empty accumulators, part by part. *)
Lemma bind_blank {A B} (c : M A) (k : A -> M B) this :
  appender c -> (forall a, appender (k a)) ->
  bind c k (blank this) =
    match c (blank this) with
    | (Returned a, b) =>
        (fst (k a (blank this)), merge b (snd (k a (blank this))))
    | (Thrown e, b) => (Thrown e, b)
    end.
Proof.
  intros Hc Hk. unfold bind.
  pose proof (appender_blank_out this Hc) as Hb.
  destruct (c (blank this)) as [[a|e] b]; simpl in *; [|reflexivity].
  now rewrite (Hk a b), Hb.
Qed.

Lemma appender_config {A} (c : M A) this :
  appender c ->
  workspaceRoot (snd (c this)) = workspaceRoot this
  /\ ig (snd (c this)) = ig this
  /\ visitedFiles (snd (c this)) = visitedFiles this.
Proof. intros Hc. rewrite (Hc this). simpl. auto. Qed.

(** ** Rules for assertions *)

Lemma triple_ret {A} (a : A) (P : ProjectScanner -> Prop) Q E :
  (forall s, P s -> Q a s) -> triple P (ret a) Q E.
Proof. intros H s Hs. simpl. auto. Qed.

Lemma triple_bind {A B} (c : M A) (k : A -> M B) P Q1 Q E :
  triple P c Q1 E -> (forall a, triple (Q1 a) (k a) Q E) ->
  triple P (bind c k) Q E.
Proof.
  intros Hc Hk s Hs. unfold bind. specialize (Hc s Hs).
  destruct (c s) as [[a|e] s']; [apply (Hk a s' Hc) | exact Hc].
Qed.

Lemma triple_try_catch (c : M unit) P (Q : unit -> ProjectScanner -> Prop) E :
  triple P c Q (Q tt) -> triple P (try_catch c) Q E.
Proof.
  intros Hc s Hs. unfold try_catch. specialize (Hc s Hs).
  destruct (c s) as [[a|e] s']; exact Hc.
Qed.

Lemma triple_weaken {A} (c : M A) (P P' : ProjectScanner -> Prop) Q Q' E :
  triple P' c Q' E -> (forall s, P s -> P' s) ->
  (forall a s, Q' a s -> Q a s) -> triple P c Q E.
Proof.
  intros Hc HP HQ s Hs. specialize (Hc s (HP s Hs)).
  destruct (c s) as [[a|e] s']; auto.
Qed.

(** Assertions on the root and the two arrays of the graph. *)
Definition on_graph (root : string)
    (K : list types.Node -> list types.Link -> Prop) : ProjectScanner -> Prop :=
  fun s => workspaceRoot s = root /\ K (nodes s) (links s).

Section ResolveAssertions.

Variable w : fs.world.
Variable root : string.
Variable K : list types.Node -> list types.Link -> Prop.
Variable E : ProjectScanner -> Prop.

Lemma triple_fileExists p :
  triple (on_graph root K) (fileExists w p)
    (fun b s => on_graph root K s /\ b = fs.existsSync w (path.join root p)) E.
Proof.
  intros s [Hr HK]. unfold fileExists, bind, this_workspaceRoot, note_probe, ret.
  simpl. unfold on_graph; simpl. rewrite Hr. auto.
Qed.

Lemma triple_probe t exts :
  triple (on_graph root K) (probe w t exts) (fun _ => on_graph root K) E.
Proof.
  induction exts as [|e rest IH]; simpl.
  - apply triple_ret; auto.
  - eapply triple_bind; [apply triple_fileExists|].
    intros found. destruct found.
    + apply triple_ret. now intros s [Hs _].
    + eapply triple_weaken; [exact IH | now intros s [Hs _] | auto].
Qed.

Lemma startsWith_replaceDots c p :
  Js.startsWith (String c p) "." = false ->
  Js.startsWith (Js.replaceDots (String c p) ++ ".py") ".." = false.
Proof.
  cbn [Js.startsWith Js.replaceDots String.append].
  rewrite andb_true_r. intros Hc.
  rewrite (Ascii.eqb_sym c "."), Hc, Hc. reflexivity.
Qed.

Variable relativeId : string.
Hypothesis K_link :
  forall ns ls l,
    K ns ls -> emitted_link w root relativeId l -> K ns (ls ++ [l])%list.

Lemma triple_push_link l :
  emitted_link w root relativeId l ->
  triple (on_graph root K) (push_link l) (fun _ => on_graph root K) E.
Proof.
  intros Hl s [Hr HK]. unfold push_link, on_graph; simpl. auto.
Qed.

Lemma triple_resolveImport dir ext ip :
  triple (on_graph root K) (resolveImport w dir ext relativeId ip)
    (fun _ => on_graph root K) E.
Proof.
  unfold resolveImport.
  destruct ip as [[|c p]|]; try (apply triple_ret; auto).
  destruct (Js.startsWith (String c p) ".") eqn:Hrel.
  - eapply triple_bind with (Q1 := fun r s => on_graph root K s /\ r = root).
    { intros s [Hr HK]. simpl. unfold on_graph. auto. }
    intros r.
    eapply triple_bind with (Q1 := fun _ => on_graph root K).
    { eapply triple_weaken; [apply triple_fileExists| |]; simpl; tauto. }
    intros found.
    eapply triple_bind with (Q1 := fun _ => on_graph root K).
    { destruct found; cbn [negb]; [apply triple_ret; auto | apply triple_probe]. }
    intros t.
    destruct (Js.startsWith t "..") eqn:Hup; cbn [negb]; [apply triple_ret; auto|].
    eapply triple_bind; [apply triple_fileExists|].
    intros found'. destruct found'.
    + intros s [Hs Hex]. apply triple_push_link; [|exact Hs].
      repeat split; simpl; auto.
    + apply triple_ret; tauto.
  - destruct (String.eqb ext ".py"); [| apply triple_ret; auto].
    eapply triple_bind; [apply triple_fileExists|].
    intros found. destruct found.
    + intros s [Hs Hex]. apply triple_push_link; [|exact Hs].
      repeat split; simpl; auto.
      apply (startsWith_replaceDots c p Hrel).
    + apply triple_ret; tauto.
Qed.

Lemma triple_forEach {A} (f : A -> M unit) l (I : ProjectScanner -> Prop) :
  (forall a, triple I (f a) (fun _ => I) E) ->
  triple I (forEach f l) (fun _ => I) E.
Proof.
  intros Hf. induction l as [|x rest IH]; simpl.
  - apply triple_ret; auto.
  - eapply triple_bind; [apply Hf | intros u; exact IH].
Qed.

End ResolveAssertions.

Section ParseAssertions.

Variable w : fs.world.
Variable root : string.
Variable K : list types.Node -> list types.Link -> Prop.
Variable relativeId : string.
Hypothesis K_link :
  forall ns ls l,
    K ns ls -> emitted_link w root relativeId l -> K ns (ls ++ [l])%list.

Lemma triple_parseDependenciesFromContent content filePath :
  triple (on_graph root K)
    (parseDependenciesFromContent w content filePath relativeId)
    (fun _ => on_graph root K) (fun _ => False).
Proof.
  unfold parseDependenciesFromContent.
  apply triple_try_catch. apply triple_forEach.
  intros ip. now apply triple_resolveImport.
Qed.

End ParseAssertions.

(** ** What one file contributes *)

Section FileContribution.

Variable w : fs.world.
Variable root : string.
Variable ignores : string -> bool.

Let E := emptyScanner root ignores.

Lemma parseDependenciesFromContent_returns content filePath rid this :
  fst (parseDependenciesFromContent w content filePath rid this) = Returned tt.
Proof.
  unfold parseDependenciesFromContent, try_catch.
  match goal with |- context [forEach ?f ?l this] =>
    destruct (forEach f l this) as [[[]|e] s'] end; reflexivity.
Qed.

Lemma parseDependenciesFromContent_nodes content filePath rid this :
  nodes (snd (parseDependenciesFromContent w content filePath rid this))
  = nodes this.
Proof.
  pose proof (@triple_parseDependenciesFromContent w (workspaceRoot this)
                (fun ns _ => ns = nodes this) rid
                (fun ns ls l H _ => H) content filePath this) as H.
  pose proof (parseDependenciesFromContent_returns content filePath rid this) as R.
  destruct (parseDependenciesFromContent w content filePath rid this)
    as [[[]|e] s']; simpl in *; [| discriminate].
  apply H. split; reflexivity.
Qed.

(** Every Link that [parseDependenciesFromContent] emits names the
    parsed file as its source and an existing path that does not
    start with two dots as its target. *)
Lemma parseDependenciesFromContent_links content filePath rid :
  Forall (emitted_link w root rid)
    (links (snd (parseDependenciesFromContent w content filePath rid E))).
Proof.
  pose proof (@triple_parseDependenciesFromContent w root
                (fun _ ls => Forall (emitted_link w root rid) ls) rid) as H.
  specialize (H (fun ns ls l Hls Hl =>
                   proj2 (Forall_app _ ls [l]) (conj Hls (Forall_cons l Hl (Forall_nil _))))).
  specialize (H content filePath E).
  pose proof (parseDependenciesFromContent_returns content filePath rid E) as R.
  destruct (parseDependenciesFromContent w content filePath rid E)
    as [[[]|e] s']; simpl in *; [| discriminate].
  apply H. split; [reflexivity | constructor].
Qed.

Lemma linksOf_emitted c :
  Forall (emitted_link w root (c_relativePath c)) (linksOf w root ignores c).
Proof. apply parseDependenciesFromContent_links. Qed.

(** [processFile] never throws; it appends the Node of a readable
    file and the Links of its content, and nothing for a file whose
    [stat] or [readFile] fails. *)
Lemma processFile_blank entry fullPath relativePath fileName :
  let c := {| c_fullPath := fullPath; c_relativePath := relativePath;
              c_name := fileName; c_entry := entry |} in
  fst (processFile w entry fullPath relativePath fileName E) = Returned tt
  /\ nodes (snd (processFile w entry fullPath relativePath fileName E))
     = (if readable c then [nodeOf c] else [])
  /\ links (snd (processFile w entry fullPath relativePath fileName E))
     = (if readable c then linksOf w root ignores c else []).
Proof.
  intros c. unfold readable, linksOf, nodeOf, contentOf.
  subst c. cbn [c_entry c_fullPath c_relativePath c_name].
  unfold processFile.
  destruct (fs.stat entry) as [sz|]; [| simpl; auto].
  destruct (fs.readFile entry) as [content|]; [| simpl; auto].
  cbv beta iota delta [bind await ret push_node try_catch].
  match goal with |- context [parseDependenciesFromContent w ?ct ?fp ?r ?s] =>
    set (s1 := s) end.
  pose proof (appender_parseDependenciesFromContent w content fullPath
                relativePath s1) as Happ.
  pose proof (parseDependenciesFromContent_returns content fullPath
                relativePath (blank s1)) as Hret.
  pose proof (parseDependenciesFromContent_nodes content fullPath
                relativePath (blank s1)) as Hnodes.
  change (blank s1) with E in *.
  rewrite Happ. rewrite Hret. cbn [fst snd merge nodes links s1].
  rewrite Hnodes. cbn [E emptyScanner nodes links app].
  auto.
Qed.

End FileContribution.

(** ** What a walk contributes *)

Lemma scanDirectory_cons w dir entryName entry rest :
  scanDirectory w dir (fs.Dir true ((entryName, entry) :: rest))
  = bind (scanEntry w dir entryName entry)
         (fun _ => scanDirectory w dir (fs.Dir true rest)).
Proof. reflexivity. Qed.

Lemma reached_cons w root ignores dir l entryName entry rest :
  reached w root ignores dir (fs.Dir l ((entryName, entry) :: rest))
  = (reachedEntry w root ignores dir entryName entry
     ++ reached w root ignores dir (fs.Dir l rest))%list.
Proof. reflexivity. Qed.

Lemma listable_cons w root ignores dir entryName entry rest :
  listable w root ignores dir (fs.Dir true ((entryName, entry) :: rest))
  = listableEntry w root ignores dir entryName entry
    && listable w root ignores dir (fs.Dir true rest).
Proof. reflexivity. Qed.

Lemma appender_scanEntry w dir entryName entry :
  appender (scanEntry w dir entryName entry).
Proof.
  unfold scanEntry.
  pose proof (appender_scanDirectory w entry).
  pose proof (appender_processFile w).
  repeat appender_step.
Qed.

Section WalkContribution.

Variable w : fs.world.
Variable root : string.
Variable ignores : string -> bool.

Let E := emptyScanner root ignores.

Lemma walk_ok_ret : walk_ok w root ignores (ret tt) true [].
Proof. unfold walk_ok; simpl; auto. Qed.

Lemma walk_ok_seq c1 c2 ok1 ok2 cs1 cs2 :
  appender c1 -> appender c2 ->
  walk_ok w root ignores c1 ok1 cs1 ->
  walk_ok w root ignores c2 ok2 cs2 ->
  walk_ok w root ignores (bind c1 (fun _ => c2)) (ok1 && ok2) (cs1 ++ cs2)%list.
Proof.
  intros A1 A2 H1 H2. unfold walk_ok in *.
  change (emptyScanner root ignores) with (blank E) in H1, H2 |- *.
  rewrite (bind_blank (fun _ => c2) E A1 (fun _ => A2)).
  destruct (c1 (blank E)) as [[[]|e1] b1] eqn:R1; simpl in H1.
  - destruct ok1; [| destruct H1 as [e He]; discriminate].
    destruct H1 as (_ & N1 & L1). cbn [andb fst snd].
    destruct ok2.
    + destruct H2 as (R2 & N2 & L2).
      rewrite filter_app, map_app, flat_map_app.
      cbn [merge nodes links]. rewrite N1, N2, L1, L2. auto.
    + exact H2.
  - destruct ok1; [destruct H1 as (H1 & _); discriminate|].
    cbn [andb fst]. eauto.
Qed.

Lemma walk_ok_processFile entry fullPath relativePath fileName :
  isCodeFile fileName = true ->
  walk_ok w root ignores
    (processFile w entry fullPath relativePath fileName) true
    [{| c_fullPath := fullPath; c_relativePath := relativePath;
        c_name := fileName; c_entry := entry |}].
Proof.
  intros Hcode. unfold walk_ok.
  destruct (processFile_blank w root ignores entry fullPath relativePath fileName)
    as (R & N & L).
  split; [exact R|]. rewrite N, L.
  cbn [filter]. unfold accepted. cbn [c_name]. rewrite Hcode.
  cbn [andb].
  match goal with |- context [readable ?c] => destruct (readable c) end;
    cbn [map flat_map]; rewrite ?app_nil_r; auto.
Qed.

Lemma walk_ok_scanEntry dir entryName entry :
  (forall dir',
      walk_ok w root ignores (scanDirectory w dir' entry)
        (listable w root ignores dir' entry)
        (reached w root ignores dir' entry)) ->
  walk_ok w root ignores (scanEntry w dir entryName entry)
    (listableEntry w root ignores dir entryName entry)
    (reachedEntry w root ignores dir entryName entry).
Proof.
  intros IH.
  assert (Hrun : scanEntry w dir entryName entry E =
    (let fullPath := path.join dir entryName in
     let relativePath := path.relative (fs.cwd w) root fullPath in
     if skipped ignores entryName relativePath then ret tt
     else if fs.isDirectory entry then scanDirectory w fullPath entry
     else if fs.isFile entry then
       (if isCodeFile entryName
        then processFile w entry fullPath relativePath entryName
        else ret tt)
     else ret tt) E) by reflexivity.
  unfold walk_ok. fold E. rewrite Hrun. clear Hrun.
  unfold listableEntry, reachedEntry. cbv zeta.
  destruct (skipped ignores entryName _); [apply walk_ok_ret|].
  destruct (fs.isDirectory entry); [apply IH|].
  destruct (fs.isFile entry); [| apply walk_ok_ret].
  destruct (isCodeFile entryName) eqn:Hcode.
  - now apply walk_ok_processFile.
  - cbn [filter]. unfold accepted. cbn [c_name]. rewrite Hcode.
    apply walk_ok_ret.
Qed.

(** The walk from [dir] returns exactly when every directory it
    enters can be listed; it has then appended one Node for every
    accepted file it reached, in order, and the Links of each. *)
Lemma walk_ok_scanDirectory d :
  forall dir,
    walk_ok w root ignores (scanDirectory w dir d)
      (listable w root ignores dir d) (reached w root ignores dir d).
Proof.
  induction d as [sz data | r | l es IH] using fs.node_rect'; intros dir.
  - simpl. unfold walk_ok. simpl. eauto.
  - simpl. unfold walk_ok. simpl. eauto.
  - destruct l; [| unfold walk_ok; simpl; eauto].
    induction es as [|[entryName entry] rest IHrest].
    + apply walk_ok_ret.
    + inversion IH as [|? ? Hentry Hrest]; subst. simpl in Hentry.
      rewrite scanDirectory_cons, reached_cons, listable_cons.
      apply walk_ok_seq.
      * apply appender_scanEntry.
      * apply appender_scanDirectory.
      * apply walk_ok_scanEntry. exact Hentry.
      * apply IHrest. exact Hrest.
Qed.

End WalkContribution.

(** ** What a scan returns *)

Lemma appender_scanWorkspace w : appender (scanWorkspace w).
Proof.
  unfold scanWorkspace. pose proof (appender_scanDirectory w).
  repeat appender_step.
Qed.

(** A scan is its walk run on empty accumulators: the outcome depends
    on the root and the ignore rules of the scanner only. *)
Lemma scan_from_blank w this :
  let E := emptyScanner (workspaceRoot this) (ig this) in
  let b := snd (scanWorkspace w E) in
  scan w this =
    (match fst (scanWorkspace w E) with
     | Returned _ => Returned {| types.nodes := nodes b; types.links := links b |}
     | Thrown e => Thrown e
     end,
     merge (snd (reset this)) b).
Proof.
  intros E b. unfold scan. unfold bind at 1. cbn [reset].
  set (s0 := {| workspaceRoot := workspaceRoot this; visitedFiles := [];
               nodes := []; links := []; ig := ig this; probed := probed this |}).
  unfold bind. rewrite (appender_scanWorkspace w s0).
  change (blank s0) with E. fold b.
  destruct (fst (scanWorkspace w E)); reflexivity.
Qed.

Lemma scanWorkspace_blank w root ignores :
  let E := emptyScanner root ignores in
  scanWorkspace w E =
    match fs.opendir w root with
    | Some d => scanDirectory w root d E
    | None => (Thrown {| syscall := "scandir"; errpath := root |}, E)
    end.
Proof.
  intros E. unfold scanWorkspace.
  cbv beta iota delta [bind this_workspaceRoot E emptyScanner workspaceRoot].
  destruct (fs.opendir w root); reflexivity.
Qed.

(** The scan resolves exactly when the root names a directory and
    every directory the walk enters can be listed, and then to the graph
    of the walk. *)
Lemma scan_returns w this d :
  fs.opendir w (workspaceRoot this) = Some d ->
  listable w (workspaceRoot this) (ig this) (workspaceRoot this) d = true ->
  fst (scan w this) = Returned (graphOf w (workspaceRoot this) (ig this) d).
Proof.
  intros Hd Hl. rewrite scan_from_blank. cbn [fst].
  rewrite scanWorkspace_blank, Hd.
  pose proof (walk_ok_scanDirectory w (workspaceRoot this) (ig this) d
                (workspaceRoot this)) as H.
  unfold walk_ok in H. rewrite Hl in H. destruct H as (R & N & L).
  rewrite R, N, L. reflexivity.
Qed.

Lemma scan_throws_unlistable w this d :
  fs.opendir w (workspaceRoot this) = Some d ->
  listable w (workspaceRoot this) (ig this) (workspaceRoot this) d = false ->
  exists e, fst (scan w this) = Thrown e.
Proof.
  intros Hd Hl. rewrite scan_from_blank. cbn [fst].
  rewrite scanWorkspace_blank, Hd.
  pose proof (walk_ok_scanDirectory w (workspaceRoot this) (ig this) d
                (workspaceRoot this)) as H.
  unfold walk_ok in H. rewrite Hl in H. destruct H as [e He].
  rewrite He. eauto.
Qed.

Lemma scan_throws_no_root w this :
  fs.opendir w (workspaceRoot this) = None ->
  fst (scan w this)
  = Thrown {| syscall := "scandir"; errpath := workspaceRoot this |}.
Proof.
  intros Hd. rewrite scan_from_blank. cbn [fst].
  rewrite scanWorkspace_blank, Hd. reflexivity.
Qed.

Lemma scan_returned_inv w this g s' :
  scan w this = (Returned g, s') ->
  exists d,
    fs.opendir w (workspaceRoot this) = Some d
    /\ listable w (workspaceRoot this) (ig this) (workspaceRoot this) d = true
    /\ g = graphOf w (workspaceRoot this) (ig this) d.
Proof.
  intros H. apply (f_equal fst) in H. cbn [fst] in H.
  destruct (fs.opendir w (workspaceRoot this)) as [d|] eqn:Hd.
  - exists d. split; [reflexivity|].
    destruct (listable w (workspaceRoot this) (ig this) (workspaceRoot this) d)
      eqn:Hl.
    + split; [reflexivity|].
      rewrite (scan_returns w this Hd Hl) in H. congruence.
    + destruct (scan_throws_unlistable w this Hd Hl) as [e He]. congruence.
  - rewrite (scan_throws_no_root w this Hd) in H. discriminate.
Qed.

Lemma scan_config w this :
  workspaceRoot (snd (scan w this)) = workspaceRoot this
  /\ ig (snd (scan w this)) = ig this.
Proof. rewrite scan_from_blank. cbn. auto. Qed.

(** ** Links of a graph *)

Lemma graphOf_link_inv w root ignores d l :
  In l (types.links (graphOf w root ignores d)) ->
  exists c,
    In c (reached w root ignores root d)
    /\ accepted c = true
    /\ emitted_link w root (c_relativePath c) l.
Proof.
  unfold graphOf. cbn [types.links]. intros H.
  apply in_flat_map in H. destruct H as (c & Hc & Hl).
  apply filter_In in Hc. destruct Hc as [Hin Hacc].
  exists c. repeat split; auto.
  - pose proof (linksOf_emitted w root ignores c) as HF.
    rewrite Forall_forall in HF. apply (HF l Hl).
  - pose proof (linksOf_emitted w root ignores c) as HF.
    rewrite Forall_forall in HF. apply (HF l Hl).
  - pose proof (linksOf_emitted w root ignores c) as HF.
    rewrite Forall_forall in HF. apply (HF l Hl).
Qed.

Lemma graphOf_node_inv w root ignores d n :
  In n (types.nodes (graphOf w root ignores d)) ->
  exists c,
    In c (reached w root ignores root d)
    /\ accepted c = true
    /\ n = nodeOf c.
Proof.
  unfold graphOf. cbn [types.nodes]. intros H.
  apply in_map_iff in H. destruct H as (c & Hn & Hc).
  apply filter_In in Hc. destruct Hc as [Hin Hacc].
  exists c. auto.
Qed.

(** ** Imports that are not edges *)

Lemma startsWith_append t e p :
  Js.startsWith t p = true -> Js.startsWith (t ++ e) p = true.
Proof.
  revert t. induction p as [|a p IH]; intros t H; [reflexivity|].
  destruct t as [|b t]; [discriminate|].
  cbn [Js.startsWith String.append] in *.
  apply andb_true_iff in H. destruct H as [Hab Ht].
  rewrite Hab. cbn [andb]. now apply IH.
Qed.

Section Escaping.

Variable w : fs.world.
Variable root : string.
Variable K : list types.Node -> list types.Link -> Prop.
Variable E : ProjectScanner -> Prop.

(** Probing a path that leaves the root yields a path that leaves
    the root. *)
Lemma triple_probe_escaping t exts :
  Js.startsWith t ".." = true ->
  triple (on_graph root K) (probe w t exts)
    (fun t' s => on_graph root K s /\ Js.startsWith t' ".." = true) E.
Proof.
  intros Ht. induction exts as [|e rest IH]; cbn [probe].
  - apply triple_ret; auto.
  - eapply triple_bind; [apply triple_fileExists|].
    intros found. destruct found.
    + apply triple_ret. intros s [Hs _]. split; [exact Hs|].
      now apply startsWith_append.
    + eapply triple_weaken; [exact IH | now intros s [Hs _] | auto].
Qed.

Lemma triple_resolveImport_escaping dir ext rid c p :
  Js.startsWith (String c p) "." = true ->
  Js.startsWith
    (path.relative (fs.cwd w) root (path.resolve (fs.cwd w) [dir; String c p]))
    ".." = true ->
  triple (on_graph root K) (resolveImport w dir ext rid (Some (String c p)))
    (fun _ => on_graph root K) E.
Proof.
  intros Hrel Hup. unfold resolveImport. rewrite Hrel.
  eapply triple_bind with (Q1 := fun r s => on_graph root K s /\ r = root).
  { intros s [Hr HK]. simpl. unfold on_graph. auto. }
  intros r.
  eapply triple_bind with (Q1 := fun _ s => on_graph root K s /\ r = root).
  { intros s [Hs Hr]. pose proof (@triple_fileExists w root K E
      (path.relative (fs.cwd w) r (path.resolve (fs.cwd w) [dir; String c p])) s Hs) as H.
    destruct (fileExists w _ s) as [[b|e] s1]; tauto. }
  intros found.
  eapply triple_bind
    with (Q1 := fun t' s => on_graph root K s /\ Js.startsWith t' ".." = true).
  { destruct found; cbn [negb].
    - intros s [Hs Hr]. subst r. cbn [ret]. auto.
    - intros s [Hs Hr]. subst r. now apply triple_probe_escaping. }
  intros t'. intros s [Hs Ht']. rewrite Ht'. cbn [negb ret]. exact Hs.
Qed.

End Escaping.

(** A relative import whose path leaves the root appends no Link. *)
Lemma resolveImport_escaping w dir ext rid c p this :
  Js.startsWith (String c p) "." = true ->
  Js.startsWith
    (path.relative (fs.cwd w) (workspaceRoot this)
       (path.resolve (fs.cwd w) [dir; String c p])) ".." = true ->
  fst (resolveImport w dir ext rid (Some (String c p)) this) = Returned tt
  /\ links (snd (resolveImport w dir ext rid (Some (String c p)) this))
     = links this.
Proof.
  intros Hrel Hup.
  pose proof (@triple_resolveImport_escaping w (workspaceRoot this)
                (fun _ ls => ls = links this) (fun _ => False)
                dir ext rid c p Hrel Hup this) as H.
  destruct (resolveImport w dir ext rid (Some (String c p)) this) as [[[]|e] s'].
  - split; [reflexivity|]. apply H. split; reflexivity.
  - exfalso. apply H. split; reflexivity.
Qed.

(** An import that is not relative, in a file that is not Python,
    leaves the scanner as it was: no Link and no call of
    [fileExists]. *)
Lemma resolveImport_bare w dir ext rid c p this :
  ext <> ".py" ->
  Js.startsWith (String c p) "." = false ->
  resolveImport w dir ext rid (Some (String c p)) this = (Returned tt, this).
Proof.
  intros Hext Hrel. unfold resolveImport. rewrite Hrel.
  destruct (String.eqb_spec ext ".py") as [Heq|_]; [contradiction|].
  reflexivity.
Qed.

(** In a Python file the same import is looked up as a module file
    below the root. *)
Lemma resolveImport_python w dir rid c p this :
  Js.startsWith (String c p) "." = false ->
  let possiblePyFile := Js.replaceDots (String c p) ++ ".py" in
  resolveImport w dir ".py" rid (Some (String c p)) this =
    (Returned tt,
     {| workspaceRoot := workspaceRoot this;
        visitedFiles := visitedFiles this;
        nodes := nodes this;
        links :=
          (links this ++
             if fs.existsSync w (path.join (workspaceRoot this) possiblePyFile)
             then [{| types.source := rid; types.target := possiblePyFile |}]
             else [])%list;
        ig := ig this;
        probed := (probed this ++ [possiblePyFile])%list |}).
Proof.
  intros Hrel possiblePyFile. unfold resolveImport. rewrite Hrel.
  cbn [String.eqb Ascii.eqb Bool.eqb].
  fold possiblePyFile.
  cbv beta iota delta [bind fileExists this_workspaceRoot note_probe ret].
  cbn [workspaceRoot visitedFiles nodes links ig probed].
  destruct (fs.existsSync w (path.join (workspaceRoot this) possiblePyFile)).
  - reflexivity.
  - cbn [ret]. now rewrite app_nil_r.
Qed.

(** ** The order of the candidates *)

Lemma fileExists_run w p this :
  fileExists w p this
  = (Returned (fs.existsSync w (path.join (workspaceRoot this) p)),
     snd (note_probe p this)).
Proof. reflexivity. Qed.

(** When no candidate exists, all are probed in the order of the list
    and the path is left as it was. *)
Lemma probe_none w t exts : forall this,
  (forall x, In x exts ->
     fs.existsSync w (path.join (workspaceRoot this) (t ++ x)) = false) ->
  fst (probe w t exts this) = Returned t
  /\ probed (snd (probe w t exts this))
     = (probed this ++ map (String.append t) exts)%list
  /\ links (snd (probe w t exts this)) = links this.
Proof.
  induction exts as [|x rest IH]; intros this Hall; cbn [probe map].
  - cbn. now rewrite app_nil_r.
  - unfold bind. rewrite fileExists_run, (Hall x (or_introl eq_refl)).
    destruct (IH (snd (note_probe (t ++ x) this))) as (R & P & L).
    { intros y Hy. apply Hall. now right. }
    rewrite R, P, L. cbn [note_probe snd probed links].
    now rewrite <- app_assoc.
Qed.

(** The first candidate that exists is taken, and none after it is
    probed. *)
Lemma probe_first_existing w t pre e post : forall this,
  (forall x, In x pre ->
     fs.existsSync w (path.join (workspaceRoot this) (t ++ x)) = false) ->
  fs.existsSync w (path.join (workspaceRoot this) (t ++ e)) = true ->
  fst (probe w t (pre ++ e :: post) this) = Returned (t ++ e)
  /\ probed (snd (probe w t (pre ++ e :: post) this))
     = (probed this ++ map (String.append t) (pre ++ [e]))%list.
Proof.
  induction pre as [|x pre IH]; intros this Hall He; cbn [probe app map].
  - unfold bind. rewrite fileExists_run, He. cbn. auto.
  - unfold bind. rewrite fileExists_run, (Hall x (or_introl eq_refl)).
    destruct (IH (snd (note_probe (t ++ x) this))) as (R & P).
    { intros y Hy. apply Hall. now right. }
    { exact He. }
    rewrite R, P. cbn [note_probe snd probed].
    now rewrite <- app_assoc.
Qed.

Example constructor_without_gitignore :
  new_ProjectScanner Sample.mixed (fun _ _ => false) "/w" = Some Sample.scanner.
Proof. vm_compute. reflexivity. Qed.

(** ** The matcher against its relational reading *)

Section MatcherSound.

Variable R : Type.

Lemma lit_sound l : forall s st (k : cont R) x,
  lit l s st k = Some x ->
  exists s', s = l ++ s' /\ k s' (consume l st) = Some x.
Proof.
  induction l as [|a l IH]; intros s st k x H; cbn [lit] in H.
  - exists s. auto.
  - destruct s as [|c s]; [discriminate|].
    destruct (Ascii.eqb_spec a c) as [->|_]; [|discriminate].
    destruct (IH _ _ _ _ H) as (s' & -> & Hk).
    exists s'. auto.
Qed.

Lemma lazyMany_sound p s : forall st (k : cont R) x,
  lazyMany p s st k = Some x ->
  exists t s', s = t ++ s' /\ allChars p t = true
               /\ k s' (consume t st) = Some x.
Proof.
  induction s as [|c s IH]; intros st k x H; cbn [lazyMany] in H.
  - destruct (k "" st) eqn:Hk; [|discriminate].
    exists "", "". injection H as ->. auto.
  - destruct (k (String c s) st) eqn:Hk.
    + injection H as ->. exists "", (String c s). auto.
    + destruct (p c) eqn:Hp; [|discriminate].
      destruct (IH _ _ _ H) as (t & s' & -> & Ht & Hk').
      exists (String c t), s'. cbn [allChars consume String.append].
      rewrite Hp. auto.
Qed.

Lemma greedyMany_sound p s : forall st (k : cont R) x,
  greedyMany p s st k = Some x ->
  exists t s', s = t ++ s' /\ allChars p t = true
               /\ k s' (consume t st) = Some x.
Proof.
  induction s as [|c s IH]; intros st k x H; cbn [greedyMany] in H.
  - exists "", "". auto.
  - destruct (p c) eqn:Hp.
    + destruct (greedyMany p s (step c st) k) eqn:Hg.
      * injection H as ->.
        destruct (IH _ _ _ Hg) as (t & s' & -> & Ht & Hk').
        exists (String c t), s'. cbn [allChars consume String.append].
        rewrite Hp. auto.
      * exists "", (String c s). auto.
    + exists "", (String c s). auto.
Qed.

Lemma run_sound r : forall s st (k : cont R) x,
  run r s st k = Some x ->
  exists s' st', Match r s st s' st' /\ k s' st' = Some x.
Proof.
  induction r as [l | p | lz p | r1 IH1 r2 IH2 | r1 IH1 r2 IH2 | n r1 IH1 | ];
    intros s st k x H; cbn [run] in H.
  - destruct (lit_sound _ _ _ _ H) as (s' & -> & Hk).
    eexists _, _. split; [apply M_Lit | exact Hk].
  - destruct s as [|c s]; [discriminate|].
    destruct (p c) eqn:Hp; [|discriminate].
    eexists _, _. split; [apply M_Class; exact Hp | exact H].
  - destruct lz.
    + destruct (lazyMany_sound _ _ _ _ H) as (t & s' & -> & Ht & Hk).
      eexists _, _. split; [apply M_Many; exact Ht | exact Hk].
    + destruct (greedyMany_sound _ _ _ _ H) as (t & s' & -> & Ht & Hk).
      eexists _, _. split; [apply M_Many; exact Ht | exact Hk].
  - destruct (IH1 _ _ _ _ H) as (s1 & st1 & M1 & H1).
    destruct (IH2 _ _ _ _ H1) as (s2 & st2 & M2 & H2).
    eexists _, _. split; [eapply M_Cat; eassumption | exact H2].
  - destruct (run r1 s st k) eqn:H1.
    + injection H as ->.
      destruct (IH1 _ _ _ _ H1) as (s' & st' & M1 & Hk).
      eexists _, _. split; [apply M_AltL; eassumption | exact Hk].
    + destruct (IH2 _ _ _ _ H) as (s' & st' & M2 & Hk).
      eexists _, _. split; [apply M_AltR; eassumption | exact Hk].
  - destruct (IH1 _ _ _ _ H) as (s' & st' & M1 & Hk).
    eexists _, _. split; [apply M_Group; eassumption | exact Hk].
  - exists s, st. split; [| destruct (before st) as [c|];
                             [destruct (isLineTerminator c)|]; congruence].
    apply M_LineStart.
    destruct (before st) as [c|]; [|exact I].
    destruct (isLineTerminator c); [reflexivity | discriminate].
Qed.

End MatcherSound.

Lemma index_consume t : forall st,
  index (consume t st) = index st + String.length t.
Proof.
  induction t as [|c t IH]; intros st; cbn [consume String.length].
  - lia.
  - rewrite IH. cbn [step index]. lia.
Qed.

Lemma captures_consume t : forall st, captures (consume t st) = captures st.
Proof.
  induction t as [|c t IH]; intros st; cbn [consume]; [reflexivity|].
  now rewrite IH.
Qed.

Lemma append_assoc (a b c : string) : (a ++ b) ++ c = a ++ (b ++ c).
Proof. induction a as [|x a IH]; cbn [String.append]; [reflexivity | now rewrite IH]. Qed.

Lemma length_append (a b : string) :
  String.length (a ++ b) = String.length a + String.length b.
Proof. induction a as [|x a IH]; cbn [String.append String.length]; [reflexivity | now rewrite IH]. Qed.

(** A match consumes a prefix of its input, of at least [minLen]
    characters, and counts it. *)
Lemma Match_consumes r s st s' st' :
  Match r s st s' st' ->
  exists t, s = t ++ s'
            /\ index st' = index st + String.length t
            /\ minLen r <= String.length t.
Proof.
  induction 1 as [l s st | p c s st Hp | lz p t s st Ht
                 | r1 r2 s st s1 st1 s2 st2 _ IH1 _ IH2
                 | r1 r2 s st s' st' _ IH | r1 r2 s st s' st' _ IH
                 | n r s st s' st' _ IH | s st Hb]; cbn [minLen].
  - exists l. rewrite index_consume. auto.
  - exists (String c ""). cbn. split; [reflexivity|]. split; lia.
  - exists t. rewrite index_consume. split; [reflexivity|]. split; lia.
  - destruct IH1 as (t1 & -> & I1 & L1). destruct IH2 as (t2 & -> & I2 & L2).
    exists (t1 ++ t2). rewrite append_assoc, length_append.
    split; [reflexivity|]. split; lia.
  - destruct IH as (t & -> & I1 & L1). exists t.
    split; [reflexivity|]. split; lia.
  - destruct IH as (t & -> & I1 & L1). exists t.
    split; [reflexivity|]. split; lia.
  - destruct IH as (t & -> & I1 & L1). exists t. cbn [capture index]. auto.
  - exists "". cbn. split; [reflexivity|]. split; lia.
Qed.

(** Every capture of the final state was there before or was made by
    a group of the expression, from a match of the body of the group. *)
Lemma Match_captures r s st s' st' :
  Match r s st s' st' ->
  forall n v, In (n, v) (captures st') ->
    In (n, v) (captures st)
    \/ exists r1 s1 st1 s2 st2,
         In (n, r1) (groupsOf r)
         /\ Match r1 s1 st1 s2 st2
         /\ v = substring 0 (index st2 - index st1) s1.
Proof.
  induction 1 as [l s st | p c s st Hp | lz p t s st Ht
                 | r1 r2 s st s1 st1 s2 st2 _ IH1 _ IH2
                 | r1 r2 s st s' st' _ IH | r1 r2 s st s' st' _ IH
                 | n r s st s' st' HM IH | s st Hb];
    intros m v Hin; cbn [groupsOf].
  - rewrite captures_consume in Hin. auto.
  - cbn [step captures] in Hin. auto.
  - rewrite captures_consume in Hin. auto.
  - destruct (IH2 _ _ Hin) as [Hin1 | (r' & a & b & c' & d & Hg & HM & Hv)].
    + destruct (IH1 _ _ Hin1) as [Hin0 | (r' & a & b & c' & d & Hg & HM & Hv)];
        [auto|].
      right. exists r', a, b, c', d. split; [apply in_or_app; auto | auto].
    + right. exists r', a, b, c', d. split; [apply in_or_app; auto | auto].
  - destruct (IH _ _ Hin) as [Hin0 | (r' & a & b & c' & d & Hg & HM & Hv)];
      [auto|].
    right. exists r', a, b, c', d. split; [apply in_or_app; auto | auto].
  - destruct (IH _ _ Hin) as [Hin0 | (r' & a & b & c' & d & Hg & HM & Hv)];
      [auto|].
    right. exists r', a, b, c', d. split; [apply in_or_app; auto | auto].
  - cbn [capture captures] in Hin. destruct Hin as [Heq | Hin].
    + injection Heq as <- <-. right.
      exists r, s, st, s', st'. split; [now left | auto].
    + destruct (IH _ _ Hin) as [Hin0 | (r' & a & b & c' & d & Hg & HM' & Hv)];
        [auto|].
      right. exists r', a, b, c', d. split; [now right | auto].
  - auto.
Qed.

Lemma matchAt_sound r prev s m :
  matchAt r prev s = Some m ->
  exists s' st',
    Match r s {| before := prev; index := 0; captures := [] |} s' st'
    /\ m = (index st', captures st').
Proof.
  unfold matchAt. intros H. apply run_sound in H.
  destruct H as (s' & st' & HM & Hk). exists s', st'.
  split; [exact HM | congruence].
Qed.

(** No expression of the scanner matches the empty string, so every
    match moves [lastIndex] forward. *)
Lemma matchAt_nonempty r prev s m :
  matchAt r prev s = Some m -> minLen r <= fst m.
Proof.
  intros H. destruct (matchAt_sound _ _ _ H) as (s' & st' & HM & ->).
  destruct (Match_consumes HM) as (t & _ & Hi & Hl). cbn [fst index] in *. lia.
Qed.

Lemma scanner_expressions_consume :
  1 <= minLen ecmaImport /\ 1 <= minLen cssImport /\ 1 <= minLen pyImport.
Proof. cbn. lia. Qed.

Lemma execAll_matchAt r s : forall prev skip m,
  In m (execAll r prev s skip) ->
  exists prev' s', matchAt r prev' s' = Some m.
Proof.
  induction s as [|c s IH]; intros prev skip m Hin.
  - destruct skip; cbn [execAll] in Hin; [|contradiction].
    destruct (matchAt r prev "") eqn:Hm; [|contradiction].
    destruct Hin as [<-|[]]. eauto.
  - destruct skip; cbn [execAll] in Hin.
    + destruct (matchAt r prev (String c s)) eqn:Hm.
      * destruct Hin as [<-|Hin]; [eauto | eapply IH; eassumption].
      * eapply IH; eassumption.
    + eapply IH; eassumption.
Qed.

(** *** What the Python expression captures *)

Lemma substring_prefix (a b : string) :
  substring 0 (String.length a) (a ++ b) = a.
Proof.
  induction a as [|c a IH]; cbn [String.length String.append substring].
  - destruct b; reflexivity.
  - now rewrite IH.
Qed.

Lemma allChars_append p a b :
  allChars p (a ++ b) = allChars p a && allChars p b.
Proof.
  induction a as [|c a IH]; cbn [allChars String.append]; [reflexivity|].
  now rewrite IH, andb_assoc.
Qed.

Lemma Match_Plus_capture p s1 st1 s2 st2 :
  Match (Plus p) s1 st1 s2 st2 ->
  exists c t,
    substring 0 (index st2 - index st1) s1 = String c t
    /\ allChars p (String c t) = true.
Proof.
  unfold Plus. intros H.
  inversion H as [| | | r1 r2 s st sa sta sb stb H1 H2 | | | |]; subst.
  inversion H1 as [|p' c s' st' Hp| | | | | |]; subst.
  inversion H2 as [| |lz p' t s' st' Ht| | | | |]; subst.
  exists c, t. split.
  - rewrite index_consume. cbn [step index].
    replace (S (index st1) + String.length t - index st1)
      with (String.length (String c t)) by (cbn [String.length]; lia).
    change (String c (t ++ s2)) with (String c t ++ s2).
    apply substring_prefix.
  - cbn [allChars]. now rewrite Hp, Ht.
Qed.

Lemma group_In m n v : group m n = Some v -> In (n, v) (snd m).
Proof.
  unfold group. intros H.
  destruct (find _ (snd m)) as [[n' v']|] eqn:Hf; [|discriminate].
  injection H as <-. apply find_some in Hf. destruct Hf as [Hin Heq].
  cbn [fst] in Heq. apply Nat.eqb_eq in Heq. now subst n'.
Qed.

Lemma or_Some a b p : Js.or a b = Some p -> a = Some p \/ b = Some p.
Proof. unfold Js.or. destruct (Js.truthy a); auto. Qed.

(** Every import path taken from a Python file is a non-empty run of
    word characters. *)
Lemma python_import_paths_are_words content p :
  In (Some p) (importPaths ".py" content) ->
  exists c t, p = String c t /\ allChars word (String c t) = true.
Proof.
  intros H.
  change (importPaths ".py" content)
    with (map (fun m => Js.or (group m 1) (group m 2))
              (matches pyImport content)) in H.
  apply in_map_iff in H. destruct H as (m & Hor & Hm).
  apply execAll_matchAt in Hm. destruct Hm as (prev' & s' & Hm).
  apply matchAt_sound in Hm. destruct Hm as (s2 & st2 & HM & ->).
  assert (Hcap : exists n, In (n, p) (captures st2)).
  { apply or_Some in Hor. destruct Hor as [Hg|Hg];
      apply group_In in Hg; eauto. }
  destruct Hcap as [n Hin].
  destruct (Match_captures HM _ _ Hin)
    as [[] | (r1 & a & b & c' & d & Hg & HM' & ->)].
  cbn in Hg. destruct Hg as [Hg|[Hg|[]]]; injection Hg as <- <-;
    apply Match_Plus_capture in HM'; destruct HM' as (c & t & -> & Hw); eauto.
Qed.

Lemma replaceDots_words p : allChars word p = true -> Js.replaceDots p = p.
Proof.
  induction p as [|c p IH]; cbn [allChars Js.replaceDots]; [reflexivity|].
  intros H. apply andb_true_iff in H. destruct H as [Hc Hp].
  rewrite (IH Hp). f_equal.
  destruct (Ascii.eqb_spec c ".") as [->|_]; [discriminate Hc | reflexivity].
Qed.

Lemma startsWith_dot_word c t :
  word c = true -> Js.startsWith (String c t) "." = false.
Proof.
  intros Hc. cbn [Js.startsWith].
  destruct (Ascii.eqb_spec "." c) as [<-|_]; [discriminate Hc | reflexivity].
Qed.

(** ** Paths and segments *)

Lemma split_nonempty sep s : Js.split sep s <> [].
Proof.
  destruct s as [|c s]; cbn [Js.split]; [discriminate|].
  destruct (Ascii.eqb c sep); [discriminate|].
  destruct (Js.split sep s); discriminate.
Qed.

Lemma split_append_sep a b :
  Js.split "/" (a ++ String "/" b) = (Js.split "/" a ++ Js.split "/" b)%list.
Proof.
  induction a as [|c a IH]; cbn [String.append Js.split].
  - reflexivity.
  - destruct (Ascii.eqb c "/"); rewrite IH; [reflexivity|].
    pose proof (split_nonempty "/" a) as Hne.
    destruct (Js.split "/" a) as [|h t]; [contradiction | reflexivity].
Qed.

Lemma split_slashFree s : slashFree s = true -> Js.split "/" s = [s].
Proof.
  induction s as [|c s IH]; cbn [slashFree Js.split]; [reflexivity|].
  intros H. apply andb_true_iff in H. destruct H as [Hc Hs].
  apply negb_true_iff in Hc. rewrite Hc, (IH Hs). reflexivity.
Qed.

Lemma split_all_slashFree s : Forall (fun x => slashFree x = true) (Js.split "/" s).
Proof.
  induction s as [|c s IH]; cbn [Js.split].
  - repeat constructor.
  - destruct (Ascii.eqb c "/") eqn:Hc.
    + constructor; [reflexivity | exact IH].
    + destruct (Js.split "/" s) as [|h t]; [repeat constructor; cbn; now rewrite Hc|].
      inversion IH; subst. constructor; [|assumption].
      cbn [slashFree]. rewrite Hc. assumption.
Qed.

Lemma join_cons x y rest :
  Js.join "/" (x :: y :: rest) = x ++ String "/" (Js.join "/" (y :: rest)).
Proof. reflexivity. Qed.

Lemma split_join L :
  L <> [] -> Forall (fun x => slashFree x = true) L ->
  Js.split "/" (Js.join "/" L) = L.
Proof.
  induction L as [|x [|y rest] IH]; intros Hne HF.
  - contradiction.
  - inversion HF; subst. now apply split_slashFree.
  - inversion HF; subst. rewrite join_cons, split_append_sep.
    rewrite IH; [| discriminate | assumption].
    now rewrite split_slashFree.
Qed.

Lemma plain_slashFree s : plain s = true -> slashFree s = true.
Proof. unfold plain. intros H. apply andb_true_iff in H. tauto. Qed.

Lemma plain_not_special s :
  plain s = true ->
  String.eqb s "" = false /\ String.eqb s "." = false /\ String.eqb s ".." = false.
Proof.
  unfold plain. intros H. repeat (apply andb_true_iff in H; destruct H as [H ?]).
  repeat split; now apply negb_true_iff.
Qed.

Lemma join_plain_empty L :
  Forall (fun x => plain x = true) L -> Js.join "/" L = "" -> L = [].
Proof.
  destruct L as [|x [|y rest]]; intros HF H; [reflexivity| |].
  - inversion HF; subst. cbn in H. subst x. discriminate.
  - inversion HF; subst. rewrite join_cons in H.
    destruct x; [discriminate | discriminate].
Qed.

Lemma normalizeSegs_app allow l1 : forall acc l2,
  path.normalizeSegs allow acc (l1 ++ l2)
  = path.normalizeSegs allow (rev (path.normalizeSegs allow acc l1)) l2.
Proof.
  induction l1 as [|s l1 IH]; intros acc l2; cbn [path.normalizeSegs app].
  - now rewrite rev_involutive.
  - destruct (String.eqb s "" || String.eqb s "."); [apply IH|].
    destruct (String.eqb s ".."); [| apply IH].
    destruct acc as [|top acc']; [apply IH|].
    destruct (String.eqb top ".."); apply IH.
Qed.

Lemma normalizeSegs_plain L : forall acc,
  Forall (fun x => plain x = true) L ->
  path.normalizeSegs false acc L = (rev acc ++ L)%list.
Proof.
  induction L as [|s L IH]; intros acc HF; cbn [path.normalizeSegs].
  - now rewrite app_nil_r.
  - inversion HF as [|? ? Hs HL]; subst.
    destruct (plain_not_special s Hs) as (E1 & E2 & E3).
    rewrite E1, E2, E3. cbn [orb]. rewrite IH by assumption.
    cbn [rev]. now rewrite <- app_assoc.
Qed.

Lemma normalizeSegs_result_plain segs : forall acc,
  Forall (fun x => slashFree x = true) segs ->
  Forall (fun x => plain x = true) acc ->
  Forall (fun x => plain x = true) (path.normalizeSegs false acc segs).
Proof.
  induction segs as [|s segs IH]; intros acc HS HA; cbn [path.normalizeSegs].
  - now apply Forall_rev.
  - inversion HS; subst.
    destruct (String.eqb s "") eqn:E1; [now apply IH|].
    destruct (String.eqb s ".") eqn:E2; [now apply IH|]. cbn [orb].
    destruct (String.eqb s "..") eqn:E3.
    + destruct acc as [|top acc']; [now apply IH|].
      inversion HA; subst.
      destruct (String.eqb top ".."); now apply IH.
    + apply IH; [assumption|]. constructor; [|assumption].
      unfold plain. now rewrite E1, E2, E3.
Qed.

Lemma segments_plain p : Forall (fun x => plain x = true) (segments p).
Proof.
  apply normalizeSegs_result_plain; [apply split_all_slashFree | constructor].
Qed.

Lemma isAbsolute_nonempty p : path.isAbsolute p = true -> String.eqb p "" = false.
Proof. destruct p; [discriminate | reflexivity]. Qed.

Lemma isAbsolute_append p q :
  path.isAbsolute p = true -> path.isAbsolute (p ++ q) = true.
Proof. destruct p; [discriminate | auto]. Qed.

(** [path.resolve] of one absolute path gives its canonical segments. *)
Lemma resolveSegs_absolute cwd p :
  path.isAbsolute p = true ->
  path.resolveSegs cwd [p] = (true, segments p).
Proof.
  intros Habs. unfold path.resolveSegs. cbn [rev app path.resolveLoop].
  rewrite (isAbsolute_nonempty p Habs), Habs.
  change (p ++ "/" ++ "") with (p ++ String "/" "").
  rewrite (isAbsolute_append p _ Habs). cbn [negb].
  rewrite split_append_sep, normalizeSegs_app.
  cbn [Js.split path.normalizeSegs String.eqb orb].
  now rewrite rev_involutive.
Qed.

Lemma segments_of_plain_list L suffix :
  Forall (fun x => plain x = true) L ->
  L <> [] ->
  path.normalizeSegs false []
    ("" :: Js.split "/" (Js.join "/" L) ++ suffix)%list
  = path.normalizeSegs false (rev L) suffix.
Proof.
  intros HF Hne. cbn [path.normalizeSegs String.eqb orb].
  rewrite split_join; [| assumption |].
  - rewrite normalizeSegs_app, (normalizeSegs_plain [] HF). reflexivity.
  - eapply Forall_impl; [| exact HF]. apply plain_slashFree.
Qed.

(** [path.normalize] keeps an absolute path absolute and keeps its
    segments. *)
Lemma normalize_absolute x :
  path.isAbsolute x = true ->
  path.isAbsolute (path.normalize x) = true
  /\ segments (path.normalize x) = segments x.
Proof.
  intros Habs. unfold path.normalize.
  rewrite (isAbsolute_nonempty x Habs), Habs. cbn [negb].
  unfold path.normalizeString. fold (segments x).
  pose proof (segments_plain x) as HP.
  destruct (String.eqb_spec (Js.join "/" (segments x)) "") as [Hq|Hq].
  - split; [reflexivity|]. rewrite (join_plain_empty HP Hq). reflexivity.
  - assert (Hne : segments x <> []).
    { intros E. apply Hq. now rewrite E. }
    split; [reflexivity|].
    destruct (Js.endsWithSlash x).
    + unfold segments at 1.
      change ("/" ++ (Js.join "/" (segments x) ++ "/"))
        with (String "/" (Js.join "/" (segments x) ++ String "/" "")).
      cbn [Js.split Ascii.eqb Bool.eqb]. rewrite split_append_sep.
      change (Js.split "/" "") with [""].
      rewrite (segments_of_plain_list [""] HP Hne).
      cbn [path.normalizeSegs String.eqb orb]. now rewrite rev_involutive.
    + unfold segments at 1.
      change ("/" ++ Js.join "/" (segments x))
        with (String "/" (Js.join "/" (segments x))).
      cbn [Js.split Ascii.eqb Bool.eqb].
      rewrite <- (app_nil_r (Js.split "/" (Js.join "/" (segments x)))).
      rewrite (segments_of_plain_list [] HP Hne).
      cbn [path.normalizeSegs]. now rewrite rev_involutive.
Qed.

(** [path.join] of an absolute path and anything: the segments of the
    first, followed by what the second does to them. *)
Lemma join_absolute a b :
  path.isAbsolute a = true ->
  path.isAbsolute (path.join a b) = true
  /\ segments (path.join a b)
     = path.normalizeSegs false (rev (segments a)) (Js.split "/" b).
Proof.
  intros Habs. unfold path.join. rewrite (isAbsolute_nonempty a Habs).
  destruct (String.eqb_spec b "") as [->|Hb].
  - destruct (normalize_absolute a Habs) as [H1 H2].
    split; [exact H1|]. rewrite H2.
    cbn [Js.split path.normalizeSegs String.eqb orb]. now rewrite rev_involutive.
  - change (a ++ "/" ++ b) with (a ++ String "/" b).
    destruct (normalize_absolute (a ++ String "/" b)
                (isAbsolute_append a _ Habs)) as [H1 H2].
    split; [exact H1|]. rewrite H2. unfold segments.
    now rewrite split_append_sep, normalizeSegs_app.
Qed.

Lemma at_path_absolute w p :
  path.isAbsolute p = true ->
  fs.at_path w p = fs.lookup (fs.slash w) (segments p).
Proof.
  intros Habs. unfold fs.at_path. now rewrite (resolveSegs_absolute _ p Habs).
Qed.

Lemma lookup_app n a : forall b,
  fs.lookup n (a ++ b) =
    match fs.lookup n a with
    | Some m => fs.lookup m b
    | None => None
    end.
Proof.
  revert n. induction a as [|s a IH]; intros n b; cbn [app fs.lookup].
  - reflexivity.
  - destruct n as [| l es |]; try reflexivity.
    destruct (fs.child es s); [apply IH | reflexivity].
Qed.

(** *** The index candidates *)

(** Whatever exists at [t/name] under an absolute root, the directory
    [t] exists there as well. *)
Lemma exists_below_implies_exists w root t name :
  path.isAbsolute root = true ->
  plain name = true ->
  fs.existsSync w (path.join root (t ++ String "/" name)) = true ->
  fs.existsSync w (path.join root t) = true.
Proof.
  intros Habs Hname Hex.
  destruct (join_absolute root (t ++ String "/" name) Habs) as [A1 S1].
  destruct (join_absolute root t Habs) as [A2 S2].
  unfold fs.existsSync in *.
  rewrite (isAbsolute_nonempty _ A1) in Hex. rewrite (isAbsolute_nonempty _ A2).
  rewrite (at_path_absolute w _ A1) in Hex. rewrite (at_path_absolute w _ A2).
  rewrite S1 in Hex. rewrite S2.
  rewrite split_append_sep, normalizeSegs_app in Hex.
  rewrite (split_slashFree name (plain_slashFree name Hname)) in Hex.
  rewrite normalizeSegs_plain in Hex by (repeat constructor; exact Hname).
  rewrite rev_involutive, lookup_app in Hex.
  destruct (fs.lookup (fs.slash w)
              (path.normalizeSegs false (rev (segments root)) (Js.split "/" t)))
    as [[sz dt | l es | r]|]; cbn [fs.lookup] in Hex; try discriminate.
  reflexivity.
Qed.

Lemma index_candidates_unreachable w root t :
  path.isAbsolute root = true ->
  fs.existsSync w (path.join root t) = false ->
  fs.existsSync w (path.join root (t ++ "/index.ts")) = false
  /\ fs.existsSync w (path.join root (t ++ "/index.js")) = false.
Proof.
  intros Habs Hno. split.
  - destruct (fs.existsSync w (path.join root (t ++ "/index.ts"))) eqn:H;
      [|reflexivity].
    rewrite (@exists_below_implies_exists w root t "index.ts" Habs eq_refl H)
      in Hno. discriminate.
  - destruct (fs.existsSync w (path.join root (t ++ "/index.js"))) eqn:H;
      [|reflexivity].
    rewrite (@exists_below_implies_exists w root t "index.js" Habs eq_refl H)
      in Hno. discriminate.
Qed.

(** ** Where the walk is *)

Unset Implicit Arguments.

Lemma dropCommon_prefix A B : path.dropCommon A (A ++ B)%list = ([], B).
Proof.
  induction A as [|x A IH]; cbn [path.dropCommon app].
  - destruct B; reflexivity.
  - now rewrite String.eqb_refl.
Qed.

Lemma join_injective L1 L2 :
  Forall (fun x => plain x = true) L1 ->
  Forall (fun x => plain x = true) L2 ->
  L1 <> [] -> L2 <> [] ->
  Js.join "/" L1 = Js.join "/" L2 -> L1 = L2.
Proof.
  intros H1 H2 N1 N2 E.
  rewrite <- (split_join N1), <- (split_join N2), E; [reflexivity | |];
    (eapply Forall_impl; [| eassumption]); apply plain_slashFree.
Qed.

Lemma distinct_not_in x rest :
  negb (existsb (String.eqb x) rest) = true -> ~ In x rest.
Proof.
  intros H Hin. apply negb_true_iff in H.
  assert (existsb (String.eqb x) rest = true); [|congruence].
  apply existsb_exists. exists x. split; [exact Hin | apply String.eqb_refl].
Qed.

Lemma child_In es n m : fs.child es n = Some m -> In n (map fst es).
Proof.
  unfold fs.child. destruct (find _ es) as [e|] eqn:Hf; [|discriminate].
  intros _. apply find_some in Hf. destruct Hf as [Hin Heq].
  apply String.eqb_eq in Heq. subst n. now apply in_map.
Qed.

Lemma wellFormed_cons l n e rest :
  wellFormed (fs.Dir l ((n, e) :: rest)) = true ->
  plain n = true /\ wellFormed e = true /\ ~ In n (map fst rest)
  /\ wellFormed (fs.Dir l rest) = true.
Proof.
  cbn [wellFormed map fst distinct]. intros H.
  apply andb_true_iff in H. destruct H as [Hd He].
  apply andb_true_iff in Hd. destruct Hd as [Hnot Hd].
  apply andb_true_iff in He. destruct He as [He Hrest].
  apply andb_true_iff in He. destruct He as [Hn He].
  repeat split; auto.
  - now apply distinct_not_in.
  - apply andb_true_iff. auto.
Qed.

Section WalkPaths.

Variable w : fs.world.
Variable root : string.
Variable ignores : string -> bool.
Hypothesis root_absolute : path.isAbsolute root = true.

Lemma relative_below dir X :
  path.isAbsolute dir = true ->
  segments dir = (segments root ++ X)%list ->
  X <> [] ->
  path.relative (fs.cwd w) root dir = Js.join "/" X.
Proof.
  intros Hd Hs HX. unfold path.relative.
  destruct (String.eqb_spec root dir) as [->|_].
  - exfalso. apply HX.
    rewrite <- (app_nil_r (segments dir)) in Hs at 1.
    apply app_inv_head in Hs. now subst X.
  - rewrite (resolveSegs_absolute _ root root_absolute).
    rewrite (resolveSegs_absolute _ dir Hd). cbn [snd].
    rewrite Hs, dropCommon_prefix. reflexivity.
Qed.

Lemma join_entry dir X n :
  path.isAbsolute dir = true ->
  segments dir = (segments root ++ X)%list ->
  plain n = true ->
  path.isAbsolute (path.join dir n) = true
  /\ segments (path.join dir n) = (segments root ++ X ++ [n])%list.
Proof.
  intros Hd Hs Hn. destruct (join_absolute dir n Hd) as [A S].
  split; [exact A|]. rewrite S.
  rewrite (split_slashFree n (plain_slashFree n Hn)).
  rewrite normalizeSegs_plain by (repeat constructor; exact Hn).
  now rewrite rev_involutive, Hs, app_assoc.
Qed.

(** Where a reached file lies: [names] are the entry names from the
    directory of the walk down to the file. *)
Definition located (dir_node : fs.node) (X : list string) (c : candidate)
    (names : list string) : Prop :=
  Forall (fun x => plain x = true) names
  /\ c_relativePath c = Js.join "/" (X ++ names)%list
  /\ path.isAbsolute (c_fullPath c) = true
  /\ segments (c_fullPath c) = (segments root ++ X ++ names)%list
  /\ fs.lookup dir_node names = Some (c_entry c).

Lemma reachedEntry_located dir X n e :
  path.isAbsolute dir = true ->
  segments dir = (segments root ++ X)%list ->
  plain n = true ->
  (forall dir' X',
      path.isAbsolute dir' = true ->
      segments dir' = (segments root ++ X')%list ->
      forall c, In c (reached w root ignores dir' e) ->
        exists names, names <> [] /\ located e X' c names) ->
  forall c, In c (reachedEntry w root ignores dir n e) ->
    exists names', located e (X ++ [n]) c names'.
Proof.
  intros Hd Hs Hn IH c Hc. unfold reachedEntry in Hc. cbv zeta in Hc.
  destruct (join_entry dir X n Hd Hs Hn) as [A S].
  destruct (skipped ignores n _); [contradiction|].
  destruct (fs.isDirectory e).
  - destruct (IH _ _ A S c Hc) as (names & _ & HL). eauto.
  - destruct (fs.isFile e); [|contradiction].
    destruct Hc as [<-|[]]. exists []. unfold located.
    cbn [c_relativePath c_fullPath c_entry fs.lookup].
    rewrite !app_nil_r. repeat split; auto.
    apply relative_below; [exact A | exact S | destruct X; discriminate].
Qed.

Lemma reached_located d :
  forall dir X,
    path.isAbsolute dir = true ->
    segments dir = (segments root ++ X)%list ->
    wellFormed d = true ->
    forall c, In c (reached w root ignores dir d) ->
      exists names, names <> [] /\ located d X c names.
Proof.
  induction d as [sz data | r | l es IH] using fs.node_rect';
    intros dir X Hd Hs Hwf c Hc; try contradiction.
  induction es as [|[n e] rest IHrest]; [contradiction|].
  inversion IH as [|? ? Hentry Hrest]; subst. cbn [snd] in Hentry.
  destruct (wellFormed_cons _ _ _ _ Hwf) as (Hn & Hwe & Hnotin & Hwr).
  rewrite reached_cons in Hc. apply in_app_or in Hc. destruct Hc as [Hc|Hc].
  - destruct (reachedEntry_located dir X n e Hd Hs Hn) with (c := c)
      as (names' & HF & Hrel & Habs & Hseg & Hlook); [|exact Hc|].
    + intros dir' X' Hd' Hs' c' Hc'. now apply (Hentry dir' X' Hd' Hs' Hwe).
    + exists (n :: names'). split; [discriminate|]. unfold located.
      rewrite <- !app_assoc in Hrel, Hseg. cbn [app] in Hrel, Hseg.
      repeat split; auto.
      cbn [fs.lookup]. unfold fs.child. cbn [find fst snd].
      now rewrite String.eqb_refl.
  - destruct (IHrest Hrest Hwr Hc) as (names & Hne & HF & Hrel & Habs & Hseg & Hlook).
    exists names. split; [exact Hne|]. unfold located. repeat split; auto.
    destruct names as [|n' names']; [contradiction|].
    cbn [fs.lookup] in Hlook |- *.
    destruct (fs.child rest n') as [m|] eqn:Hch; [|discriminate].
    apply child_In in Hch as Hin.
    assert (Hsame : fs.child ((n, e) :: rest) n' = fs.child rest n').
    { unfold fs.child. cbn [find fst].
      destruct (String.eqb_spec n n') as [->|_]; [contradiction | reflexivity]. }
    now rewrite Hsame, Hch.
Qed.

(** The walk reads what it lists: the full path of every reached file
    names that very entry, and its relative path exists under the
    root. *)
Lemma reached_at_path d c :
  fs.at_path w root = Some d ->
  wellFormed d = true ->
  In c (reached w root ignores root d) ->
  fs.at_path w (c_fullPath c) = Some (c_entry c).
Proof.
  intros Hroot Hwf Hc.
  destruct (@reached_located d root [] root_absolute) with (c := c)
    as (names & _ & _ & _ & Habs & Hseg & Hlook); auto.
  { now rewrite app_nil_r. }
  rewrite (at_path_absolute w _ Habs), Hseg. cbn [app].
  rewrite lookup_app.
  rewrite (at_path_absolute w _ root_absolute) in Hroot. now rewrite Hroot.
Qed.

(** Two files of one walk never share a relative path: the ids of the
    Nodes of a graph are distinct. *)
Lemma reached_ids_distinct d :
  forall dir X,
    path.isAbsolute dir = true ->
    segments dir = (segments root ++ X)%list ->
    Forall (fun x => plain x = true) X ->
    wellFormed d = true ->
    NoDup (map c_relativePath (reached w root ignores dir d)).
Proof.
  induction d as [sz data | r | l es IH] using fs.node_rect';
    intros dir X Hd Hs HX Hwf; try constructor.
  induction es as [|[n e] rest IHrest]; [constructor|].
  inversion IH as [|? ? Hentry Hrest]; subst. cbn [snd] in Hentry.
  destruct (wellFormed_cons _ _ _ _ Hwf) as (Hn & Hwe & Hnotin & Hwr).
  rewrite reached_cons, map_app. apply NoDup_app.
  - unfold reachedEntry. cbv zeta.
    destruct (join_entry dir X n Hd Hs Hn) as [A S].
    destruct (skipped ignores n _); [constructor|].
    destruct (fs.isDirectory e).
    + apply (Hentry _ (X ++ [n])%list A S); [|exact Hwe].
      apply Forall_app. split; [exact HX | repeat constructor; exact Hn].
    + destruct (fs.isFile e); repeat constructor. intros [].
  - apply IHrest; assumption.
  - intros id Hin1 Hin2.
    apply in_map_iff in Hin1. destruct Hin1 as (c1 & <- & Hc1).
    apply in_map_iff in Hin2. destruct Hin2 as (c2 & Heq & Hc2).
    destruct (reachedEntry_located dir X n e Hd Hs Hn) with (c := c1)
      as (names1 & HF1 & Hrel1 & _); [|exact Hc1|].
    { intros dir' X' Hd' Hs' c' Hc'. now apply (reached_located e dir' X'). }
    destruct (reached_located (fs.Dir l rest) dir X Hd Hs Hwr c2 Hc2)
      as (names2 & Hne2 & HF2 & Hrel2 & _ & _ & Hlook2).
    destruct names2 as [|n2 names2]; [contradiction|].
    cbn [fs.lookup] in Hlook2.
    destruct (fs.child rest n2) as [m|] eqn:Hch; [|discriminate].
    apply child_In in Hch.
    rewrite Hrel1, Hrel2, <- app_assoc in Heq. cbn [app] in Heq.
    apply join_injective in Heq.
    + apply app_inv_head in Heq. injection Heq as -> _. contradiction.
    + apply Forall_app. split; [exact HX | exact HF2].
    + apply Forall_app. split; [exact HX|]. constructor; [exact Hn | exact HF1].
    + destruct X; discriminate.
    + destruct X; discriminate.
Qed.

End WalkPaths.

Lemma NoDup_map_filter {A B} (f : A -> B) (keep : A -> bool) (l : list A) :
  NoDup (map f l) -> NoDup (map f (filter keep l)).
Proof.
  induction l as [|x l IH]; cbn [map filter]; intros H; [constructor|].
  inversion H as [|? ? Hnot Hrest]; subst.
  destruct (keep x); cbn [map]; [| now apply IH].
  constructor; [| now apply IH].
  intros Hin. apply Hnot. apply in_map_iff in Hin.
  destruct Hin as (y & Hy & Hin). apply filter_In in Hin.
  apply in_map_iff. exists y. tauto.
Qed.

(** The ids of the Nodes of a walk from an absolute root over
    well-formed listings are distinct. *)
Lemma graphOf_ids_distinct w root ignores d :
  path.isAbsolute root = true -> wellFormed d = true ->
  NoDup (map types.id (types.nodes (graphOf w root ignores d))).
Proof.
  intros Habs Hwf. unfold graphOf. cbn [types.nodes].
  rewrite map_map. cbn [nodeOf types.id].
  apply NoDup_map_filter.
  apply (reached_ids_distinct w root ignores Habs d root []); auto.
  now rewrite app_nil_r.
Qed.

(** ** The properties of the specification *)

(** *** Lower case and comparison without case *)

Lemma ascii_eqb_code c d :
  Ascii.eqb c d = Nat.eqb (nat_of_ascii c) (nat_of_ascii d).
Proof.
  destruct (Ascii.eqb_spec c d) as [->|H]; [now rewrite Nat.eqb_refl|].
  symmetry. apply Nat.eqb_neq. intros E. apply H.
  rewrite <- (ascii_nat_embedding c), <- (ascii_nat_embedding d).
  now rewrite E.
Qed.

Lemma lowerChar_sameLetter c d :
  smallOrDot d = true -> Ascii.eqb (Js.lowerChar c) d = sameLetter c d.
Proof.
  unfold smallOrDot, sameLetter, capitalOf, Js.lowerChar. cbv zeta.
  intros Hd. pose proof (nat_ascii_bounded c) as Bc.
  rewrite !ascii_eqb_code.
  remember (nat_of_ascii c) as n eqn:En.
  remember (nat_of_ascii d) as m eqn:Em.
  destruct (Nat.leb_spec0 65 n), (Nat.leb_spec0 n 90),
    (Nat.leb_spec0 192 n), (Nat.leb_spec0 n 222), (Nat.eqb_spec n 215);
    cbn [andb orb negb];
    try (rewrite (nat_ascii_embedding (n + 32)) by lia);
    try rewrite <- En;
    repeat match goal with
    | |- context [Nat.eqb ?a ?b] => destruct (Nat.eqb_spec a b)
    | |- context [Nat.leb ?a ?b] => destruct (Nat.leb_spec0 a b)
    | H : context [Nat.eqb ?a ?b] |- _ => destruct (Nat.eqb_spec a b)
    | H : context [Nat.leb ?a ?b] |- _ => destruct (Nat.leb_spec0 a b)
    end;
    cbn [andb orb negb] in *; try reflexivity; try discriminate;
    exfalso; lia.
Qed.

Lemma toLowerCase_sameIgnoringCase ext : forall e,
  RegExp.allChars smallOrDot e = true ->
  String.eqb (Js.toLowerCase ext) e = sameIgnoringCase ext e.
Proof.
  induction ext as [|c ext IH]; intros e He;
    destruct e as [|d e]; cbn [Js.toLowerCase sameIgnoringCase];
    try reflexivity.
  cbn [RegExp.allChars] in He. apply andb_true_iff in He.
  destruct He as [Hd He].
  rewrite <- (lowerChar_sameLetter c d Hd), <- (IH e He).
  cbn [String.eqb].
  destruct (Ascii.eqb (Js.lowerChar c) d); reflexivity.
Qed.

(** [isCodeFile] decides whether the extension is, case apart, one of
    the seventeen of the specification. *)
Lemma isCodeFile_allowed name :
  isCodeFile name
  = existsb (sameIgnoringCase (path.extname name))
      [".ts"; ".tsx"; ".js"; ".jsx"; ".css"; ".scss"; ".html"; ".py";
       ".java"; ".c"; ".cpp"; ".h"; ".json"; ".md"; ".go"; ".rs"; ".php"].
Proof.
  unfold isCodeFile, Js.includes, supportedExtensions. cbv zeta.
  cbn [existsb].
  rewrite !toLowerCase_sameIgnoringCase by reflexivity. reflexivity.
Qed.

(** C5.  Extension filter.  A scan that returns has produced, in the
    order of the walk, exactly one Node for every file that was
    reached, not skipped by a rule, has an extension that is, case
    apart, one of [.ts .tsx .js .jsx .css .scss .html .py .java .c
    .cpp .h .json .md .go .rs .php] and was read without error, and no
    other Node: a file with another extension has none whatever it
    contains, and a readable file with one of these extensions has its
    Node.  Under an absolute root and well-formed listings no two
    Nodes share an id. *)
Theorem C5_extension_filter (w : fs.world) (this : ProjectScanner)
    (g : types.GraphData) (s' : ProjectScanner) :
  scan w this = (Returned g, s') ->
  let allowed := fun name : string =>
    existsb (sameIgnoringCase (path.extname name))
      [".ts"; ".tsx"; ".js"; ".jsx"; ".css"; ".scss"; ".html"; ".py";
       ".java"; ".c"; ".cpp"; ".h"; ".json"; ".md"; ".go"; ".rs"; ".php"] in
  exists d,
    fs.opendir w (workspaceRoot this) = Some d
    /\ types.nodes g
       = map nodeOf
           (filter (fun c => allowed (c_name c) && readable c)
              (reached w (workspaceRoot this) (ig this) (workspaceRoot this) d))
    /\ (forall n, In n (types.nodes g) -> allowed (types.name n) = true)
    /\ (forall c,
          In c (reached w (workspaceRoot this) (ig this) (workspaceRoot this) d) ->
          allowed (c_name c) = false ->
          forall n, In n (types.nodes g) ->
            types.name n <> c_name c)
    /\ (forall c,
          In c (reached w (workspaceRoot this) (ig this) (workspaceRoot this) d) ->
          allowed (c_name c) = true -> readable c = true ->
          In (nodeOf c) (types.nodes g))
    /\ (path.isAbsolute (workspaceRoot this) = true ->
        wellFormed d = true ->
        NoDup (map types.id (types.nodes g))).
Proof.
  intros H allowed.
  destruct (scan_returned_inv w this H) as (d & Hd & Hl & Hg).
  exists d. split; [exact Hd|]. subst g.
  assert (Hnodes :
    types.nodes (graphOf w (workspaceRoot this) (ig this) d)
    = map nodeOf
        (filter (fun c => allowed (c_name c) && readable c)
           (reached w (workspaceRoot this) (ig this) (workspaceRoot this) d))).
  { unfold graphOf. cbn [types.nodes]. f_equal. apply filter_ext.
    intros c. unfold accepted, allowed. now rewrite isCodeFile_allowed. }
  assert (Hnames : forall n,
    In n (types.nodes (graphOf w (workspaceRoot this) (ig this) d)) ->
    allowed (types.name n) = true).
  { intros n Hn. rewrite Hnodes in Hn. apply in_map_iff in Hn.
    destruct Hn as (c & <- & Hc). apply filter_In in Hc.
    destruct Hc as [_ Hc]. apply andb_true_iff in Hc.
    cbn [nodeOf types.name]. tauto. }
  split; [exact Hnodes|]. split; [exact Hnames|]. split; [|split].
  - intros c _ Hext n Hn Heq. specialize (Hnames n Hn).
    rewrite Heq in Hnames. congruence.
  - intros c Hc Ha Hr. rewrite Hnodes. apply in_map. apply filter_In.
    split; [exact Hc|]. now rewrite Ha, Hr.
  - now apply graphOf_ids_distinct.
Qed.

(** C7.  No Link leaves the workspace.  The target of every Link of a
    returned graph does not begin with two dots, and the path it forms
    with the root exists.  A relative import whose path, made relative
    to the root, begins with two dots appends no Link. *)
Theorem C7_links_stay_in_root (w : fs.world) (this : ProjectScanner)
    (g : types.GraphData) (s' : ProjectScanner) :
  scan w this = (Returned g, s') ->
  (forall l, In l (types.links g) ->
     Js.startsWith (types.target l) ".." = false
     /\ fs.existsSync w (path.join (workspaceRoot this) (types.target l)) = true)
  /\ (forall dir ext rid c p s,
        Js.startsWith (String c p) "." = true ->
        Js.startsWith
          (path.relative (fs.cwd w) (workspaceRoot s)
             (path.resolve (fs.cwd w) [dir; String c p])) ".." = true ->
        fst (resolveImport w dir ext rid (Some (String c p)) s) = Returned tt
        /\ links (snd (resolveImport w dir ext rid (Some (String c p)) s))
           = links s).
Proof.
  intros H. split.
  - intros l Hl. destruct (scan_returned_inv w this H) as (d & _ & _ & ->).
    apply graphOf_link_inv in Hl. destruct Hl as (c & _ & _ & _ & Hup & Hex).
    auto.
  - intros dir ext rid c p s. apply resolveImport_escaping.
Qed.

(** C8.  Idempotence.  A second scan of the same scanner over the
    same tree resolves to the same graph as the first, whatever the
    accumulators held before; in particular the two graphs have the
    same Nodes and the same Links up to order. *)
Theorem C8_scan_twice (w : fs.world) (this : ProjectScanner)
    (g1 : types.GraphData) (s1 : ProjectScanner) :
  scan w this = (Returned g1, s1) ->
  nodes s1 = types.nodes g1 /\ links s1 = types.links g1
  /\ exists g2 s2,
      scan w s1 = (Returned g2, s2)
      /\ g2 = g1
      /\ Permutation (types.nodes g1) (types.nodes g2)
      /\ Permutation (types.links g1) (types.links g2).
Proof.
  intros H.
  pose proof (scan_from_blank w this) as H1. cbv zeta in H1.
  pose proof (scan_from_blank w s1) as H2. cbv zeta in H2.
  pose proof (scan_config w this) as [Hr Hi]. rewrite H in Hr, Hi. cbn [snd] in Hr, Hi.
  rewrite Hr, Hi in H2. rewrite H in H1.
  destruct (fst (scanWorkspace w (emptyScanner (workspaceRoot this) (ig this))))
    as [[]|e]; [| discriminate].
  injection H1 as Hg Hs. subst g1. cbn [types.nodes types.links].
  rewrite Hs at 1 2. cbn [merge reset snd nodes links app].
  split; [reflexivity|]. split; [reflexivity|].
  eexists _, _. split; [exact H2|]. split; [reflexivity|].
  split; apply Permutation_refl.
Qed.

(** A scan does not depend on what the accumulators of the instance
    held. *)
Lemma scan_ignores_stale_state w this stale_visited stale_nodes stale_links stale_probed :
  fst (scan w {| workspaceRoot := workspaceRoot this;
                 visitedFiles := stale_visited;
                 nodes := stale_nodes; links := stale_links;
                 ig := ig this; probed := stale_probed |})
  = fst (scan w this).
Proof. rewrite !scan_from_blank. reflexivity. Qed.

(** C10.  Sources are Nodes, targets need not be.  In a returned graph
    the source of every Link is the id of a Node of the same graph.
    The same does not hold of targets. *)
Theorem C10_link_source_is_node (w : fs.world) (this : ProjectScanner)
    (g : types.GraphData) (s' : ProjectScanner) :
  scan w this = (Returned g, s') ->
  (forall l, In l (types.links g) ->
     exists n, In n (types.nodes g) /\ types.id n = types.source l)
  /\ ~ (forall w' this' g' s'',
          scan w' this' = (Returned g', s'') ->
          forall l, In l (types.links g') ->
            exists n, In n (types.nodes g') /\ types.id n = types.target l).
Proof.
  intros H. split.
  - intros l Hl. destruct (scan_returned_inv w this H) as (d & _ & _ & ->).
    apply in_flat_map in Hl. destruct Hl as (c & Hc & Hl).
    exists (nodeOf c). split.
    + cbn [graphOf types.nodes]. apply in_map. exact Hc.
    + pose proof (linksOf_emitted w (workspaceRoot this) (ig this) c) as HF.
      rewrite Forall_forall in HF. destruct (HF l Hl) as (Hs & _).
      cbn [nodeOf types.id]. now rewrite Hs.
  - intros Habs.
    specialize (Habs Sample.mixed Sample.scanner).
    remember (scan Sample.mixed Sample.scanner) as r eqn:Hr.
    vm_compute in Hr. subst r.
    specialize (Habs _ _ eq_refl
                  {| types.source := "a.ts"; types.target := "LICENSE" |}).
    destruct Habs as (n & Hn & Hid).
    + cbn [types.links]. left. reflexivity.
    + cbn [types.nodes] in Hn.
      repeat (destruct Hn as [Hn|Hn]; [subst n; discriminate Hid|]).
      exact Hn.
Qed.


(** C6.  Bare imports.  In a file whose lower-cased extension is not
    [.py], an import string that does not begin with a dot leaves the
    scanner unchanged: no Link is appended and [fileExists] is not
    called, for one import and for a whole file of such imports.  In a
    Python file the same string is looked up as a module file under
    the root.  A file that imports [react] gets no Link. *)
Theorem C6_bare_import_no_link (w : fs.world) (dir ext rid : string)
    (importPath : option string) (this : ProjectScanner) :
  ext <> ".py" ->
  (forall p, importPath = Some p -> Js.startsWith p "." = false) ->
  resolveImport w dir ext rid importPath this = (Returned tt, this)
  /\ (forall content filePath,
        Js.toLowerCase (path.extname filePath) = ext ->
        (forall p, In (Some p) (importPaths ext content) ->
                   Js.startsWith p "." = false) ->
        parseDependenciesFromContent w content filePath rid this
        = (Returned tt, this))
  /\ (forall c p,
        Js.startsWith (String c p) "." = false ->
        let possiblePyFile := Js.replaceDots (String c p) ++ ".py" in
        probed (snd (resolveImport w dir ".py" rid (Some (String c p)) this))
        = (probed this ++ [possiblePyFile])%list
        /\ links (snd (resolveImport w dir ".py" rid (Some (String c p)) this))
           = (links this ++
                if fs.existsSync w (path.join (workspaceRoot this) possiblePyFile)
                then [{| types.source := rid; types.target := possiblePyFile |}]
                else [])%list)
  /\ (importPaths ".ts" "import x from 'react'" = [Some "react"]
      /\ exists g,
           fst (scan Sample.package Sample.scanner) = Returned g
           /\ types.links g = []
           /\ probed (snd (scan Sample.package Sample.scanner)) = []).
Proof.
  intros Hext Hbare.
  assert (Hone : forall ip s,
    (forall p, ip = Some p -> Js.startsWith p "." = false) ->
    resolveImport w dir ext rid ip s = (Returned tt, s)).
  { intros ip s Hip. destruct ip as [[|c p]|]; try reflexivity.
    apply resolveImport_bare; auto. }
  split; [now apply Hone|]. split; [| split].
  - intros content filePath Hx Hall.
    unfold parseDependenciesFromContent, try_catch. rewrite Hx.
    assert (Hloop : forall l s,
      (forall p, In (Some p) l -> Js.startsWith p "." = false) ->
      forEach (resolveImport w (path.dirname filePath) ext rid) l s
      = (Returned tt, s)).
    { induction l as [|ip rest IH]; intros s Hl; [reflexivity|].
      cbn [forEach]. unfold bind.
      assert (Hip : resolveImport w (path.dirname filePath) ext rid ip s
                    = (Returned tt, s)).
      { destruct ip as [[|c p]|]; try reflexivity.
        apply resolveImport_bare; auto. apply Hl. now left. }
      rewrite Hip. apply IH. intros p Hp. apply Hl. now right. }
    now rewrite Hloop.
  - intros c p Hrel possiblePyFile.
    rewrite (resolveImport_python w dir rid c p this Hrel).
    split; reflexivity.
  - split; [vm_compute; reflexivity|].
    eexists. vm_compute. repeat split; reflexivity.
Qed.

(** C9.  One unreadable file.  Let every directory of the walk be
    listable, and let exactly one reached file with an allowed
    extension fail in [stat] or [readFile].  The scan returns; the
    graph holds, in order, one Node for every other reached file with
    an allowed extension, and the Links of their contents; the failing
    file adds neither Node nor Link. *)
Theorem C9_unreadable_file_isolated (w : fs.world) (this : ProjectScanner)
    (d : fs.node) (pre post : list candidate) (c : candidate) :
  let root := workspaceRoot this in
  let ignores := ig this in
  fs.opendir w root = Some d ->
  listable w root ignores root d = true ->
  reached w root ignores root d = (pre ++ c :: post)%list ->
  isCodeFile (c_name c) = true ->
  readable c = false ->
  (forall c', In c' (pre ++ post)%list ->
              isCodeFile (c_name c') = true -> readable c' = true) ->
  exists g s',
    scan w this = (Returned g, s')
    /\ types.nodes g
       = map nodeOf (filter (fun c' => isCodeFile (c_name c')) (pre ++ post)%list)
    /\ types.links g
       = flat_map (linksOf w root ignores)
           (filter (fun c' => isCodeFile (c_name c')) (pre ++ post)%list)
    /\ (forall c', In c' (pre ++ post)%list -> isCodeFile (c_name c') = true ->
                   In (nodeOf c') (types.nodes g)).
Proof.
  intros root ignores Hd Hl Hreach Hcode Hbad Hothers.
  pose proof (scan_returns w this Hd Hl) as Hscan.
  destruct (scan w this) as [r s'] eqn:Hrun. cbn [fst] in Hscan. subst r.
  exists (graphOf w root ignores d), s'.
  assert (Hfiles :
    filter accepted (reached w root ignores root d)
    = filter (fun c' => isCodeFile (c_name c')) (pre ++ post)%list).
  { rewrite Hreach.
    transitivity (filter accepted (pre ++ post)%list).
    { rewrite !filter_app. cbn [filter].
      unfold accepted at 2. now rewrite Hbad, andb_false_r. }
    apply filter_ext_in.
    intros c' Hc'. unfold accepted.
    destruct (isCodeFile (c_name c')) eqn:Hc; [|reflexivity].
    now rewrite (Hothers c' Hc' Hc). }
  split; [reflexivity|].
  unfold graphOf. cbn [types.nodes types.links]. fold root ignores.
  rewrite Hfiles. split; [reflexivity|]. split; [reflexivity|].
  intros c' Hc' Hcode'. apply in_map. apply filter_In. auto.
Qed.

(** C1.  The scanner on a Python file that imports [pkg.sub] with a
    [from] statement, next to [pkg/sub.py]: the module file exists
    under the root, yet the expression for Python imports captures
    nothing from the statement, no path is probed and the graph has no
    Link. *)
Theorem C1_dotted_from_import_yields_no_link :
  fs.existsSync Sample.dotted (path.join "/w" "pkg/sub.py") = true
  /\ importPaths ".py" "from pkg.sub import y" = []
  /\ importPaths ".py" "import pkg.sub" = [Some "pkg"]
  /\ exists g,
       fst (scan Sample.dotted Sample.scanner) = Returned g
       /\ map types.id (types.nodes g) = ["main.py"; "pkg/sub.py"]
       /\ types.links g = []
       /\ probed (snd (scan Sample.dotted Sample.scanner)) = [].
Proof.
  split; [vm_compute; reflexivity|].
  split; [vm_compute; reflexivity|].
  split; [vm_compute; reflexivity|].
  eexists. vm_compute. repeat split; reflexivity.
Qed.

(** C2.  The scanner on a workspace whose root can be listed and that
    holds a directory that cannot: the scan throws the error of the
    inner [readdir]. *)
Theorem C2_unlistable_subdirectory_is_fatal :
  (exists entries, fs.readdir Sample.locked "/w" = Some entries)
  /\ fst (scan Sample.locked Sample.scanner)
     = Thrown {| syscall := "scandir"; errpath := "/w/private" |}.
Proof.
  split; [eexists; vm_compute; reflexivity | vm_compute; reflexivity].
Qed.

(** C3.  The scanner on a file named [Foo.TS]: the file passes the
    extension filter and its Node has the type [.TS], not [.ts]. *)
Theorem C3_type_keeps_capitals :
  isCodeFile "Foo.TS" = true
  /\ exists n,
       fst (scan Sample.capitals Sample.scanner)
       = Returned {| types.nodes := [n]; types.links := [] |}
       /\ types.name n = "Foo.TS"
       /\ types.type n = ".TS"
       /\ types.type n <> ".ts".
Proof.
  split; [vm_compute; reflexivity|].
  eexists. vm_compute. repeat split; try reflexivity. discriminate.
Qed.

(** C4.  The scanner on [a.ts] that imports [./sub], where [sub] is a
    directory holding [index.ts]: [fileExists] answers for the
    directory itself, no candidate is probed and the Link goes to
    [sub]. *)
Theorem C4_directory_import_links_directory :
  importPaths ".ts" "import x from './sub'" = [Some "./sub"]
  /\ fs.existsSync Sample.index (path.join "/w" "sub/index.ts") = true
  /\ fs.existsSync Sample.index (path.join "/w" "sub.ts") = false
  /\ exists g,
       fst (scan Sample.index Sample.scanner) = Returned g
       /\ types.links g = [{| types.source := "a.ts"; types.target := "sub" |}]
       /\ probed (snd (scan Sample.index Sample.scanner)) = ["sub"; "sub"].
Proof.
  split; [vm_compute; reflexivity|].
  split; [vm_compute; reflexivity|].
  split; [vm_compute; reflexivity|].
  eexists. vm_compute. repeat split; reflexivity.
Qed.

(** ** The properties on a sample workspace *)

Lemma mixed_run :
  scan Sample.mixed Sample.scanner
  = (Returned Sample.mixed_graph, Sample.mixed_after).
Proof. vm_compute. reflexivity. Defined.

Lemma extensions_run :
  scan Sample.extensions Sample.scanner
  = (Returned Sample.extensions_graph, Sample.extensions_after).
Proof. vm_compute. reflexivity. Defined.

Lemma C5_extension_filter_witness :
  scan Sample.extensions Sample.scanner
  = (Returned Sample.extensions_graph, Sample.extensions_after)
  /\ map types.id (types.nodes Sample.extensions_graph)
     = ["a.ts"; "Foo.TS"; "style.Css"]
  /\ (let allowed := fun name : string =>
        existsb (sameIgnoringCase (path.extname name))
          [".ts"; ".tsx"; ".js"; ".jsx"; ".css"; ".scss"; ".html"; ".py";
           ".java"; ".c"; ".cpp"; ".h"; ".json"; ".md"; ".go"; ".rs"; ".php"] in
      exists d,
        fs.opendir Sample.extensions "/w" = Some d
        /\ types.nodes Sample.extensions_graph
           = map nodeOf
               (filter (fun c => allowed (c_name c) && readable c)
                  (reached Sample.extensions "/w" (fun _ => false) "/w" d))
        /\ (forall n, In n (types.nodes Sample.extensions_graph) ->
              allowed (types.name n) = true)
        /\ (forall c,
              In c (reached Sample.extensions "/w" (fun _ => false) "/w" d) ->
              allowed (c_name c) = false ->
              forall n, In n (types.nodes Sample.extensions_graph) ->
                types.name n <> c_name c)
        /\ (forall c,
              In c (reached Sample.extensions "/w" (fun _ => false) "/w" d) ->
              allowed (c_name c) = true -> readable c = true ->
              In (nodeOf c) (types.nodes Sample.extensions_graph))
        /\ (path.isAbsolute "/w" = true ->
            wellFormed d = true ->
            NoDup (map types.id (types.nodes Sample.extensions_graph)))).
Proof.
  split; [exact extensions_run|].
  split; [vm_compute; reflexivity|].
  exact (@C5_extension_filter Sample.extensions Sample.scanner
           Sample.extensions_graph Sample.extensions_after extensions_run).
Defined.

Lemma C7_links_stay_in_root_witness :
  scan Sample.mixed Sample.scanner
  = (Returned Sample.mixed_graph, Sample.mixed_after)
  /\ (forall l, In l (types.links Sample.mixed_graph) ->
        Js.startsWith (types.target l) ".." = false
        /\ fs.existsSync Sample.mixed (path.join "/w" (types.target l)) = true)
  /\ (forall dir ext rid c p s,
        Js.startsWith (String c p) "." = true ->
        Js.startsWith
          (path.relative "/" (workspaceRoot s)
             (path.resolve "/" [dir; String c p])) ".." = true ->
        fst (resolveImport Sample.mixed dir ext rid (Some (String c p)) s)
        = Returned tt
        /\ links (snd (resolveImport Sample.mixed dir ext rid
                         (Some (String c p)) s))
           = links s).
Proof.
  split; [exact mixed_run|].
  apply (@C7_links_stay_in_root Sample.mixed Sample.scanner
           Sample.mixed_graph Sample.mixed_after).
  vm_compute. reflexivity.
Defined.

Lemma C8_scan_twice_witness :
  scan Sample.mixed Sample.scanner
  = (Returned Sample.mixed_graph, Sample.mixed_after)
  /\ nodes Sample.mixed_after = types.nodes Sample.mixed_graph
  /\ links Sample.mixed_after = types.links Sample.mixed_graph
  /\ exists g2 s2,
      scan Sample.mixed Sample.mixed_after = (Returned g2, s2)
      /\ g2 = Sample.mixed_graph
      /\ Permutation (types.nodes Sample.mixed_graph) (types.nodes g2)
      /\ Permutation (types.links Sample.mixed_graph) (types.links g2).
Proof.
  split; [exact mixed_run|].
  apply (@C8_scan_twice Sample.mixed Sample.scanner
           Sample.mixed_graph Sample.mixed_after).
  vm_compute. reflexivity.
Defined.

Lemma C10_link_source_is_node_witness :
  scan Sample.mixed Sample.scanner
  = (Returned Sample.mixed_graph, Sample.mixed_after)
  /\ (forall l, In l (types.links Sample.mixed_graph) ->
        exists n, In n (types.nodes Sample.mixed_graph)
                  /\ types.id n = types.source l)
  /\ ~ (forall w' this' g' s'',
          scan w' this' = (Returned g', s'') ->
          forall l, In l (types.links g') ->
            exists n, In n (types.nodes g') /\ types.id n = types.target l).
Proof.
  split; [exact mixed_run|].
  apply (@C10_link_source_is_node Sample.mixed Sample.scanner
           Sample.mixed_graph Sample.mixed_after).
  vm_compute. reflexivity.
Defined.

Lemma C6_bare_import_no_link_witness :
  ".ts" <> ".py"
  /\ (forall p, Some "react" = Some p -> Js.startsWith p "." = false)
  /\ resolveImport Sample.package "/w" ".ts" "a.ts" (Some "react") Sample.scanner
     = (Returned tt, Sample.scanner).
Proof.
  assert (Hext : ".ts" <> ".py") by discriminate.
  assert (Hbare : forall p, Some "react" = Some p -> Js.startsWith p "." = false).
  { intros p Hp. injection Hp as <-. reflexivity. }
  split; [exact Hext|]. split; [exact Hbare|].
  exact (proj1 (@C6_bare_import_no_link Sample.package "/w" ".ts" "a.ts"
                  (Some "react") Sample.scanner Hext Hbare)).
Defined.

Lemma C9_unreadable_file_isolated_witness :
  fs.opendir Sample.mixed "/w" = Some Sample.mixed_root
  /\ listable Sample.mixed "/w" (fun _ => false) "/w" Sample.mixed_root = true
  /\ Sample.mixed_reached
     = (firstn 3 Sample.mixed_reached
        ++ Sample.mixed_secret :: skipn 4 Sample.mixed_reached)%list
  /\ c_name Sample.mixed_secret = "secret.ts"
  /\ isCodeFile (c_name Sample.mixed_secret) = true
  /\ readable Sample.mixed_secret = false
  /\ exists g s',
      scan Sample.mixed Sample.scanner = (Returned g, s')
      /\ map types.id (types.nodes g) = ["a.ts"; "lib/b.ts"; "lib/c.py"; "a.py"]
      /\ (forall c', In c' (firstn 3 Sample.mixed_reached
                            ++ skipn 4 Sample.mixed_reached)%list ->
                     isCodeFile (c_name c') = true ->
                     In (nodeOf c') (types.nodes g)).
Proof.
  assert (Hd : fs.opendir Sample.mixed "/w" = Some Sample.mixed_root)
    by (vm_compute; reflexivity).
  assert (Hl : listable Sample.mixed "/w" (fun _ => false) "/w"
                 Sample.mixed_root = true) by (vm_compute; reflexivity).
  assert (Hr : Sample.mixed_reached
               = (firstn 3 Sample.mixed_reached
                  ++ Sample.mixed_secret :: skipn 4 Sample.mixed_reached)%list)
    by (vm_compute; reflexivity).
  assert (Hc : isCodeFile (c_name Sample.mixed_secret) = true)
    by (vm_compute; reflexivity).
  assert (Hb : readable Sample.mixed_secret = false)
    by (vm_compute; reflexivity).
  assert (Ho : forall c',
             In c' (firstn 3 Sample.mixed_reached
                    ++ skipn 4 Sample.mixed_reached)%list ->
             isCodeFile (c_name c') = true -> readable c' = true).
  { intros c' Hin _. vm_compute in Hin.
    repeat (destruct Hin as [<-|Hin]; [vm_compute; reflexivity|]).
    contradiction. }
  repeat (split; [first [exact Hd | exact Hl | exact Hr | exact Hc | exact Hb
                        | vm_compute; reflexivity]|]).
  destruct (@C9_unreadable_file_isolated Sample.mixed Sample.scanner
              Sample.mixed_root (firstn 3 Sample.mixed_reached)
              (skipn 4 Sample.mixed_reached) Sample.mixed_secret
              Hd Hl Hr Hc Hb Ho) as (g & s' & Hrun & Hn & _ & Hin).
  exists g, s'. split; [exact Hrun|]. split; [| exact Hin].
  rewrite Hn. vm_compute. reflexivity.
Defined.

(* ================================================================== *)
(** * Further properties of the scanner *)
(* ================================================================== *)

(** ** The preview of a file *)

Lemma join_split sep s :
  Js.join (String sep EmptyString) (Js.split sep s) = s.
Proof.
  induction s as [|c s IH]; cbn [Js.split]; [reflexivity|].
  pose proof (split_nonempty sep s) as Hne.
  destruct (Ascii.eqb_spec c sep) as [->|Hc].
  - destruct (Js.split sep s) as [|h t]; [contradiction|].
    change (Js.join (String sep "") ("" :: h :: t))
      with (String sep (Js.join (String sep "") (h :: t))).
    now rewrite IH.
  - destruct (Js.split sep s) as [|h [|h' t]]; [contradiction| |].
    + cbn [Js.join] in *. now rewrite IH.
    + change (Js.join (String sep "") (String c h :: h' :: t))
        with (String c (Js.join (String sep "") (h :: h' :: t))).
      now rewrite IH.
Qed.

Lemma split_lacks sep s : lacks sep s = true -> Js.split sep s = [s].
Proof.
  induction s as [|c s IH]; cbn [lacks Js.split]; [reflexivity|].
  intros H. apply andb_true_iff in H. destruct H as [Hc Hs].
  apply negb_true_iff in Hc. rewrite Hc, (IH Hs). reflexivity.
Qed.

Lemma split_all_lack sep s :
  Forall (fun x => lacks sep x = true) (Js.split sep s).
Proof.
  induction s as [|c s IH]; cbn [Js.split].
  - repeat constructor.
  - destruct (Ascii.eqb c sep) eqn:Hc.
    + constructor; [reflexivity | exact IH].
    + destruct (Js.split sep s) as [|h t];
        [repeat constructor; cbn; now rewrite Hc|].
      inversion IH; subst. constructor; [|assumption].
      cbn [lacks]. rewrite Hc. assumption.
Qed.

Lemma split_append_at sep a b :
  Js.split sep (a ++ String sep b) = (Js.split sep a ++ Js.split sep b)%list.
Proof.
  induction a as [|c a IH]; cbn [String.append Js.split].
  - now rewrite Ascii.eqb_refl.
  - destruct (Ascii.eqb c sep); rewrite IH; [reflexivity|].
    pose proof (split_nonempty sep a) as Hne.
    destruct (Js.split sep a) as [|h t]; [contradiction | reflexivity].
Qed.

Lemma split_join_at sep L :
  L <> [] -> Forall (fun x => lacks sep x = true) L ->
  Js.split sep (Js.join (String sep EmptyString) L) = L.
Proof.
  induction L as [|x [|y rest] IH]; intros Hne HF.
  - contradiction.
  - inversion HF; subst. now apply split_lacks.
  - inversion HF; subst.
    change (Js.join (String sep "") (x :: y :: rest))
      with (x ++ String sep (Js.join (String sep "") (y :: rest))).
    rewrite split_append_at, IH; [| discriminate | assumption].
    now rewrite split_lacks.
Qed.

Lemma startsWith_refl s : Js.startsWith s s = true.
Proof.
  induction s as [|c s IH]; cbn [Js.startsWith]; [reflexivity|].
  now rewrite Ascii.eqb_refl, IH.
Qed.

Lemma startsWith_self_append s t : Js.startsWith (s ++ t) s = true.
Proof. apply startsWith_append, startsWith_refl. Qed.

Lemma startsWith_append_both p a b :
  Js.startsWith b a = true -> Js.startsWith (p ++ b) (p ++ a) = true.
Proof.
  intros H. induction p as [|c p IH]; cbn [String.append Js.startsWith];
    [exact H | now rewrite Ascii.eqb_refl, IH].
Qed.

Lemma join_firstn_prefix sep L : forall k,
  Js.startsWith (Js.join sep L) (Js.join sep (firstn k L)) = true.
Proof.
  induction L as [|x L IH]; intros k.
  - destruct k; reflexivity.
  - destruct k as [|k]; [reflexivity|]. cbn [firstn].
    destruct L as [|y L].
    + destruct k; cbn [firstn Js.join]; apply startsWith_refl.
    + specialize (IH k).
      change (Js.join sep (x :: y :: L)) with (x ++ sep ++ Js.join sep (y :: L)).
      destruct k as [|k].
      * cbn [firstn]. change (Js.join sep [x]) with x.
        apply startsWith_self_append.
      * cbn [firstn] in *.
        change (Js.join sep (x :: y :: firstn k L))
          with (x ++ sep ++ Js.join sep (y :: firstn k L)).
        now apply startsWith_append_both, startsWith_append_both.
Qed.

Lemma first_lines_spec sep k content :
  0 < k ->
  let lines := Js.split sep in
  let cut := Js.join (String sep EmptyString) (firstn k (lines content)) in
  Js.startsWith content cut = true
  /\ lines cut = firstn k (lines content)
  /\ List.length (lines cut) = Nat.min k (List.length (lines content))
  /\ Js.join (String sep EmptyString) (firstn k (lines cut)) = cut
  /\ (if Nat.leb (List.length (lines content)) k
      then cut = content
      else List.length (lines cut) = k).
Proof.
  intros Hk lines cut.
  assert (Hlines : lines cut = firstn k (lines content)).
  { apply split_join_at.
    - pose proof (split_nonempty sep content) as Hne. unfold lines.
      destruct (Js.split sep content); [contradiction|].
      destruct k; [lia | discriminate].
    - apply Forall_forall. intros x Hx.
      assert (Hin : In x (lines content)).
      { rewrite <- (firstn_skipn k (lines content)). apply in_or_app. now left. }
      clear Hx. rename Hin into Hx.
      pose proof (split_all_lack sep content) as HF.
      rewrite Forall_forall in HF. now apply HF. }
  split.
  { rewrite <- (join_split sep content) at 1. apply join_firstn_prefix. }
  split; [exact Hlines|].
  split; [rewrite Hlines; apply length_firstn|].
  split.
  { rewrite Hlines, firstn_firstn, Nat.min_id. reflexivity. }
  destruct (Nat.leb_spec (List.length (lines content)) k) as [Hle|Hgt].
  - unfold cut. rewrite firstn_all2 by exact Hle. apply join_split.
  - rewrite Hlines, length_firstn. lia.
Qed.

(** X1.  The preview is at most the first ten lines: it is a prefix of
    the content, it has as many lines as the content up to ten, taking
    it twice changes nothing, and a content of at most ten lines is
    its own preview. *)
Theorem X1_preview_first_ten_lines (content : string) :
  let lines := Js.split (ascii_of_nat 10) in
  Js.startsWith content (previewOf content) = true
  /\ lines (previewOf content) = firstn 10 (lines content)
  /\ List.length (lines (previewOf content))
     = Nat.min 10 (List.length (lines content))
  /\ previewOf (previewOf content) = previewOf content
  /\ (if Nat.leb (List.length (lines content)) 10
      then previewOf content = content
      else List.length (lines (previewOf content)) = 10).
Proof.
  cbv zeta. apply first_lines_spec. lia.
Qed.

(** ** When a scan resolves *)

Section ThrownErrors.

Variable w : fs.world.
Variable root : string.
Variable ignores : string -> bool.

Let E := emptyScanner root ignores.

Lemma only_scandir_seq c1 c2 :
  appender c1 -> appender c2 ->
  only_scandir root ignores c1 -> only_scandir root ignores c2 ->
  only_scandir root ignores (bind c1 (fun _ => c2)).
Proof.
  intros A1 A2 H1 H2 e. unfold only_scandir in *.
  change (emptyScanner root ignores) with (blank E) in H1, H2 |- *.
  rewrite (bind_blank (fun _ => c2) E A1 (fun _ => A2)).
  destruct (c1 (blank E)) as [[[]|e1] b1] eqn:R1; cbn [fst].
  - apply H2.
  - intros [= <-]. apply H1. reflexivity.
Qed.

Lemma only_scandir_scanDirectory d :
  forall dir, only_scandir root ignores (scanDirectory w dir d).
Proof.
  induction d as [sz data | r | l es IH] using fs.node_rect'; intros dir.
  - intros e H. cbn in H. injection H as <-. reflexivity.
  - intros e H. cbn in H. injection H as <-. reflexivity.
  - destruct l; [| intros e H; cbn in H; injection H as <-; reflexivity].
    induction es as [|[entryName entry] rest IHrest].
    + intros e H. discriminate H.
    + inversion IH as [|? ? Hentry Hrest]; subst. simpl in Hentry.
      rewrite scanDirectory_cons. apply only_scandir_seq.
      * apply appender_scanEntry.
      * apply appender_scanDirectory.
      * intros e.
        assert (Hrun : scanEntry w dir entryName entry E =
          (let fullPath := path.join dir entryName in
           let relativePath := path.relative (fs.cwd w) root fullPath in
           if skipped ignores entryName relativePath then ret tt
           else if fs.isDirectory entry then scanDirectory w fullPath entry
           else if fs.isFile entry then
             (if isCodeFile entryName
              then processFile w entry fullPath relativePath entryName
              else ret tt)
           else ret tt) E) by reflexivity.
        unfold only_scandir in Hentry. fold E in Hentry |- *.
        rewrite Hrun. clear Hrun. cbv zeta.
        destruct (skipped ignores entryName _); [discriminate|].
        destruct (fs.isDirectory entry); [apply Hentry|].
        destruct (fs.isFile entry); [|discriminate].
        destruct (isCodeFile entryName); [|discriminate].
        destruct (processFile_blank w root ignores entry
                    (path.join dir entryName)
                    (path.relative (fs.cwd w) root (path.join dir entryName))
                    entryName) as (R & _).
        fold E in R. rewrite R. discriminate.
      * apply IHrest. exact Hrest.
Qed.

End ThrownErrors.

(** X2.  A scan resolves exactly when the root names a directory and
    every directory that the walk enters can be listed; it then
    resolves to the graph of the walk.  Whatever it rejects with is
    the error of a [readdir]: no error of [stat] or [readFile]
    leaves [scan]. *)
Theorem X2_scan_resolves_iff_listable (w : fs.world) (this : ProjectScanner) :
  ((exists g, fst (scan w this) = Returned g)
   <-> exists d,
         fs.opendir w (workspaceRoot this) = Some d
         /\ listable w (workspaceRoot this) (ig this) (workspaceRoot this) d
            = true)
  /\ (forall d,
        fs.opendir w (workspaceRoot this) = Some d ->
        listable w (workspaceRoot this) (ig this) (workspaceRoot this) d = true ->
        fst (scan w this)
        = Returned (graphOf w (workspaceRoot this) (ig this) d))
  /\ (forall e, fst (scan w this) = Thrown e -> syscall e = "scandir").
Proof.
  split; [split|split].
  - intros [g Hg]. destruct (scan w this) as [r s'] eqn:Hrun.
    cbn [fst] in Hg. subst r.
    destruct (scan_returned_inv w this Hrun) as (d & Hd & Hl & _). eauto.
  - intros (d & Hd & Hl). rewrite (scan_returns w this Hd Hl). eauto.
  - intros d Hd Hl. apply (scan_returns w this Hd Hl).
  - intros e. rewrite scan_from_blank. cbn [fst].
    rewrite scanWorkspace_blank.
    destruct (fs.opendir w (workspaceRoot this)) as [d|].
    + pose proof (only_scandir_scanDirectory w (workspaceRoot this) (ig this)
                    d (workspaceRoot this) e) as H.
      destruct (scanDirectory w (workspaceRoot this) d
                  (emptyScanner (workspaceRoot this) (ig this)))
        as [[[]|e'] b]; cbn [fst] in *; [discriminate|].
      intros [= <-]. now apply H.
    + cbn [fst]. intros [= <-]. reflexivity.
Qed.

(** ** The way to a Node *)

Section WalkTrail.

Variable w : fs.world.
Variable root : string.
Variable ignores : string -> bool.
Hypothesis root_absolute : path.isAbsolute root = true.

(** What is known of a reached file: the entry names [names] that
    lead to it from the directory of the walk. *)
Definition trailed (X : list string) (c : candidate) (names : list string)
  : Prop :=
  names <> []
  /\ Forall (fun x => plain x = true) names
  /\ c_relativePath c = Js.join "/" (X ++ names)%list
  /\ passes ignores X names = true
  /\ last names "" = c_name c
  /\ exists dir', path.isAbsolute dir' = true
                  /\ c_fullPath c = path.join dir' (c_name c).

Lemma reachedEntry_trailed dir X n e :
  path.isAbsolute dir = true ->
  segments dir = (segments root ++ X)%list ->
  plain n = true ->
  (forall dir' X',
      path.isAbsolute dir' = true ->
      segments dir' = (segments root ++ X')%list ->
      forall c, In c (reached w root ignores dir' e) ->
        exists names, trailed X' c names) ->
  forall c, In c (reachedEntry w root ignores dir n e) ->
    exists names', trailed X c (n :: names').
Proof.
  intros Hd Hs Hn IH c Hc. unfold reachedEntry in Hc. cbv zeta in Hc.
  destruct (join_entry root dir X n Hd Hs Hn) as [A S].
  assert (Hrel : path.relative (fs.cwd w) root (path.join dir n)
                 = Js.join "/" (X ++ [n])%list).
  { apply (relative_below w root root_absolute); [exact A | exact S |].
    destruct X; discriminate. }
  rewrite Hrel in Hc.
  destruct (skipped ignores n (Js.join "/" (X ++ [n])%list)) eqn:Hskip;
    [contradiction|].
  destruct (fs.isDirectory e).
  - destruct (IH _ _ A S c Hc) as (names & Hne & HF & Hr & Hp & Hlast & Hfull).
    exists names. unfold trailed. repeat split.
    + discriminate.
    + constructor; assumption.
    + rewrite Hr, <- app_assoc. reflexivity.
    + cbn [passes]. now rewrite Hskip, Hp.
    + destruct names; [contradiction | exact Hlast].
    + exact Hfull.
  - destruct (fs.isFile e); [|contradiction].
    destruct Hc as [<-|[]]. exists []. unfold trailed.
    cbn [c_relativePath c_fullPath c_name last passes].
    repeat split.
    + discriminate.
    + repeat constructor. exact Hn.
    + now rewrite Hskip.
    + exists dir. auto.
Qed.

Lemma reached_trailed d :
  forall dir X,
    path.isAbsolute dir = true ->
    segments dir = (segments root ++ X)%list ->
    wellFormed d = true ->
    forall c, In c (reached w root ignores dir d) ->
      exists names, trailed X c names.
Proof.
  induction d as [sz data | r | l es IH] using fs.node_rect';
    intros dir X Hd Hs Hwf c Hc; try contradiction.
  induction es as [|[n e] rest IHrest]; [contradiction|].
  inversion IH as [|? ? Hentry Hrest]; subst. cbn [snd] in Hentry.
  destruct (wellFormed_cons _ _ _ _ Hwf) as (Hn & Hwe & Hnotin & Hwr).
  rewrite reached_cons in Hc. apply in_app_or in Hc. destruct Hc as [Hc|Hc].
  - destruct (reachedEntry_trailed dir X n e Hd Hs Hn) with (c := c)
      as (names' & HT); [|exact Hc|eauto].
    intros dir' X' Hd' Hs' c' Hc'. now apply (Hentry dir' X' Hd' Hs' Hwe).
  - exact (IHrest Hrest Hwr Hc).
Qed.

End WalkTrail.

Lemma passes_each ignores names : forall X,
  passes ignores X names = true ->
  Forall (fun seg => Js.includes skippedNames seg = false
                     /\ (Js.startsWith seg "." = true -> seg = ".gitignore"))
         names.
Proof.
  induction names as [|n rest IH]; intros X H; [constructor|].
  cbn [passes] in H. apply andb_true_iff in H. destruct H as [Hn Hrest].
  constructor; [| now apply (IH (X ++ [n])%list)].
  apply negb_true_iff in Hn. unfold skipped in Hn.
  apply orb_false_iff in Hn. destruct Hn as [Hn _].
  apply orb_false_iff in Hn. destruct Hn as [Hdot Hdeny].
  split; [exact Hdeny|]. intros Hstart. rewrite Hstart in Hdot.
  cbn [andb] in Hdot. apply negb_false_iff in Hdot.
  now apply String.eqb_eq.
Qed.

Lemma includes_false_not_In l x : Js.includes l x = false -> ~ In x l.
Proof.
  unfold Js.includes. intros H Hin.
  assert (E : existsb (String.eqb x) l = true).
  { apply existsb_exists. exists x. split; [exact Hin | apply String.eqb_refl]. }
  congruence.
Qed.

Lemma passes_prefixes ignores names : forall X k,
  passes ignores X names = true ->
  1 <= k <= List.length names ->
  ignores (Js.join "/" (X ++ firstn k names)%list) = false.
Proof.
  induction names as [|n rest IH]; intros X k H Hk;
    cbn [List.length] in Hk; [lia|].
  cbn [passes] in H. apply andb_true_iff in H. destruct H as [Hn Hrest].
  destruct k as [|k]; [lia|]. cbn [firstn].
  destruct k as [|k].
  - cbn [firstn]. apply negb_true_iff in Hn. unfold skipped in Hn.
    apply orb_false_iff in Hn. tauto.
  - assert (Hk' : 1 <= S k <= List.length rest) by lia.
    specialize (IH (X ++ [n])%list (S k) Hrest Hk').
    rewrite <- app_assoc in IH. exact IH.
Qed.

(** X3.  No Node lies on a skipped path.  Under an absolute root and
    well-formed listings, the id of every Node of a returned graph is
    a slash-separated list of plain entry names; every directory on
    the way and the file itself passed the dotfile rule, the denylist
    and the ignore rules: no segment is [node_modules], [dist], [out],
    [build], [target] or [vendor], none begins with a dot but
    [.gitignore], and the rules ignore neither the id nor the path of
    a directory above the file; the name of the Node is the last
    segment. *)
Theorem X3_node_ids_avoid_skipped_paths (w : fs.world) (this : ProjectScanner)
    (g : types.GraphData) (s' : ProjectScanner) (d : fs.node) :
  scan w this = (Returned g, s') ->
  path.isAbsolute (workspaceRoot this) = true ->
  fs.opendir w (workspaceRoot this) = Some d ->
  wellFormed d = true ->
  forall n, In n (types.nodes g) ->
    let segs := Js.split "/" (types.id n) in
    Forall (fun x => plain x = true) segs
    /\ passes (ig this) [] segs = true
    /\ Forall (fun seg =>
                 ~ In seg ["node_modules"; "dist"; "out"; "build"; "target";
                           "vendor"]
                 /\ (forall rest, seg = String "." rest -> seg = ".gitignore"))
              segs
    /\ (forall k, 1 <= k <= List.length segs ->
          ig this (Js.join "/" (firstn k segs)) = false)
    /\ last segs "" = types.name n
    /\ ig this (types.id n) = false.
Proof.
  intros Hrun Habs Hd Hwf n Hn segs.
  destruct (scan_returned_inv w this Hrun) as (d' & Hd' & _ & ->).
  rewrite Hd in Hd'. injection Hd' as <-.
  apply graphOf_node_inv in Hn. destruct Hn as (c & Hc & _ & ->).
  destruct (reached_trailed w (workspaceRoot this) (ig this) Habs d
              (workspaceRoot this) [] Habs) with (c := c)
    as (names & Hne & HF & Hrel & Hp & Hlast & _); auto.
  { now rewrite app_nil_r. }
  cbn [app] in Hrel.
  assert (Hsegs : segs = names).
  { unfold segs. cbn [nodeOf types.id]. rewrite Hrel.
    apply split_join; [exact Hne|].
    eapply Forall_impl; [| exact HF]. apply plain_slashFree. }
  rewrite Hsegs. cbn [nodeOf types.name types.id].
  split; [exact HF|]. split; [exact Hp|]. split; [|split; [|split]].
  - pose proof (passes_each (ig this) names [] Hp) as HE.
    eapply Forall_impl; [|exact HE]. intros seg [Hdeny Hdot]. split.
    + exact (includes_false_not_In skippedNames seg Hdeny).
    + intros rest E. apply Hdot. rewrite E. reflexivity.
  - intros k Hk. exact (passes_prefixes (ig this) names [] k Hp Hk).
  - exact Hlast.
  - rewrite Hrel. rewrite <- (firstn_all names).
    apply (passes_prefixes (ig this) names [] (List.length names) Hp).
    destruct names; [contradiction | cbn [List.length]; lia].
Qed.

(** ** Opening a Node *)

(** X4.  A click opens the scanned file.  Under an absolute root and
    well-formed listings, [_openFile] on the id of a Node of the graph
    of a scan, with the scanned root as first workspace folder, opens
    a path that names a regular file with the size of the Node and
    with a content whose preview is the preview of the Node. *)
Theorem X4_open_file_finds_scanned_file (w : fs.world) (this : ProjectScanner)
    (g : types.GraphData) (s' : ProjectScanner) (d : fs.node)
    (others : list string) :
  scan w this = (Returned g, s') ->
  path.isAbsolute (workspaceRoot this) = true ->
  fs.opendir w (workspaceRoot this) = Some d ->
  wellFormed d = true ->
  forall n, In n (types.nodes g) ->
    exists fullPath content,
      GraphPanel._openFile (Some (workspaceRoot this :: others)) (types.id n)
      = GraphPanel.OpenTextDocument fullPath
      /\ fs.at_path w fullPath
         = Some (fs.File (Some (types.size n)) (Some content))
      /\ types.preview n = previewOf content.
Proof.
  intros Hrun Habs Hd Hwf n Hn.
  destruct (scan_returned_inv w this Hrun) as (d' & Hd' & _ & ->).
  rewrite Hd in Hd'. injection Hd' as <-.
  apply graphOf_node_inv in Hn. destruct Hn as (c & Hc & Hacc & ->).
  destruct (reached_located w (workspaceRoot this) (ig this) Habs d
              (workspaceRoot this) [] Habs) with (c := c)
    as (names & Hne & HF & Hrel & _ & _ & Hlook); auto.
  { now rewrite app_nil_r. }
  cbn [app] in Hrel.
  unfold accepted in Hacc. apply andb_true_iff in Hacc.
  destruct Hacc as [_ Hread]. unfold readable in Hread.
  destruct (c_entry c) as [sz data | l es | r] eqn:Hentry;
    cbn [fs.stat fs.readFile] in Hread; try discriminate.
  destruct sz as [sz|]; [|discriminate].
  destruct data as [content|]; [|discriminate].
  exists (path.join (workspaceRoot this) (c_relativePath c)), content.
  split; [reflexivity|].
  cbn [nodeOf types.size types.preview]. unfold contentOf.
  rewrite Hentry. cbn [fs.stat fs.readFile].
  split; [|reflexivity].
  destruct (join_absolute (workspaceRoot this) (c_relativePath c) Habs)
    as [A S].
  rewrite (at_path_absolute w _ A), S, Hrel.
  rewrite split_join;
    [| exact Hne | eapply Forall_impl; [| exact HF]; apply plain_slashFree].
  rewrite (normalizeSegs_plain _ HF), rev_involutive, lookup_app.
  unfold fs.opendir in Hd.
  rewrite (isAbsolute_nonempty _ Habs) in Hd.
  rewrite (at_path_absolute w _ Habs) in Hd. rewrite Hd. exact Hlook.
Qed.

(** ** The extension the parser sees *)

Lemma lastPortion_unfold p :
  path.lastPortion p
  = rev (takeToSlash (path.dropWhileSlash (rev (list_ascii_of_string p)))).
Proof. reflexivity. Qed.

Lemma list_ascii_of_string_append a b :
  list_ascii_of_string (a ++ b)
  = (list_ascii_of_string a ++ list_ascii_of_string b)%list.
Proof.
  induction a as [|c a IH]; cbn [String.append list_ascii_of_string app];
    [reflexivity | now rewrite IH].
Qed.

Lemma slashFree_chars s :
  slashFree s = true ->
  Forall (fun c => Ascii.eqb c "/"%char = false) (list_ascii_of_string s).
Proof.
  induction s as [|c s IH]; cbn [slashFree list_ascii_of_string];
    [constructor|].
  intros H. apply andb_true_iff in H. destruct H as [Hc Hs].
  constructor; [now apply negb_true_iff | now apply IH].
Qed.

Lemma takeToSlash_stops r rest :
  Forall (fun c => Ascii.eqb c "/"%char = false) r ->
  takeToSlash (r ++ "/"%char :: rest) = r /\ takeToSlash r = r.
Proof.
  induction 1 as [|c r Hc _ IH]; cbn [app takeToSlash].
  - auto.
  - rewrite Hc. destruct IH as [-> ->]. auto.
Qed.

Lemma dropWhileSlash_keeps r rest :
  r <> [] ->
  Forall (fun c => Ascii.eqb c "/"%char = false) r ->
  path.dropWhileSlash (r ++ rest) = (r ++ rest)%list.
Proof.
  intros Hne HF. destruct r as [|c r]; [contradiction|].
  inversion HF as [|? ? Hc _]; subst. cbn [app path.dropWhileSlash].
  now rewrite Hc.
Qed.

Lemma plain_chars_rev n :
  plain n = true ->
  rev (list_ascii_of_string n) <> []
  /\ Forall (fun c => Ascii.eqb c "/"%char = false)
            (rev (list_ascii_of_string n)).
Proof.
  intros Hn. split.
  - destruct n as [|c n]; [discriminate Hn|].
    cbn [list_ascii_of_string rev].
    destruct (rev (list_ascii_of_string n)); discriminate.
  - apply Forall_rev, slashFree_chars, plain_slashFree, Hn.
Qed.

(** The last portion of a path that ends in a slash and a plain name
    is that name. *)
Lemma lastPortion_entry Q n :
  plain n = true ->
  path.lastPortion (Q ++ String "/" n) = list_ascii_of_string n
  /\ path.lastPortion n = list_ascii_of_string n
  /\ Js.endsWithSlash (Q ++ String "/" n) = false.
Proof.
  intros Hn. destruct (plain_chars_rev n Hn) as [Hne HF].
  rewrite !lastPortion_unfold. unfold Js.endsWithSlash.
  rewrite list_ascii_of_string_append. cbn [list_ascii_of_string].
  rewrite rev_app_distr. cbn [rev]. rewrite <- app_assoc. cbn [app].
  rewrite (dropWhileSlash_keeps _ _ Hne HF).
  destruct (takeToSlash_stops _ (rev (list_ascii_of_string Q)) HF) as [T1 T2].
  rewrite T1. split; [apply rev_involutive|]. split.
  - rewrite <- (app_nil_r (rev (list_ascii_of_string n))) at 1.
    rewrite (dropWhileSlash_keeps _ _ Hne HF), app_nil_r, T2.
    apply rev_involutive.
  - destruct (rev (list_ascii_of_string n)) as [|c r]; [contradiction|].
    inversion HF; subst. assumption.
Qed.

Lemma join_snoc S n :
  Js.join "/" (S ++ [n])%list
  = match S with
    | [] => n
    | _ => Js.join "/" S ++ String "/" n
    end.
Proof.
  induction S as [|x [|y S] IH]; try reflexivity.
  change (Js.join "/" ((x :: y :: S) ++ [n])%list)
    with (x ++ String "/" (Js.join "/" ((y :: S) ++ [n])%list)).
  rewrite IH. rewrite join_cons, append_assoc. reflexivity.
Qed.

(** [path.join] of an absolute directory and a plain name ends in a
    slash and the name. *)
Lemma join_entry_string dir n :
  path.isAbsolute dir = true -> plain n = true ->
  exists Q, path.join dir n = Q ++ String "/" n.
Proof.
  intros Hd Hn. unfold path.join.
  rewrite (isAbsolute_nonempty dir Hd).
  destruct (plain_not_special n Hn) as (E1 & _ & _). rewrite E1.
  change (dir ++ "/" ++ n) with (dir ++ String "/" n).
  unfold path.normalize.
  rewrite (isAbsolute_nonempty _ (isAbsolute_append dir _ Hd)).
  rewrite (isAbsolute_append dir _ Hd). cbn [negb].
  destruct (lastPortion_entry dir n Hn) as (_ & _ & Hends). rewrite Hends.
  unfold path.normalizeString. fold (segments (dir ++ String "/" n)).
  assert (Hseg : segments (dir ++ String "/" n) = (segments dir ++ [n])%list).
  { unfold segments. rewrite split_append_sep, normalizeSegs_app.
    rewrite (split_slashFree n (plain_slashFree n Hn)).
    rewrite normalizeSegs_plain by (repeat constructor; exact Hn).
    now rewrite rev_involutive. }
  rewrite Hseg, join_snoc.
  destruct (segments dir) as [|x S] eqn:HS.
  - rewrite E1. exists "". reflexivity.
  - match goal with |- context [String.eqb ?q ""] =>
      destruct (String.eqb_spec q "") as [Hq|_] end.
    + exfalso. destruct (Js.join "/" (x :: S)); discriminate Hq.
    + exists ("/" ++ Js.join "/" (x :: S)).
      now rewrite append_assoc.
Qed.

(** The extension of the full path of an entry is the extension of
    its name: the parser and the filter look at the same extension. *)
Lemma extname_join dir n :
  path.isAbsolute dir = true -> plain n = true ->
  path.extname (path.join dir n) = path.extname n.
Proof.
  intros Hd Hn. destruct (join_entry_string dir n Hd Hn) as [Q ->].
  unfold path.extname.
  destruct (lastPortion_entry Q n Hn) as (-> & -> & _). reflexivity.
Qed.

(** ** Which files have outgoing Links *)

Lemma importPaths_unparsed ext content :
  Js.includes parsedExtensions ext = false -> importPaths ext content = [].
Proof.
  unfold parsedExtensions, importPaths, Js.includes. cbn [existsb].
  intros H. repeat (apply orb_false_iff in H; destruct H as [? H]).
  repeat match goal with E : String.eqb _ _ = false |- _ =>
    rewrite E; clear E end.
  reflexivity.
Qed.

Lemma parse_unparsed w content filePath rid this :
  Js.includes parsedExtensions (Js.toLowerCase (path.extname filePath)) = false ->
  parseDependenciesFromContent w content filePath rid this = (Returned tt, this).
Proof.
  intros H. unfold parseDependenciesFromContent.
  rewrite (importPaths_unparsed _ content H). reflexivity.
Qed.

(** The Links of a Python file go to files named by one run of word
    characters and [.py]. *)
Definition python_target (l : types.Link) : Prop :=
  exists c t,
    allChars word (String c t) = true
    /\ types.target l = String c t ++ ".py"
    /\ slashFree (types.target l) = true.

Lemma word_slashFree p : allChars word p = true -> slashFree (p ++ ".py") = true.
Proof.
  induction p as [|c p IH]; cbn [allChars String.append slashFree];
    [reflexivity|].
  intros H. apply andb_true_iff in H. destruct H as [Hc Hp].
  rewrite (IH Hp), andb_true_r. apply negb_true_iff.
  destruct (Ascii.eqb_spec c "/") as [->|_]; [discriminate Hc | reflexivity].
Qed.

Lemma forEach_python_links w dir rid l :
  Forall (fun ip => forall p, ip = Some p ->
                      p = "" \/ allChars word p = true) l ->
  forall this,
    Forall python_target (links this) ->
    Forall python_target
      (links (snd (forEach (resolveImport w dir ".py" rid) l this))).
Proof.
  induction 1 as [|ip rest Hip _ IH]; intros this Hthis; cbn [forEach].
  - exact Hthis.
  - unfold bind.
    destruct ip as [[|c t]|].
    + cbn [resolveImport ret]. apply IH. exact Hthis.
    + destruct (Hip _ eq_refl) as [Hempty|Hw]; [discriminate|].
      assert (Hc : word c = true).
      { cbn [allChars] in Hw. apply andb_true_iff in Hw. tauto. }
      rewrite (resolveImport_python w dir rid c t this
                 (startsWith_dot_word c t Hc)).
      apply IH. cbn [links]. apply Forall_app. split; [exact Hthis|].
      destruct (fs.existsSync w _); constructor; [|constructor].
      exists c, t. cbn [types.target].
      rewrite (replaceDots_words _ Hw).
      split; [exact Hw|]. split; [reflexivity|]. now apply word_slashFree.
    + cbn [resolveImport ret]. apply IH. exact Hthis.
Qed.

Lemma parse_python_links w content filePath rid this :
  Js.toLowerCase (path.extname filePath) = ".py" ->
  Forall python_target (links this) ->
  Forall python_target
    (links (snd (parseDependenciesFromContent w content filePath rid this))).
Proof.
  intros Hext Hthis. unfold parseDependenciesFromContent, try_catch.
  rewrite Hext.
  pose proof (forEach_python_links w (path.dirname filePath) rid
                (importPaths ".py" content)) as H.
  match goal with |- context [forEach ?f ?l this] =>
    destruct (forEach f l this) as [[[]|e] s1] eqn:Hrun end;
    cbn [snd]; change s1 with (snd (Returned tt, s1)) || idtac.
  - rewrite <- Hrun. cbn [snd]. apply H; [|exact Hthis].
    apply Forall_forall. intros ip Hin p ->. right.
    destruct (python_import_paths_are_words content p Hin) as (c & t & -> & Hw).
    exact Hw.
  - assert (Hs : s1 = snd (forEach (resolveImport w (path.dirname filePath)
                                     ".py" rid) (importPaths ".py" content) this))
      by now rewrite Hrun.
    rewrite Hs. apply H; [|exact Hthis].
    apply Forall_forall. intros ip Hin p ->. right.
    destruct (python_import_paths_are_words content p Hin) as (c & t & -> & Hw).
    exact Hw.
Qed.

(** X5.  Which files have Links, and where Python Links go.  Under an
    absolute root and well-formed listings, every Link of a returned
    graph starts at a Node whose lower-cased type is one of [.ts],
    [.tsx], [.js], [.jsx], [.css], [.scss], [.py]: a file of another
    kind has no outgoing Link.  When that type is [.py] the target is
    one run of word characters followed by [.py]; it holds no slash,
    so it names a file directly in the root. *)
Theorem X5_link_sources_are_parsed_files (w : fs.world) (this : ProjectScanner)
    (g : types.GraphData) (s' : ProjectScanner) (d : fs.node) :
  scan w this = (Returned g, s') ->
  path.isAbsolute (workspaceRoot this) = true ->
  fs.opendir w (workspaceRoot this) = Some d ->
  wellFormed d = true ->
  forall l, In l (types.links g) ->
    exists n,
      In n (types.nodes g)
      /\ types.id n = types.source l
      /\ Js.includes parsedExtensions (Js.toLowerCase (types.type n)) = true
      /\ (Js.toLowerCase (types.type n) = ".py" ->
          exists c t,
            allChars word (String c t) = true
            /\ types.target l = String c t ++ ".py"
            /\ slashFree (types.target l) = true).
Proof.
  intros Hrun Habs Hd Hwf l Hl.
  destruct (scan_returned_inv w this Hrun) as (d' & Hd' & _ & ->).
  rewrite Hd in Hd'. injection Hd' as <-.
  cbn [graphOf types.links] in Hl.
  apply in_flat_map in Hl. destruct Hl as (c & Hc & Hl).
  pose proof Hc as Hc'. apply filter_In in Hc'. destruct Hc' as [Hreach _].
  destruct (reached_trailed w (workspaceRoot this) (ig this) Habs d
              (workspaceRoot this) [] Habs) with (c := c)
    as (names & Hne & HF & _ & _ & Hlast & dir' & Hdir' & Hfull); auto.
  { now rewrite app_nil_r. }
  assert (Hplain : plain (c_name c) = true).
  { rewrite <- Hlast. rewrite Forall_forall in HF. apply HF.
    clear - Hne. induction names as [|a [|b rest] IH];
      [contradiction | now left | right; apply IH; discriminate]. }
  assert (Hext : path.extname (c_fullPath c) = path.extname (c_name c)).
  { rewrite Hfull. now apply extname_join. }
  exists (nodeOf c). split; [cbn [graphOf types.nodes]; now apply in_map|].
  pose proof (linksOf_emitted w (workspaceRoot this) (ig this) c) as HE.
  rewrite Forall_forall in HE. destruct (HE l Hl) as (Hsrc & _).
  split; [cbn [nodeOf types.id]; now rewrite Hsrc|].
  cbn [nodeOf types.type]. rewrite <- Hext. split.
  - destruct (Js.includes parsedExtensions
                (Js.toLowerCase (path.extname (c_fullPath c)))) eqn:Hp;
      [reflexivity|].
    unfold linksOf in Hl. rewrite (parse_unparsed w _ _ _ _ Hp) in Hl.
    contradiction.
  - intros Hpy.
    pose proof (parse_python_links w (contentOf c) (c_fullPath c)
                  (c_relativePath c)
                  (emptyScanner (workspaceRoot this) (ig this)) Hpy
                  (Forall_nil _)) as HP.
    rewrite Forall_forall in HP. exact (HP l Hl).
Qed.

(** ** Resolving a relative import *)

Lemma probe_config w t exts this :
  workspaceRoot (snd (probe w t exts this)) = workspaceRoot this
  /\ nodes (snd (probe w t exts this)) = nodes this
  /\ links (snd (probe w t exts this)) = links this.
Proof.
  revert this. induction exts as [|x rest IH]; intros this; cbn [probe].
  - cbn. auto.
  - unfold bind. rewrite fileExists_run.
    destruct (fs.existsSync w _); [cbn; auto|].
    destruct (IH (snd (note_probe (t ++ x) this))) as (R & N & L).
    rewrite R, N, L. cbn. auto.
Qed.

(** What [probe] returns: the path itself, or the path with an
    existing candidate appended. *)
Lemma probe_result w t exts : forall this,
  exists t',
    fst (probe w t exts this) = Returned t'
    /\ (t' = t
        \/ exists e, In e exts /\ t' = t ++ e
                     /\ fs.existsSync w (path.join (workspaceRoot this) t') = true).
Proof.
  induction exts as [|x rest IH]; intros this; cbn [probe].
  - exists t. cbn. auto.
  - unfold bind. rewrite fileExists_run.
    destruct (fs.existsSync w (path.join (workspaceRoot this) (t ++ x))) eqn:Hx.
    + exists (t ++ x). cbn. split; [reflexivity|]. right. exists x.
      split; [now left|]. split; [reflexivity | exact Hx].
    + destruct (IH (snd (note_probe (t ++ x) this))) as (t' & R & [->|H]).
      * exists t. auto.
      * destruct H as (e & He & -> & Hex). exists (t ++ e).
        split; [exact R|]. right. exists e.
        split; [now right|]. split; [reflexivity | exact Hex].
Qed.

(** The body of [resolveImport] for a relative import, step by step. *)
Lemma resolveImport_relative_run w dir ext rid c p this :
  Js.startsWith (String c p) "." = true ->
  let root := workspaceRoot this in
  let t := path.relative (fs.cwd w) root
             (path.resolve (fs.cwd w) [dir; String c p]) in
  let s1 := snd (note_probe t this) in
  let step2 := if fs.existsSync w (path.join root t)
               then (Returned t, s1) else probe w t extensions s1 in
  resolveImport w dir ext rid (Some (String c p)) this =
    match step2 with
    | (Returned t', s2) =>
        if Js.startsWith t' ".." then (Returned tt, s2)
        else if fs.existsSync w (path.join (workspaceRoot s2) t')
             then push_link {| types.source := rid; types.target := t' |}
                    (snd (note_probe t' s2))
             else (Returned tt, snd (note_probe t' s2))
    | (Thrown e, s2) => (Thrown e, s2)
    end.
Proof.
  intros Hrel root t s1 step2. unfold resolveImport. rewrite Hrel.
  unfold bind at 1. cbn [this_workspaceRoot]. fold root. fold t.
  unfold bind at 1. rewrite fileExists_run. fold root. fold s1.
  unfold bind at 1. subst step2.
  destruct (fs.existsSync w (path.join root t)); cbn [negb].
  - cbn [ret]. destruct (Js.startsWith t ".."); cbn [negb]; [reflexivity|].
    unfold bind. rewrite fileExists_run.
    destruct (fs.existsSync w _); reflexivity.
  - destruct (probe w t extensions s1) as [[t'|e] s2]; [|reflexivity].
    destruct (Js.startsWith t' ".."); cbn [negb]; [reflexivity|].
    unfold bind. rewrite fileExists_run.
    destruct (fs.existsSync w _); reflexivity.
Qed.

(** X6.  Exact match.  A relative import whose path under the root
    exists and does not leave the root gets a Link to that very path;
    [fileExists] is asked twice for it and no candidate is probed. *)
Theorem X6_relative_import_exact_match (w : fs.world) (dir ext rid : string)
    (c : ascii) (p : string) (this : ProjectScanner) :
  let t := path.relative (fs.cwd w) (workspaceRoot this)
             (path.resolve (fs.cwd w) [dir; String c p]) in
  Js.startsWith (String c p) "." = true ->
  Js.startsWith t ".." = false ->
  fs.existsSync w (path.join (workspaceRoot this) t) = true ->
  let r := resolveImport w dir ext rid (Some (String c p)) this in
  fst r = Returned tt
  /\ links (snd r)
     = (links this ++ [{| types.source := rid; types.target := t |}])%list
  /\ probed (snd r) = (probed this ++ [t; t])%list
  /\ nodes (snd r) = nodes this.
Proof.
  intros t Hrel Hup Hex r. subst r.
  rewrite (resolveImport_relative_run w dir ext rid c p this Hrel). cbv zeta.
  fold t. rewrite Hex, Hup. cbn [note_probe snd workspaceRoot]. rewrite Hex.
  cbn. rewrite <- app_assoc. auto.
Qed.

(** X7.  Extension fallback.  When the path itself does not exist, the
    candidates are probed in the order of the list; the first that
    exists is linked (if it does not leave the root) and no later one
    is probed. *)
Theorem X7_relative_import_first_candidate (w : fs.world) (dir ext rid : string)
    (c : ascii) (p : string) (this : ProjectScanner)
    (pre post : list string) (e : string) :
  let root := workspaceRoot this in
  let t := path.relative (fs.cwd w) root
             (path.resolve (fs.cwd w) [dir; String c p]) in
  Js.startsWith (String c p) "." = true ->
  fs.existsSync w (path.join root t) = false ->
  extensions = (pre ++ e :: post)%list ->
  (forall x, In x pre -> fs.existsSync w (path.join root (t ++ x)) = false) ->
  fs.existsSync w (path.join root (t ++ e)) = true ->
  Js.startsWith (t ++ e) ".." = false ->
  let r := resolveImport w dir ext rid (Some (String c p)) this in
  fst r = Returned tt
  /\ links (snd r)
     = (links this
        ++ [{| types.source := rid; types.target := (t ++ e)%string |}])%list
  /\ probed (snd r)
     = (probed this ++ t :: map (String.append t) (pre ++ [e])
        ++ [(t ++ e)%string])%list.
Proof.
  intros root t Hrel Hno Hexts Hpre He Hup r. subst r.
  rewrite (resolveImport_relative_run w dir ext rid c p this Hrel). cbv zeta.
  fold root. fold t. rewrite Hno, Hexts.
  set (s1 := snd (note_probe t this)).
  destruct (probe_first_existing w t pre e post s1) as (R & P); auto.
  destruct (probe_config w t (pre ++ e :: post) s1) as (Cr & _ & Cl).
  destruct (probe w t (pre ++ e :: post) s1) as [r2 s2].
  cbn [fst snd] in R, P, Cr, Cl. subst r2.
  rewrite Hup, Cr. cbn [s1 note_probe snd workspaceRoot]. fold root. rewrite He.
  cbn [push_link fst snd links probed note_probe].
  rewrite Cl, P. cbn [s1 note_probe snd links probed].
  split; [reflexivity|]. split; [reflexivity|].
  rewrite <- !app_assoc. reflexivity.
Qed.

(** X8.  Unresolved import.  When neither the path nor any candidate
    exists, the import is dropped without error: no Link is added,
    and the probes are the path, the eight candidates in order and,
    unless it leaves the root, the path once more. *)
Theorem X8_relative_import_unresolved (w : fs.world) (dir ext rid : string)
    (c : ascii) (p : string) (this : ProjectScanner) :
  let root := workspaceRoot this in
  let t := path.relative (fs.cwd w) root
             (path.resolve (fs.cwd w) [dir; String c p]) in
  Js.startsWith (String c p) "." = true ->
  fs.existsSync w (path.join root t) = false ->
  (forall x, In x extensions ->
             fs.existsSync w (path.join root (t ++ x)) = false) ->
  let r := resolveImport w dir ext rid (Some (String c p)) this in
  fst r = Returned tt
  /\ links (snd r) = links this
  /\ nodes (snd r) = nodes this
  /\ probed (snd r)
     = (probed this ++ t :: map (String.append t) extensions
        ++ (if Js.startsWith t ".." then [] else [t]))%list.
Proof.
  intros root t Hrel Hno Hall r. subst r.
  rewrite (resolveImport_relative_run w dir ext rid c p this Hrel). cbv zeta.
  fold root. fold t. rewrite Hno.
  set (s1 := snd (note_probe t this)).
  destruct (probe_none w t extensions s1) as (R & P & L); auto.
  destruct (probe_config w t extensions s1) as (Cr & Cn & _).
  destruct (probe w t extensions s1) as [r2 s2].
  cbn [fst snd] in R, P, L, Cr, Cn. subst r2.
  destruct (Js.startsWith t "..").
  - cbn [fst snd]. rewrite L, P, Cn. cbn [s1 note_probe snd links probed nodes].
    rewrite app_nil_r, <- app_assoc. auto.
  - rewrite Cr. cbn [s1 note_probe snd workspaceRoot]. fold root. rewrite Hno.
    cbn [fst snd note_probe links probed nodes]. rewrite L, P, Cn.
    cbn [s1 note_probe snd links probed nodes].
    rewrite <- !app_assoc. auto.
Qed.

(** X9.  The index candidates are never taken.  Under an absolute
    root, a Link that a relative import adds goes to the path itself
    or to the path with one of the six file extensions: what exists
    at [t/index.ts] or [t/index.js] lies in a directory [t] for which
    [fileExists] has already answered. *)
Theorem X9_index_candidates_never_linked (w : fs.world) (dir ext rid : string)
    (c : ascii) (p : string) (this : ProjectScanner) :
  let t := path.relative (fs.cwd w) (workspaceRoot this)
             (path.resolve (fs.cwd w) [dir; String c p]) in
  path.isAbsolute (workspaceRoot this) = true ->
  Js.startsWith (String c p) "." = true ->
  let r := resolveImport w dir ext rid (Some (String c p)) this in
  links (snd r) = links this
  \/ exists target,
       links (snd r)
       = (links this ++ [{| types.source := rid; types.target := target |}])%list
       /\ In target
            (t :: map (String.append t)
                    [".ts"; ".tsx"; ".js"; ".jsx"; ".css"; ".scss"]).
Proof.
  intros t Habs Hrel r. subst r.
  rewrite (resolveImport_relative_run w dir ext rid c p this Hrel). cbv zeta.
  fold t. set (root := workspaceRoot this) in *.
  set (s1 := snd (note_probe t this)).
  destruct (fs.existsSync w (path.join root t)) eqn:Hex.
  - destruct (Js.startsWith t ".."); [now left|].
    cbn [s1 note_probe snd workspaceRoot]. fold root. rewrite Hex.
    right. exists t. split; [reflexivity | now left].
  - destruct (probe_result w t extensions s1) as (t' & R & Ht').
    destruct (probe_config w t extensions s1) as (Cr & _ & Cl).
    destruct (probe w t extensions s1) as [r2 s2].
    cbn [fst snd] in R, Cr, Cl. subst r2.
    destruct (Js.startsWith t' ".."); [left; exact Cl|].
    rewrite Cr. cbn [s1 note_probe snd workspaceRoot]. fold root.
    destruct (fs.existsSync w (path.join root t')) eqn:Hex'.
    + right. exists t'. cbn [push_link snd links note_probe]. rewrite Cl.
      split; [reflexivity|].
      destruct Ht' as [->|(e & He & -> & _)]; [now left|].
      destruct (index_candidates_unreachable w root t Habs Hex) as [I1 I2].
      right. unfold extensions in He. cbn [In] in He. cbn [map In].
      repeat (destruct He as [<-|He]; [tauto|]).
      destruct He as [<-|He]; [congruence|].
      destruct He as [<-|He]; [congruence | contradiction].
    + left. cbn [snd links note_probe]. exact Cl.
Qed.

(** ** How many imports *)

Lemma matchAt_within r prev s m :
  matchAt r prev s = Some m -> fst m <= String.length s.
Proof.
  intros H. destruct (matchAt_sound _ _ _ H) as (s' & st' & HM & ->).
  destruct (Match_consumes HM) as (t & -> & Hi & _).
  cbn [fst index] in *. rewrite length_append. lia.
Qed.

Lemma execAll_length r :
  1 <= minLen r ->
  forall s prev skip,
    List.length (execAll r prev s skip) <= String.length s - skip.
Proof.
  intros Hmin. induction s as [|c s IH]; intros prev skip.
  - destruct skip; cbn [execAll]; [|cbn; lia].
    destruct (matchAt r prev "") as [m|] eqn:Hm; [|cbn; lia].
    pose proof (matchAt_nonempty _ _ _ Hm).
    pose proof (matchAt_within _ _ _ _ Hm). cbn in *. lia.
  - destruct skip; cbn [execAll String.length].
    + destruct (matchAt r prev (String c s)) as [m|] eqn:Hm.
      * pose proof (matchAt_nonempty _ _ _ Hm).
        pose proof (matchAt_within _ _ _ _ Hm). cbn [String.length] in *.
        specialize (IH (Some c) (fst m - 1)). cbn [List.length]. lia.
      * specialize (IH (Some c) 0). lia.
    + specialize (IH (Some c) skip). lia.
Qed.

(** X10.  The loops over the matches end.  Every match of the three
    expressions is at least one character long, so [lastIndex] moves
    forward at every turn, and a content yields at most as many import
    paths as it has characters; a file of another kind yields none. *)
Theorem X10_import_paths_bounded (ext content : string) :
  List.length (importPaths ext content) <= String.length content
  /\ (forall m r, In r [ecmaImport; cssImport; pyImport] ->
                  In m (matches r content) -> 1 <= fst m)
  /\ (Js.includes parsedExtensions ext = false -> importPaths ext content = []).
Proof.
  destruct scanner_expressions_consume as (He & Hc & Hp).
  split; [| split].
  - unfold importPaths.
    repeat match goal with |- context [if ?b then _ else _] =>
      destruct b end;
      rewrite ?length_map; unfold matches;
      try (etransitivity; [apply execAll_length; assumption | lia]).
    cbn. lia.
  - intros m r Hr Hm. unfold matches in Hm.
    apply execAll_matchAt in Hm. destruct Hm as (prev' & s' & Hm).
    apply matchAt_nonempty in Hm.
    destruct Hr as [<-|[<-|[<-|[]]]]; lia.
  - apply importPaths_unparsed.
Qed.

(** ** The further properties on sample workspaces *)

Lemma mixed_opens : fs.opendir Sample.mixed "/w" = Some Sample.mixed_root.
Proof. vm_compute. reflexivity. Defined.

Lemma mixed_wellFormed : wellFormed Sample.mixed_root = true.
Proof. vm_compute. reflexivity. Defined.

Lemma guarded_run :
  scan Sample.guarded Sample.guard
  = (Returned Sample.guarded_graph, Sample.guarded_after).
Proof. vm_compute. reflexivity. Defined.

Lemma guarded_opens : fs.opendir Sample.guarded "/w" = Some Sample.guarded_root.
Proof. vm_compute. reflexivity. Defined.

Lemma guarded_wellFormed : wellFormed Sample.guarded_root = true.
Proof. vm_compute. reflexivity. Defined.

Lemma X3_node_ids_avoid_skipped_paths_witness :
  wellFormed Sample.guarded_root = true /\
  map types.id (types.nodes Sample.guarded_graph) = ["src/a.ts"; "out.ts"] /\
  forall n, In n (types.nodes Sample.guarded_graph) ->
    let segs := Js.split "/" (types.id n) in
    Forall (fun x => plain x = true) segs
    /\ passes (ig Sample.guard) [] segs = true
    /\ Forall (fun seg =>
                 ~ In seg ["node_modules"; "dist"; "out"; "build"; "target";
                           "vendor"]
                 /\ (forall rest, seg = String "." rest -> seg = ".gitignore"))
              segs
    /\ (forall k, 1 <= k <= List.length segs ->
          ig Sample.guard (Js.join "/" (firstn k segs)) = false)
    /\ last segs "" = types.name n
    /\ ig Sample.guard (types.id n) = false.
Proof.
  split; [exact guarded_wellFormed|].
  split; [vm_compute; reflexivity|].
  exact (X3_node_ids_avoid_skipped_paths Sample.guarded Sample.guard
           Sample.guarded_graph Sample.guarded_after Sample.guarded_root
           guarded_run eq_refl guarded_opens guarded_wellFormed).
Defined.

Lemma X4_open_file_finds_scanned_file_witness :
  wellFormed Sample.mixed_root = true /\
  forall n, In n (types.nodes Sample.mixed_graph) ->
    exists fullPath content,
      GraphPanel._openFile (Some ["/w"; "/elsewhere"]) (types.id n)
      = GraphPanel.OpenTextDocument fullPath
      /\ fs.at_path Sample.mixed fullPath
         = Some (fs.File (Some (types.size n)) (Some content))
      /\ types.preview n = previewOf content.
Proof.
  split; [exact mixed_wellFormed|].
  exact (X4_open_file_finds_scanned_file Sample.mixed Sample.scanner
           Sample.mixed_graph Sample.mixed_after Sample.mixed_root
           ["/elsewhere"]
           mixed_run eq_refl mixed_opens mixed_wellFormed).
Defined.

Lemma X5_link_sources_are_parsed_files_witness :
  wellFormed Sample.mixed_root = true /\
  forall l, In l (types.links Sample.mixed_graph) ->
    exists n,
      In n (types.nodes Sample.mixed_graph)
      /\ types.id n = types.source l
      /\ Js.includes parsedExtensions (Js.toLowerCase (types.type n)) = true
      /\ (Js.toLowerCase (types.type n) = ".py" ->
          exists c t,
            allChars word (String c t) = true
            /\ types.target l = String c t ++ ".py"
            /\ slashFree (types.target l) = true).
Proof.
  split; [exact mixed_wellFormed|].
  exact (X5_link_sources_are_parsed_files Sample.mixed Sample.scanner
           Sample.mixed_graph Sample.mixed_after Sample.mixed_root
           mixed_run eq_refl mixed_opens mixed_wellFormed).
Defined.

Lemma X6_relative_import_exact_match_witness :
  Js.startsWith "./LICENSE" "." = true /\
  (  fst (resolveImport Sample.mixed "/w" ".ts" "a.ts" (Some "./LICENSE") Sample.scanner) = Returned tt
  /\ links (snd (resolveImport Sample.mixed "/w" ".ts" "a.ts" (Some "./LICENSE") Sample.scanner))
     = [{| types.source := "a.ts"; types.target := "LICENSE" |}]
  /\ probed (snd (resolveImport Sample.mixed "/w" ".ts" "a.ts" (Some "./LICENSE") Sample.scanner)) = ["LICENSE"; "LICENSE"]
  /\ nodes (snd (resolveImport Sample.mixed "/w" ".ts" "a.ts" (Some "./LICENSE") Sample.scanner)) = []).
Proof.
  split; [reflexivity|].
  exact (X6_relative_import_exact_match Sample.mixed "/w" ".ts" "a.ts"
           "."%char "/LICENSE" Sample.scanner eq_refl eq_refl eq_refl).
Defined.

Lemma X7_relative_import_first_candidate_witness :
  Js.startsWith "./lib/b" "." = true /\
  (  fst (resolveImport Sample.mixed "/w" ".ts" "a.ts" (Some "./lib/b") Sample.scanner) = Returned tt
  /\ links (snd (resolveImport Sample.mixed "/w" ".ts" "a.ts" (Some "./lib/b") Sample.scanner))
     = [{| types.source := "a.ts"; types.target := "lib/b.ts" |}]
  /\ probed (snd (resolveImport Sample.mixed "/w" ".ts" "a.ts" (Some "./lib/b") Sample.scanner)) = ["lib/b"; "lib/b.ts"; "lib/b.ts"]).
Proof.
  split; [reflexivity|].
  refine (X7_relative_import_first_candidate Sample.mixed "/w" ".ts" "a.ts"
            "."%char "/lib/b" Sample.scanner []
            [".tsx"; ".js"; ".jsx"; ".css"; ".scss"; "/index.ts"; "/index.js"]
            ".ts" eq_refl eq_refl eq_refl _ eq_refl eq_refl).
  intros x [].
Defined.

Lemma X8_relative_import_unresolved_witness :
  Js.startsWith "./missing" "." = true /\
  (  fst (resolveImport Sample.mixed "/w" ".ts" "a.ts" (Some "./missing") Sample.scanner) = Returned tt
  /\ links (snd (resolveImport Sample.mixed "/w" ".ts" "a.ts" (Some "./missing") Sample.scanner)) = []
  /\ nodes (snd (resolveImport Sample.mixed "/w" ".ts" "a.ts" (Some "./missing") Sample.scanner)) = []
  /\ probed (snd (resolveImport Sample.mixed "/w" ".ts" "a.ts" (Some "./missing") Sample.scanner))
     = ["missing"; "missing.ts"; "missing.tsx"; "missing.js"; "missing.jsx";
        "missing.css"; "missing.scss"; "missing/index.ts"; "missing/index.js";
        "missing"]).
Proof.
  split; [reflexivity|].
  refine (X8_relative_import_unresolved Sample.mixed "/w" ".ts" "a.ts"
            "."%char "/missing" Sample.scanner eq_refl eq_refl _).
  intros x Hx. unfold extensions in Hx. cbn [In] in Hx.
  repeat (destruct Hx as [<-|Hx]; [vm_compute; reflexivity|]).
  contradiction.
Defined.

Lemma X9_index_candidates_never_linked_witness :
  path.isAbsolute "/w" = true /\
  (  links (snd (resolveImport Sample.index "/w" ".ts" "a.ts" (Some "./sub") Sample.scanner)) = links Sample.scanner
  \/ exists target,
       links (snd (resolveImport Sample.index "/w" ".ts" "a.ts" (Some "./sub") Sample.scanner))
       = (links Sample.scanner
          ++ [{| types.source := "a.ts"; types.target := target |}])%list
       /\ In target
            ("sub" :: map (String.append "sub")
                        [".ts"; ".tsx"; ".js"; ".jsx"; ".css"; ".scss"])).
Proof.
  split; [reflexivity|].
  exact (X9_index_candidates_never_linked Sample.index "/w" ".ts" "a.ts"
           "."%char "/sub" Sample.scanner eq_refl eq_refl).
Defined.

(* ================================================================== *)
(** * Properties of the webview script *)
(* ================================================================== *)

(** ** The links that are drawn *)

Import Webview.

Lemma findIndex_none {A} (f : A -> bool) l :
  findIndex f l = None <-> existsb f l = false.
Proof.
  induction l as [|x l IH]; cbn [findIndex existsb]; [tauto|].
  destruct (f x); cbn [orb]; [split; discriminate|].
  rewrite <- IH. destruct (findIndex f l); cbn [option_map];
    split; congruence.
Qed.

Lemma findIndex_bound {A} (f : A -> bool) l i :
  findIndex f l = Some i -> i < List.length l.
Proof.
  revert i. induction l as [|x l IH]; intros i; cbn [findIndex List.length];
    [discriminate|].
  destruct (f x); [intros [= <-]; lia|].
  destruct (findIndex f l) as [j|]; cbn [option_map]; [|discriminate].
  intros [= <-]. specialize (IH j eq_refl). lia.
Qed.

Lemma findIndex_app_hit {A} (f : A -> bool) pre x suf :
  f x = true ->
  match findIndex f (pre ++ x :: suf) with
  | Some i => Nat.eqb (List.length pre) i
  | None => false
  end = negb (existsb f pre).
Proof.
  intros Hx. induction pre as [|y pre IH];
    cbn [app findIndex existsb List.length].
  - now rewrite Hx.
  - destruct (f y); cbn [orb negb]; [reflexivity|].
    destruct (findIndex f (pre ++ x :: suf)) as [i|]; cbn [option_map];
      [exact IH | exact IH].
Qed.

Lemma sameEnds_endsEqb l x :
  sameEnds (idOf (source l)) (idOf (target l)) x = endsEqb (ends l) (ends x).
Proof.
  unfold sameEnds, endsEqb, ends. cbn [fst snd].
  now rewrite (String.eqb_sym (idOf (source x))),
              (String.eqb_sym (idOf (target x))).
Qed.

Lemma endsEqb_eq a b : endsEqb a b = true <-> a = b.
Proof.
  unfold endsEqb. destruct a as [a1 a2], b as [b1 b2]. cbn [fst snd].
  rewrite andb_true_iff, !String.eqb_eq. split; [intros [-> ->] | intros [= -> ->]];
    auto.
Qed.

Lemma existsb_sameEnds l pre :
  existsb (sameEnds (idOf (source l)) (idOf (target l))) pre
  = existsb (endsEqb (ends l)) (map ends pre).
Proof.
  induction pre as [|y pre IH]; cbn [existsb map]; [reflexivity|].
  now rewrite IH, sameEnds_endsEqb.
Qed.

(** The filter by index keeps what the walk with the pairs seen so
    far keeps. *)
Lemma filterFrom_keptAfter nodeIds suf : forall pre,
  filterFrom (keepLink nodeIds (pre ++ suf)) (List.length pre) suf
  = keptAfter nodeIds (map ends pre) suf.
Proof.
  induction suf as [|x suf IH]; intros pre; cbn [filterFrom keptAfter];
    [reflexivity|].
  assert (Htest : keepLink nodeIds (pre ++ x :: suf) x (List.length pre)
                  = negb (existsb (endsEqb (ends x)) (map ends pre))
                    && has nodeIds (idOf (source x))
                    && has nodeIds (idOf (target x))).
  { unfold keepLink. cbv zeta.
    rewrite (findIndex_app_hit (sameEnds (idOf (source x)) (idOf (target x)))
               pre x suf).
    - now rewrite existsb_sameEnds.
    - rewrite sameEnds_endsEqb. now apply endsEqb_eq. }
  rewrite Htest.
  specialize (IH (pre ++ [x])%list).
  rewrite <- app_assoc, length_app, map_app in IH. cbn [app List.length map] in IH.
  rewrite Nat.add_1_r in IH. rewrite IH. reflexivity.
Qed.

Lemma cleanLinks_keptAfter nodes links :
  cleanLinks nodes links = keptAfter (map types.id nodes) [] links.
Proof. exact (filterFrom_keptAfter (map types.id nodes) links []). Qed.

Lemma has_In s x : has s x = true <-> In x s.
Proof.
  unfold has. rewrite existsb_exists. split.
  - intros (y & Hy & Heq). apply String.eqb_eq in Heq. now subst.
  - intros H. exists x. split; [exact H | apply String.eqb_refl].
Qed.

Lemma existsb_endsEqb_In e seen :
  existsb (endsEqb e) seen = true <-> In e seen.
Proof.
  rewrite existsb_exists. split.
  - intros (y & Hy & Heq). apply endsEqb_eq in Heq. now subst.
  - intros H. exists e. split; [exact H | now apply endsEqb_eq].
Qed.

Lemma keptAfter_sound nodeIds links : forall seen k,
  In k (keptAfter nodeIds seen links) ->
  In k links
  /\ In (idOf (source k)) nodeIds /\ In (idOf (target k)) nodeIds
  /\ ~ In (ends k) seen.
Proof.
  induction links as [|l rest IH]; intros seen k Hk; cbn [keptAfter] in Hk;
    [contradiction|].
  assert (Hrest : In k (keptAfter nodeIds (seen ++ [ends l]) rest) ->
                  In k (l :: rest)
                  /\ In (idOf (source k)) nodeIds /\ In (idOf (target k)) nodeIds
                  /\ ~ In (ends k) seen).
  { intros H. destruct (IH _ _ H) as (H1 & H2 & H3 & H4).
    repeat split; auto; [now right|].
    intros Hin. apply H4. apply in_or_app. now left. }
  destruct (negb (existsb (endsEqb (ends l)) seen)
            && has nodeIds (idOf (source l)) && has nodeIds (idOf (target l)))
    eqn:Htest; [|now apply Hrest].
  destruct Hk as [<-|Hk]; [|now apply Hrest].
  apply andb_true_iff in Htest. destruct Htest as [Htest Ht].
  apply andb_true_iff in Htest. destruct Htest as [Hnew Hs].
  repeat split; [now left | now apply has_In | now apply has_In |].
  apply negb_true_iff in Hnew. intros Hin.
  apply existsb_endsEqb_In in Hin. congruence.
Qed.

Lemma keptAfter_NoDup nodeIds links : forall seen,
  NoDup (map ends (keptAfter nodeIds seen links)).
Proof.
  induction links as [|l rest IH]; intros seen; cbn [keptAfter];
    [constructor|].
  destruct (negb (existsb (endsEqb (ends l)) seen)
            && has nodeIds (idOf (source l)) && has nodeIds (idOf (target l)));
    [|apply IH].
  cbn [map]. constructor; [|apply IH].
  intros Hin. apply in_map_iff in Hin. destruct Hin as (k & Hk & Hin).
  apply keptAfter_sound in Hin. destruct Hin as (_ & _ & _ & Hnot).
  apply Hnot. apply in_or_app. right. rewrite Hk. now left.
Qed.

Lemma keptAfter_complete nodeIds links : forall seen l,
  In l links ->
  In (idOf (source l)) nodeIds -> In (idOf (target l)) nodeIds ->
  ~ In (ends l) seen ->
  exists k pre suf,
    links = (pre ++ k :: suf)%list
    /\ ends k = ends l
    /\ (forall x, In x pre -> ends x <> ends l)
    /\ In k (keptAfter nodeIds seen links).
Proof.
  induction links as [|x rest IH]; intros seen l Hl Hs Ht Hnew;
    [contradiction|].
  cbn [keptAfter].
  destruct (endsEqb (ends x) (ends l)) eqn:Hsame.
  - apply endsEqb_eq in Hsame. exists x, [], rest.
    split; [reflexivity|]. split; [exact Hsame|]. split; [intros ? []|].
    assert (Htest : negb (existsb (endsEqb (ends x)) seen)
                    && has nodeIds (idOf (source x))
                    && has nodeIds (idOf (target x)) = true).
    { assert (Hsx : idOf (source x) = idOf (source l))
        by (unfold ends in Hsame; congruence).
      assert (Htx : idOf (target x) = idOf (target l))
        by (unfold ends in Hsame; congruence).
      rewrite Hsx, Htx. rewrite (proj2 (has_In _ _) Hs), (proj2 (has_In _ _) Ht).
      rewrite !andb_true_r. apply negb_true_iff.
      destruct (existsb (endsEqb (ends x)) seen) eqn:He; [|reflexivity].
      apply existsb_endsEqb_In in He. rewrite Hsame in He. contradiction. }
    rewrite Htest. now left.
  - assert (Hne : ends x <> ends l).
    { intros E. apply endsEqb_eq in E. congruence. }
    destruct Hl as [->|Hl]; [contradiction|].
    destruct (IH (seen ++ [ends x])%list l Hl Hs Ht) as (k & pre & suf & -> & Hk & Hpre & Hin).
    { intros Hin. apply in_app_or in Hin. destruct Hin as [Hin|[Hin|[]]];
        [contradiction | congruence]. }
    exists k, (x :: pre), suf. split; [reflexivity|]. split; [exact Hk|].
    split.
    + intros y [<-|Hy]; [exact Hne | now apply Hpre].
    + destruct (negb _ && _ && _); [now right | exact Hin].
Qed.

Lemma keptAfter_fixed nodeIds L : forall seen,
  NoDup (map ends L) ->
  (forall k, In k L ->
     In (idOf (source k)) nodeIds /\ In (idOf (target k)) nodeIds
     /\ ~ In (ends k) seen) ->
  keptAfter nodeIds seen L = L.
Proof.
  induction L as [|x L IH]; intros seen Hnd Hall; cbn [keptAfter];
    [reflexivity|].
  inversion Hnd as [|? ? Hnot Hnd']; subst.
  destruct (Hall x (or_introl eq_refl)) as (Hs & Ht & Hnew).
  rewrite (proj2 (has_In _ _) Hs), (proj2 (has_In _ _) Ht), !andb_true_r.
  assert (Hex : existsb (endsEqb (ends x)) seen = false).
  { destruct (existsb (endsEqb (ends x)) seen) eqn:He; [|reflexivity].
    apply existsb_endsEqb_In in He. contradiction. }
  rewrite Hex. cbn [negb]. f_equal. apply IH; [exact Hnd'|].
  intros k Hk. destruct (Hall k (or_intror Hk)) as (Hs' & Ht' & Hnew').
  repeat split; auto. intros Hin. apply in_app_or in Hin.
  destruct Hin as [Hin|[Hin|[]]]; [contradiction|].
  apply Hnot. rewrite Hin. now apply in_map.
Qed.

(** X11.  The drawn links are sound.  Every link that [cleanLinks]
    keeps is one of the links received, both its ends are ids of
    received nodes, and no two kept links join the same pair of ids. *)
Theorem X11_cleanLinks_sound (nodes : list types.Node) (links : list link) :
  (forall k, In k (cleanLinks nodes links) ->
     In k links
     /\ In (idOf (source k)) (map types.id nodes)
     /\ In (idOf (target k)) (map types.id nodes))
  /\ NoDup (map ends (cleanLinks nodes links)).
Proof.
  rewrite cleanLinks_keptAfter. split.
  - intros k Hk. apply keptAfter_sound in Hk. tauto.
  - apply keptAfter_NoDup.
Qed.

(** X12.  Nothing else is dropped.  A received link whose two ends
    are ids of received nodes is drawn through the first link of the
    array with the same pair of ids; cleaning a second time changes
    nothing. *)
Theorem X12_cleanLinks_complete (nodes : list types.Node) (links : list link) :
  (forall l, In l links ->
     In (idOf (source l)) (map types.id nodes) ->
     In (idOf (target l)) (map types.id nodes) ->
     exists k pre suf,
       links = (pre ++ k :: suf)%list
       /\ ends k = ends l
       /\ (forall x, In x pre -> ends x <> ends l)
       /\ In k (cleanLinks nodes links))
  /\ cleanLinks nodes (cleanLinks nodes links) = cleanLinks nodes links.
Proof.
  split.
  - intros l Hl Hs Ht. rewrite cleanLinks_keptAfter.
    apply keptAfter_complete; auto.
  - rewrite (cleanLinks_keptAfter nodes (cleanLinks nodes links)).
    apply keptAfter_fixed.
    + rewrite cleanLinks_keptAfter. apply keptAfter_NoDup.
    + intros k Hk. rewrite cleanLinks_keptAfter in Hk.
      apply keptAfter_sound in Hk. tauto.
Qed.

(** ** The links of a scan that are drawn *)

Lemma graph_link_source_in_nodes w this g s' l :
  scan w this = (Returned g, s') ->
  In l (types.links g) ->
  In (types.source l) (map types.id (types.nodes g)).
Proof.
  intros H Hl. destruct (scan_returned_inv w this H) as (d & _ & _ & ->).
  cbn [graphOf types.links types.nodes] in *.
  apply in_flat_map in Hl. destruct Hl as (c & Hc & Hl).
  pose proof (linksOf_emitted w (workspaceRoot this) (ig this) c) as HF.
  rewrite Forall_forall in HF. destruct (HF l Hl) as (Hs & _).
  rewrite map_map. apply in_map_iff. exists c. split; [|exact Hc].
  cbn [nodeOf types.id]. now rewrite Hs.
Qed.

(** X13.  Which Links of a scan are drawn.  When the webview receives
    the graph of a scan, a pair (source, target) of one of its Links
    is drawn exactly when the target is the id of a Node; every drawn
    link is the image of a Link of the scan. *)
Theorem X13_scan_links_drawn_iff_target_is_node (w : fs.world)
    (this : ProjectScanner) (g : types.GraphData) (s' : ProjectScanner) :
  scan w this = (Returned g, s') ->
  let drawn := cleanLinks (types.nodes g) (map received (types.links g)) in
  (forall l, In l (types.links g) ->
     ((exists k, In k drawn /\ ends k = (types.source l, types.target l))
      <-> In (types.target l) (map types.id (types.nodes g))))
  /\ (forall k, In k drawn ->
        exists l, In l (types.links g) /\ k = received l).
Proof.
  intros H drawn. subst drawn. rewrite cleanLinks_keptAfter. split.
  - intros l Hl. split.
    + intros (k & Hk & He). apply keptAfter_sound in Hk.
      destruct Hk as (_ & _ & Ht & _).
      unfold ends in He. injection He as _ <-. exact Ht.
    + intros Ht.
      destruct (keptAfter_complete (map types.id (types.nodes g))
                  (map received (types.links g)) [] (received l))
        as (k & _ & _ & _ & He & _ & Hk); auto.
      * now apply in_map.
      * cbn. eapply graph_link_source_in_nodes; eassumption.
      * exists k. split; [exact Hk|]. rewrite He. reflexivity.
  - intros k Hk. apply keptAfter_sound in Hk. destruct Hk as (Hin & _).
    apply in_map_iff in Hin. destruct Hin as (l & <- & Hl). eauto.
Qed.

(** ** Escaping the preview *)

Lemma replaceAll_append c by_ a b :
  replaceAll c by_ (a ++ b) = replaceAll c by_ a ++ replaceAll c by_ b.
Proof.
  induction a as [|x a IH]; cbn [String.append replaceAll]; [reflexivity|].
  destruct (Ascii.eqb x c); rewrite IH; [now rewrite append_assoc | reflexivity].
Qed.

Lemma escapeHtml_cons c s :
  escapeHtml (String c s) = escapeChar c ++ escapeHtml s.
Proof.
  unfold escapeHtml, escapeChar.
  cbn [replaceAll].
  destruct (Ascii.eqb_spec c "&") as [->|H1].
  { rewrite !replaceAll_append. reflexivity. }
  cbn [replaceAll].
  destruct (Ascii.eqb_spec c "<") as [->|H2].
  { rewrite !replaceAll_append. reflexivity. }
  cbn [replaceAll].
  destruct (Ascii.eqb_spec c ">") as [->|H3].
  { rewrite !replaceAll_append. reflexivity. }
  cbn [replaceAll].
  destruct (Ascii.eqb_spec c dquote) as [->|H4].
  { rewrite !replaceAll_append. reflexivity. }
  cbn [replaceAll].
  destruct (Ascii.eqb_spec c "'") as [->|H5]; reflexivity.
Qed.

Lemma escapeHtml_append a b :
  escapeHtml (a ++ b) = escapeHtml a ++ escapeHtml b.
Proof.
  induction a as [|c a IH]; cbn [String.append]; [reflexivity|].
  now rewrite !escapeHtml_cons, IH, append_assoc.
Qed.

Lemma lacks_append c a b : lacks c (a ++ b) = lacks c a && lacks c b.
Proof.
  induction a as [|x a IH]; cbn [String.append lacks]; [reflexivity|].
  now rewrite IH, andb_assoc.
Qed.

Lemma escapeChar_lacks x c : markup x = true -> lacks x (escapeChar c) = true.
Proof.
  unfold markup. intros Hx.
  repeat (apply orb_true_iff in Hx; destruct Hx as [Hx|Hx]);
    apply Ascii.eqb_eq in Hx; subst x; unfold escapeChar;
    repeat match goal with |- context [Ascii.eqb c ?k] =>
      destruct (Ascii.eqb_spec c k) as [->|?] end;
    try reflexivity; cbn [lacks]; rewrite andb_true_r; apply negb_true_iff;
    apply Ascii.eqb_neq; assumption.
Qed.

Lemma escapeChar_split c d x y :
  escapeChar c ++ x = escapeChar d ++ y -> c = d /\ x = y.
Proof.
  unfold escapeChar.
  repeat match goal with |- context [Ascii.eqb c ?k] =>
    destruct (Ascii.eqb_spec c k) as [->|?] end;
  repeat match goal with |- context [Ascii.eqb d ?k] =>
    destruct (Ascii.eqb_spec d k) as [->|?] end;
  cbn [String.append]; intros H; try discriminate H;
  try (injection H as H; subst; split; [reflexivity | assumption || reflexivity]);
  try (injection H as ? ?; subst; try contradiction; split; reflexivity || assumption).
Qed.

(** X14.  Escaped previews carry no markup.  The result of
    [escapeHtml] holds none of the characters that open or close a
    tag or an attribute value; the function works character by
    character, leaves a text without the five special characters as
    it is, and never maps two texts to the same result. *)
Theorem X14_escapeHtml_removes_markup :
  (forall s x, markup x = true -> lacks x (escapeHtml s) = true)
  /\ (forall a b, escapeHtml (a ++ b) = escapeHtml a ++ escapeHtml b)
  /\ (forall s, lacks "&" s = true ->
                (forall x, markup x = true -> lacks x s = true) ->
                escapeHtml s = s)
  /\ (forall a b, escapeHtml a = escapeHtml b -> a = b).
Proof.
  split; [|split; [|split]].
  - intros s x Hx. induction s as [|c s IH]; [reflexivity|].
    rewrite escapeHtml_cons, lacks_append, IH, andb_true_r.
    now apply escapeChar_lacks.
  - apply escapeHtml_append.
  - induction s as [|c s IH]; intros Hamp Hsafe; [reflexivity|].
    rewrite escapeHtml_cons.
    cbn [lacks] in Hamp. apply andb_true_iff in Hamp. destruct Hamp as [Hc Hs].
    assert (Hm : markup c = false).
    { destruct (markup c) eqn:Hm; [|reflexivity].
      specialize (Hsafe c Hm). cbn [lacks] in Hsafe.
      now rewrite Ascii.eqb_refl in Hsafe. }
    rewrite IH.
    + unfold markup in Hm. apply negb_true_iff in Hc.
      repeat (apply orb_false_iff in Hm; destruct Hm as [Hm ?]).
      unfold escapeChar.
      repeat match goal with E : Ascii.eqb c _ = false |- _ =>
        rewrite E; clear E end.
      reflexivity.
    + exact Hs.
    + intros x Hx. specialize (Hsafe x Hx). cbn [lacks] in Hsafe.
      apply andb_true_iff in Hsafe. tauto.
  - induction a as [|c a IH]; intros b H.
    + destruct b as [|d b]; [reflexivity|].
      rewrite escapeHtml_cons in H. exfalso.
      change (escapeHtml "") with "" in H.
      unfold escapeChar in H.
      repeat match type of H with context [Ascii.eqb d ?k] =>
        destruct (Ascii.eqb d k) end; discriminate H.
    + destruct b as [|d b].
      * rewrite escapeHtml_cons in H. exfalso.
        change (escapeHtml "") with "" in H.
        unfold escapeChar in H.
        repeat match type of H with context [Ascii.eqb c ?k] =>
          destruct (Ascii.eqb c k) end; discriminate H.
      * rewrite !escapeHtml_cons in H.
        apply escapeChar_split in H. destruct H as [-> H].
        f_equal. now apply IH.
Qed.

(** ** Hovering over a node *)

Lemma add_In s y x : In x (add s y) <-> In x s \/ x = y.
Proof.
  unfold add. destruct (has s y) eqn:H.
  - apply has_In in H. split; [auto | intros [Hx | ->]; auto].
  - rewrite in_app_iff. cbn [In]. intuition.
Qed.

Lemma add_NoDup s y : NoDup s -> NoDup (add s y).
Proof.
  unfold add. destruct (has s y) eqn:H; [auto|]. intros Hs.
  apply (Permutation_NoDup (Permutation_cons_append s y)).
  constructor; [|exact Hs]. intros Hin. apply has_In in Hin. congruence.
Qed.

Lemma neighborStep_fst n index l acc x :
  In x (fst (neighborStep n index l acc)) <-> In x (fst acc) \/ joins n l x.
Proof.
  unfold neighborStep, joins.
  destruct (String.eqb_spec (idOf (source l)) n) as [Hs|Hs]; cbn [fst].
  - rewrite add_In. intuition (subst; auto).
  - destruct (String.eqb_spec (idOf (target l)) n) as [Ht|Ht]; cbn [fst].
    + rewrite add_In. intuition (subst; auto).
    + intuition.
Qed.

Lemma neighborStep_snd n index l acc i :
  In i (snd (neighborStep n index l acc)) <->
  In i (snd acc) \/ (i = index /\ touches n l).
Proof.
  unfold neighborStep, touches.
  destruct (String.eqb_spec (idOf (source l)) n) as [Hs|Hs]; cbn [snd].
  - rewrite in_app_iff. cbn [In]. intuition.
  - destruct (String.eqb_spec (idOf (target l)) n) as [Ht|Ht]; cbn [snd].
    + rewrite in_app_iff. cbn [In]. intuition.
    + intuition.
Qed.

Lemma neighborsFrom_fst n links : forall index acc x,
  In x (fst (neighborsFrom n index links acc)) <->
  In x (fst acc) \/ exists l, In l links /\ joins n l x.
Proof.
  induction links as [|l rest IH]; intros index acc x; cbn [neighborsFrom].
  - split; [auto | intros [H|(l & [] & _)]; exact H].
  - rewrite IH, neighborStep_fst. split.
    + intros [[H|H]|(l' & Hl' & H)]; [auto | right; exists l | right; exists l'];
        cbn [In]; auto.
    + intros [H|(l' & [<-|Hl'] & H)]; [auto | auto | right; exists l'; auto].
Qed.

Lemma neighborsFrom_snd n links : forall index acc i,
  In i (snd (neighborsFrom n index links acc)) <->
  In i (snd acc)
  \/ exists j l, i = index + j /\ nth_error links j = Some l /\ touches n l.
Proof.
  induction links as [|l rest IH]; intros index acc i; cbn [neighborsFrom].
  - split; [auto | intros [H|(j & l & _ & Hj & _)]; [exact H|]].
    destruct j; discriminate Hj.
  - rewrite IH, neighborStep_snd. split.
    + intros [[H|[-> H]]|(j & l' & -> & Hj & H)]; [auto | |].
      * right. exists 0, l. cbn [nth_error]. repeat split; auto; lia.
      * right. exists (S j), l'. cbn [nth_error]. repeat split; auto; lia.
    + intros [H|(j & l' & -> & Hj & H)]; [auto|].
      destruct j as [|j]; cbn [nth_error] in Hj.
      * injection Hj as <-. left. right. split; [lia | exact H].
      * right. exists j, l'. repeat split; auto; lia.
Qed.

Lemma neighborsFrom_NoDup n links : forall index acc,
  NoDup (fst acc) -> NoDup (snd acc) ->
  (forall i, In i (snd acc) -> i < index) ->
  NoDup (fst (neighborsFrom n index links acc))
  /\ NoDup (snd (neighborsFrom n index links acc)).
Proof.
  induction links as [|l rest IH]; intros index acc H1 H2 H3;
    cbn [neighborsFrom]; [auto|].
  assert (N : NoDup (snd acc ++ [index])%list).
  { apply (Permutation_NoDup (Permutation_cons_append (snd acc) index)).
    constructor; [|exact H2]. intros Hin. apply H3 in Hin. lia. }
  assert (B : forall i, In i (snd acc ++ [index])%list -> i < S index).
  { intros i Hi. apply in_app_iff in Hi. destruct Hi as [Hi|[<-|[]]];
      [apply H3 in Hi|]; lia. }
  assert (B0 : forall i, In i (snd acc) -> i < S index).
  { intros i Hi. apply H3 in Hi. lia. }
  apply IH; unfold neighborStep;
    (destruct (String.eqb (idOf (source l)) n);
     [|destruct (String.eqb (idOf (target l)) n)]);
    cbn [fst snd]; auto using add_NoDup.
Qed.

(** X15.  The neighbours of the hovered node.  After the hover over
    the node [nodeId] (and after [highlightType] has chosen it),
    [neighbors] holds exactly the ids at the other end of a link that
    has [nodeId] at one end, each once, and [neighborLinks] exactly
    the links with [nodeId] at one end, each once.  Being a neighbour
    is symmetric, whatever the direction of the links. *)
Theorem X15_hover_neighbours (nodeId : string) (links : list link) :
  (forall x, In x (fst (hover nodeId links))
             <-> exists l, In l links /\ joins nodeId l x)
  /\ (forall i, In i (snd (hover nodeId links))
                <-> exists l, nth_error links i = Some l /\ touches nodeId l)
  /\ NoDup (fst (hover nodeId links))
  /\ NoDup (snd (hover nodeId links))
  /\ (forall other, In other (fst (hover nodeId links))
                    <-> In nodeId (fst (hover other links))).
Proof.
  assert (F : forall a x, In x (fst (hover a links))
                          <-> exists l, In l links /\ joins a l x).
  { intros a x. unfold hover. rewrite neighborsFrom_fst. cbn [fst In].
    intuition. }
  split; [apply F|]. split; [|split; [|split]].
  - intros i. unfold hover. rewrite neighborsFrom_snd. cbn [snd In]. split.
    + intros [[]|(j & l & -> & Hj & H)]. exists l. auto.
    + intros (l & Hl & H). right. exists i, l. auto.
  - apply neighborsFrom_NoDup; cbn; auto using NoDup_nil. intros i [].
  - apply neighborsFrom_NoDup; cbn; auto using NoDup_nil. intros i [].
  - intros other. rewrite !F. unfold joins.
    split; intros (l & Hl & H); exists l; (split; [exact Hl|]); tauto.
Qed.

(** ** Searching a node *)

Lemma startsWith_split p : forall s,
  Js.startsWith s p = true -> exists b, s = p ++ b.
Proof.
  induction p as [|a p IH]; intros s H; [exists s; reflexivity|].
  destruct s as [|b s]; cbn [Js.startsWith] in H; [discriminate|].
  apply andb_true_iff in H. destruct H as [E H].
  apply Ascii.eqb_eq in E. subst b.
  destruct (IH s H) as [t ->]. exists t. reflexivity.
Qed.

Lemma indexOf_unfold s sub :
  indexOf s sub
  = if Js.startsWith s sub then Some 0
    else match s with
         | EmptyString => None
         | String _ s' => option_map S (indexOf s' sub)
         end.
Proof. destruct s; reflexivity. Qed.

Lemma indexOf_found sub s : forall i,
  indexOf s sub = Some i ->
  exists a b, s = a ++ sub ++ b /\ String.length a = i.
Proof.
  induction s as [|c s IH]; intros i; rewrite indexOf_unfold.
  - destruct (Js.startsWith "" sub) eqn:E; [|discriminate].
    intros [= <-]. apply startsWith_split in E. destruct E as [b E].
    exists "", b. split; [exact E | reflexivity].
  - destruct (Js.startsWith (String c s) sub) eqn:E.
    + intros [= <-]. apply startsWith_split in E. destruct E as [b E].
      exists "", b. split; [exact E | reflexivity].
    + destruct (indexOf s sub) as [j|] eqn:Ej; cbn [option_map];
        [|discriminate].
      intros [= <-]. destruct (IH j eq_refl) as (a & b & -> & Hlen).
      exists (String c a), b. split; [reflexivity|].
      cbn [String.length]. now rewrite Hlen.
Qed.

Lemma indexOf_missing sub s :
  indexOf s sub = None -> forall a b, s <> a ++ sub ++ b.
Proof.
  induction s as [|c s IH]; rewrite indexOf_unfold.
  - destruct (Js.startsWith "" sub) eqn:E; [discriminate|].
    intros _ a b H. destruct a as [|x a]; cbn [String.append] in H;
      [|discriminate].
    rewrite H, startsWith_self_append in E. discriminate.
  - destruct (Js.startsWith (String c s) sub) eqn:E; [discriminate|].
    destruct (indexOf s sub) as [j|] eqn:Ej; [discriminate|].
    intros _ a b H. destruct a as [|x a]; cbn [String.append] in H.
    + rewrite H, startsWith_self_append in E. discriminate.
    + injection H as _ H. exact (IH eq_refl a b H).
Qed.

Lemma nameHolds_iff q n :
  nameHolds q n = true
  <-> occursIn (Js.toLowerCase q) (Js.toLowerCase (types.name n)).
Proof.
  unfold nameHolds, occursIn.
  destruct (indexOf (Js.toLowerCase (types.name n)) (Js.toLowerCase q))
    as [i|] eqn:E.
  - split; [intros _|reflexivity].
    destruct (indexOf_found _ _ _ E) as (a & b & H & _). eauto.
  - split; [discriminate|]. intros (a & b & H).
    exfalso. exact (indexOf_missing _ _ E a b H).
Qed.

Lemma lowerChar_idem c : Js.lowerChar (Js.lowerChar c) = Js.lowerChar c.
Proof. destruct c as [[] [] [] [] [] [] [] []]; reflexivity. Qed.

Lemma toLowerCase_idem s :
  Js.toLowerCase (Js.toLowerCase s) = Js.toLowerCase s.
Proof.
  induction s as [|c s IH]; cbn [Js.toLowerCase]; [reflexivity|].
  now rewrite lowerChar_idem, IH.
Qed.

Lemma find_same {A} (f g : A -> bool) l :
  (forall x, f x = g x) -> find f l = find g l.
Proof.
  intros H. induction l as [|x l IH]; cbn [find]; [reflexivity|].
  now rewrite H, IH.
Qed.

Lemma find_first {A} (f : A -> bool) pre x suf :
  (forall y, In y pre -> f y = false) -> f x = true ->
  find f (pre ++ x :: suf) = Some x.
Proof.
  intros Hpre Hx. induction pre as [|y pre IH]; cbn [app find].
  - now rewrite Hx.
  - rewrite (Hpre y (or_introl eq_refl)). apply IH.
    intros z Hz. apply Hpre. now right.
Qed.

Lemma find_nowhere {A} (f : A -> bool) l :
  (forall y, In y l -> f y = false) -> find f l = None.
Proof.
  intros H. induction l as [|y l IH]; cbn [find]; [reflexivity|].
  rewrite (H y (or_introl eq_refl)). apply IH. intros z Hz. apply H. now right.
Qed.

Lemma handleSearch_nonempty nodes prev q :
  q <> "" ->
  handleSearch nodes prev q
  = match find (nameHolds q) nodes with
    | Some node => Some node
    | None => prev
    end.
Proof. destruct q; [congruence | reflexivity]. Qed.

(** X16.  What a search selects.  The empty query clears the
    selection.  Any other query selects the first node, in the order
    of the graph, whose name holds the query when both are put in
    lower case; when no name holds it, the selection stays what it
    was.  The query gives the same selection as its lower-case
    form. *)
Theorem X16_search_selects_first_match (nodes : list types.Node)
    (searchNode : option types.Node) (query : string) :
  handleSearch nodes searchNode "" = None
  /\ (forall pre n suf,
        query <> "" -> nodes = (pre ++ n :: suf)%list ->
        occursIn (Js.toLowerCase query) (Js.toLowerCase (types.name n)) ->
        (forall x, In x pre ->
           ~ occursIn (Js.toLowerCase query) (Js.toLowerCase (types.name x))) ->
        handleSearch nodes searchNode query = Some n)
  /\ (query <> "" ->
      (forall x, In x nodes ->
         ~ occursIn (Js.toLowerCase query) (Js.toLowerCase (types.name x))) ->
      handleSearch nodes searchNode query = searchNode)
  /\ handleSearch nodes searchNode (Js.toLowerCase query)
     = handleSearch nodes searchNode query.
Proof.
  split; [reflexivity|]. split; [|split].
  - intros pre n suf Hq -> Hn Hpre.
    rewrite (handleSearch_nonempty _ _ _ Hq), (find_first (nameHolds query) pre n suf).
    + reflexivity.
    + intros y Hy. destruct (nameHolds query y) eqn:E; [|reflexivity].
      apply nameHolds_iff in E. now apply Hpre in E.
    + now apply nameHolds_iff.
  - intros Hq Hno. rewrite (handleSearch_nonempty _ _ _ Hq), find_nowhere.
    + reflexivity.
    + intros y Hy. destruct (nameHolds query y) eqn:E; [|reflexivity].
      apply nameHolds_iff in E. now apply Hno in E.
  - destruct query as [|c q]; [reflexivity|].
    rewrite !handleSearch_nonempty by (cbn [Js.toLowerCase]; discriminate).
    rewrite (find_same (nameHolds (Js.toLowerCase (String c q)))
                       (nameHolds (String c q))); [reflexivity|].
    intros x. unfold nameHolds. now rewrite toLowerCase_idem.
Qed.

(** ** The legend *)

Lemma findIndex_eqb_In t acc :
  findIndex (String.eqb t) acc = None <-> ~ In t acc.
Proof.
  rewrite findIndex_none. fold (has acc t). split.
  - intros H Hin. apply has_In in Hin. congruence.
  - intros H. destruct (has acc t) eqn:E; [|reflexivity].
    apply has_In in E. contradiction.
Qed.

Lemma collectTypes_In nodes : forall acc t,
  In t (collectTypes nodes acc)
  <-> In t acc \/ exists n, In n nodes /\ typeOrOther n = t.
Proof.
  induction nodes as [|n rest IH]; intros acc t; cbn [collectTypes].
  - split; [auto | intros [H|(n & [] & _)]; exact H].
  - rewrite IH.
    destruct (findIndex (String.eqb (typeOrOther n)) acc) as [i|] eqn:E.
    + assert (Hin : In (typeOrOther n) acc).
      { destruct (in_dec string_dec (typeOrOther n) acc) as [H|H]; [exact H|].
        apply findIndex_eqb_In in H. congruence. }
      split.
      * intros [H|(m & Hm & H)]; [auto | right; exists m; cbn [In]; auto].
      * intros [H|(m & [<-|Hm] & H)]; [auto | subst t; auto | right; exists m; auto].
    + rewrite in_app_iff. cbn [In]. split.
      * intros [[H|[H|[]]]|(m & Hm & H)];
          [auto | right; exists n; auto | right; exists m; auto].
      * intros [H|(m & [<-|Hm] & H)]; [auto | auto | right; exists m; auto].
Qed.

Lemma collectTypes_NoDup nodes : forall acc,
  NoDup acc -> NoDup (collectTypes nodes acc).
Proof.
  induction nodes as [|n rest IH]; intros acc H; cbn [collectTypes]; [exact H|].
  apply IH.
  destruct (findIndex (String.eqb (typeOrOther n)) acc) as [i|] eqn:E;
    [exact H|].
  apply findIndex_eqb_In in E.
  apply (Permutation_NoDup (Permutation_cons_append acc (typeOrOther n))).
  now constructor.
Qed.

Lemma typeOrOther_nonempty n : typeOrOther n <> "".
Proof. unfold typeOrOther. destruct (types.type n); discriminate. Qed.

Lemma ofType_typeOrOther n : ofType (typeOrOther n) n = true.
Proof.
  unfold ofType, typeOrOther. destruct (types.type n) as [|c t] eqn:E.
  - reflexivity.
  - now rewrite String.eqb_refl.
Qed.

Lemma ofType_sound t n : t <> "" -> ofType t n = true -> typeOrOther n = t.
Proof.
  unfold ofType, typeOrOther. intros Ht H.
  apply orb_true_iff in H. destruct H as [H|H].
  - apply String.eqb_eq in H. subst t.
    destruct (types.type n); [congruence | reflexivity].
  - apply andb_true_iff in H. destruct H as [H1 H2].
    apply String.eqb_eq in H1, H2. now rewrite H2, H1.
Qed.

(** X17.  The entries of the legend.  [renderLegend] collects each
    type of a node once ([other] for a node without a type), so the
    legend shows a type exactly when a node has it, and a click on an
    entry always finds a node: [highlightType] picks the first node of
    that type. *)
Theorem X17_legend_entries_find_a_node (nodes : list types.Node) :
  NoDup (collectTypes nodes [])
  /\ (forall t, In t (collectTypes nodes [])
                <-> exists n, In n nodes /\ typeOrOther n = t)
  /\ (forall t, In t (collectTypes nodes []) ->
        exists pre n suf,
          nodes = (pre ++ n :: suf)%list
          /\ find (ofType t) nodes = Some n
          /\ typeOrOther n = t
          /\ forall x, In x pre -> typeOrOther x <> t).
Proof.
  assert (F : forall t, In t (collectTypes nodes [])
                        <-> exists n, In n nodes /\ typeOrOther n = t).
  { intros t. rewrite collectTypes_In. cbn [In]. intuition. }
  split; [apply collectTypes_NoDup, NoDup_nil|]. split; [exact F|].
  intros t Ht. apply F in Ht. destruct Ht as (n0 & Hn0 & Ht).
  assert (Hne : t <> "") by (subst t; apply typeOrOther_nonempty).
  clear F. induction nodes as [|m rest IH]; [destruct Hn0|].
  cbn [find]. destruct (ofType t m) eqn:E.
  - exists [], m, rest.
    split; [reflexivity|]. split; [reflexivity|].
    split; [now apply ofType_sound|]. intros x [].
  - destruct Hn0 as [->|Hn0].
    + subst t. now rewrite ofType_typeOrOther in E.
    + destruct (IH Hn0) as (pre & n & suf & -> & Hf & Hn & Hpre).
      exists (m :: pre), n, suf.
      split; [reflexivity|]. split; [exact Hf|]. split; [exact Hn|].
      intros x [<-|Hx]; [|now apply Hpre].
      intros Hm. rewrite <- Hm in E. now rewrite ofType_typeOrOther in E.
Qed.

(** ** The legend and the neighbours of a scanned graph *)

Lemma accepted_type_listed c :
  accepted c = true ->
  Js.includes supportedExtensions (Js.toLowerCase (types.type (nodeOf c)))
  = true.
Proof.
  unfold accepted, isCodeFile. intros H.
  apply andb_true_iff in H. destruct H as [H _]. exact H.
Qed.

Lemma listed_typeOrOther n :
  Js.includes supportedExtensions (Js.toLowerCase (types.type n)) = true ->
  typeOrOther n = types.type n /\ types.type n <> "other".
Proof.
  intros H. unfold typeOrOther.
  destruct (types.type n) as [|a s] eqn:E; [vm_compute in H; discriminate|].
  split; [reflexivity|]. intros Heq. rewrite Heq in H.
  vm_compute in H. discriminate.
Qed.

(** X18.  The types collected for the legend of a scanned graph.  For
    the graph of a scan, the array that the loop of [renderLegend]
    fills holds exactly the [type] fields of the Nodes, which are the
    extensions of their file names as the scanner stored them: each
    is, case apart, one of the seventeen extensions of the filter, two
    extensions that differ in case are two entries, and [other] is
    never collected. *)
Theorem X18_scan_legend_types_are_extensions (w : fs.world)
    (this : ProjectScanner) (g : types.GraphData) (s' : ProjectScanner) :
  scan w this = (Returned g, s') ->
  (forall t, In t (collectTypes (types.nodes g) [])
             <-> exists n, In n (types.nodes g)
                           /\ path.extname (types.name n) = t)
  /\ (forall t, In t (collectTypes (types.nodes g) []) ->
        existsb (sameIgnoringCase t)
          [".ts"; ".tsx"; ".js"; ".jsx"; ".css"; ".scss"; ".html"; ".py";
           ".java"; ".c"; ".cpp"; ".h"; ".json"; ".md"; ".go"; ".rs"; ".php"]
        = true
        /\ t <> "other")
  /\ NoDup (collectTypes (types.nodes g) []).
Proof.
  intros H. destruct (scan_returned_inv w this H) as (d & _ & _ & ->).
  assert (K : forall n,
    In n (types.nodes (graphOf w (workspaceRoot this) (ig this) d)) ->
    Js.includes supportedExtensions (Js.toLowerCase (types.type n)) = true
    /\ types.type n = path.extname (types.name n)
    /\ isCodeFile (types.name n) = true).
  { intros n Hn. apply graphOf_node_inv in Hn.
    destruct Hn as (c & _ & Hacc & ->).
    split; [now apply accepted_type_listed|]. split; [reflexivity|].
    unfold accepted in Hacc. apply andb_true_iff in Hacc.
    cbn [nodeOf types.name]. tauto. }
  split; [|split].
  - intros t. rewrite collectTypes_In. cbn [In]. split.
    + intros [[]|(n & Hn & Ht)]. exists n. split; [exact Hn|].
      destruct (K n Hn) as (K1 & K2 & _).
      destruct (listed_typeOrOther n K1) as [E _]. congruence.
    + intros (n & Hn & Ht). right. exists n. split; [exact Hn|].
      destruct (K n Hn) as (K1 & K2 & _).
      destruct (listed_typeOrOther n K1) as [E _]. congruence.
  - intros t Ht. apply collectTypes_In in Ht.
    destruct Ht as [[]|(n & Hn & <-)].
    destruct (K n Hn) as (K1 & K2 & K3).
    destruct (listed_typeOrOther n K1) as [E1 E2]. rewrite E1.
    split; [|exact E2]. rewrite K2, <- isCodeFile_allowed. exact K3.
  - apply collectTypes_NoDup, NoDup_nil.
Qed.

(** X20.  The neighbours of a file.  When the webview has received
    the graph of a scan, hovering over the node [nodeId] marks as
    neighbours exactly the files joined to it by a Link whose target
    is a Node, whichever of the two imports the other. *)
Theorem X20_hover_shows_import_neighbours (w : fs.world)
    (this : ProjectScanner) (g : types.GraphData) (s' : ProjectScanner)
    (nodeId : string) :
  scan w this = (Returned g, s') ->
  let drawn := cleanLinks (types.nodes g) (map received (types.links g)) in
  forall x,
    In x (fst (hover nodeId drawn))
    <-> exists l,
          In l (types.links g)
          /\ In (types.target l) (map types.id (types.nodes g))
          /\ ((types.source l = nodeId /\ types.target l = x)
              \/ (types.target l = nodeId /\ types.source l = x)).
Proof.
  intros H drawn x. subst drawn. unfold hover.
  rewrite neighborsFrom_fst, cleanLinks_keptAfter. cbn [fst In]. split.
  - intros [[]|(k & Hk & Hj)]. apply keptAfter_sound in Hk.
    destruct Hk as (Hin & _ & Ht & _).
    apply in_map_iff in Hin. destruct Hin as (l & <- & Hl).
    exists l. split; [exact Hl|]. split; [exact Ht|]. exact Hj.
  - intros (l & Hl & Ht & Hj). right.
    destruct (keptAfter_complete (map types.id (types.nodes g))
                (map received (types.links g)) [] (received l))
      as (k & _ & _ & _ & He & _ & Hk); auto.
    + now apply in_map.
    + cbn. eapply graph_link_source_in_nodes; eassumption.
    + exists k. split; [exact Hk|]. unfold ends in He.
      injection He as Hs Hd. unfold joins. rewrite Hs, Hd. exact Hj.
Qed.

(** ** A refresh *)

Lemma normalize_nonempty p : path.normalize p <> "".
Proof.
  unfold path.normalize. destruct (String.eqb p ""); [discriminate|].
  cbv zeta.
  destruct (String.eqb_spec
              (path.normalizeString p (negb (path.isAbsolute p))) "") as [E|E].
  - destruct (path.isAbsolute p); [discriminate|].
    destruct (Js.endsWithSlash p); discriminate.
  - destruct (path.isAbsolute p); [cbn [String.append]; discriminate|].
    destruct (Js.endsWithSlash p); [|exact E].
    destruct (path.normalizeString p (negb false)); [congruence|].
    cbn [String.append]. discriminate.
Qed.

Lemma join_nonempty a b : path.join a b <> "".
Proof.
  unfold path.join.
  destruct (String.eqb a ""), (String.eqb b "");
    try apply normalize_nonempty; discriminate.
Qed.

Lemma new_ProjectScanner_root w ignore_add root s :
  new_ProjectScanner w ignore_add root = Some s -> workspaceRoot s = root.
Proof.
  unfold new_ProjectScanner. cbv zeta.
  destruct (fs.existsSync w (path.join root ".gitignore")).
  - destruct (fs.at_path w (path.join root ".gitignore")) as [f|];
      [|discriminate].
    destruct (fs.readFile f); cbn [option_map]; [|discriminate].
    intros [= <-]. reflexivity.
  - intros [= <-]. reflexivity.
Qed.

Lemma gitignore_directory w ignore_add root l es :
  fs.at_path w (path.join root ".gitignore") = Some (fs.Dir l es) ->
  new_ProjectScanner w ignore_add root = None.
Proof.
  intros H. unfold new_ProjectScanner, fs.existsSync. cbv zeta. rewrite H.
  destruct (String.eqb_spec (path.join root ".gitignore") "") as [E|_];
    [now apply join_nonempty in E | reflexivity].
Qed.

(** X19.  What a refresh posts.  [_update] scans the first workspace
    folder with a new scanner and posts [updateData] exactly when the
    constructor has read the rules and the scan resolves; the data is
    then the graph of the walk under these rules.  A directory named
    [.gitignore] in the root passes [existsSync], [readFileSync]
    throws on it, and no scan starts. *)
Theorem X19_refresh_posts_graph_of_first_folder (w : fs.world)
    (ignore_add : string -> string -> bool) (rootPath : string)
    (others : list string) :
  (forall data,
     GraphPanel._update w ignore_add (Some (rootPath :: others))
     = GraphPanel.PostMessage data
     <-> exists scanner d,
           new_ProjectScanner w ignore_add rootPath = Some scanner
           /\ fs.opendir w rootPath = Some d
           /\ listable w rootPath (ig scanner) rootPath d = true
           /\ data = graphOf w rootPath (ig scanner) d)
  /\ (forall l es,
        fs.at_path w (path.join rootPath ".gitignore") = Some (fs.Dir l es) ->
        GraphPanel._update w ignore_add (Some (rootPath :: others))
        = GraphPanel.ConstructorThrows).
Proof.
  split.
  - intros data. unfold GraphPanel._update.
    destruct (new_ProjectScanner w ignore_add rootPath) as [s|] eqn:Hs.
    + pose proof (new_ProjectScanner_root _ _ _ _ Hs) as Hroot.
      destruct (scan w s) as [r s''] eqn:Hrun. cbn [fst].
      destruct r as [g|e].
      * split.
        -- intros [= <-].
           destruct (scan_returned_inv w s Hrun) as (d & Hd & Hl & Hg).
           rewrite Hroot in Hd, Hl, Hg. exists s, d. auto.
        -- intros (s2 & d & [= <-] & Hd & Hl & ->).
           rewrite <- Hroot in Hd, Hl.
           pose proof (scan_returns w s Hd Hl) as R.
           rewrite Hrun in R. cbn [fst] in R. rewrite Hroot in R.
           congruence.
      * split; [discriminate|].
        intros (s2 & d & [= <-] & Hd & Hl & _).
        rewrite <- Hroot in Hd, Hl.
        pose proof (scan_returns w s Hd Hl) as R.
        rewrite Hrun in R. discriminate R.
    + split; [discriminate|]. intros (s2 & d & Hs2 & _). discriminate Hs2.
  - intros l es H. unfold GraphPanel._update.
    now rewrite (gitignore_directory w ignore_add rootPath l es H).
Qed.

(** ** The sample workspace in the webview *)

Lemma X18_scan_legend_types_are_extensions_witness :
  scan Sample.extensions Sample.scanner
  = (Returned Sample.extensions_graph, Sample.extensions_after)
  /\ collectTypes (types.nodes Sample.extensions_graph) []
     = [".ts"; ".TS"; ".Css"]
  /\ (forall t, In t (collectTypes (types.nodes Sample.extensions_graph) [])
                <-> exists n, In n (types.nodes Sample.extensions_graph)
                              /\ path.extname (types.name n) = t)
  /\ (forall t, In t (collectTypes (types.nodes Sample.extensions_graph) []) ->
        existsb (sameIgnoringCase t)
          [".ts"; ".tsx"; ".js"; ".jsx"; ".css"; ".scss"; ".html"; ".py";
           ".java"; ".c"; ".cpp"; ".h"; ".json"; ".md"; ".go"; ".rs"; ".php"]
        = true
        /\ t <> "other")
  /\ NoDup (collectTypes (types.nodes Sample.extensions_graph) []).
Proof.
  split; [exact extensions_run|].
  split; [vm_compute; reflexivity|].
  exact (X18_scan_legend_types_are_extensions Sample.extensions Sample.scanner
           Sample.extensions_graph Sample.extensions_after extensions_run).
Defined.

Lemma X20_hover_shows_import_neighbours_witness :
  scan Sample.mixed Sample.scanner
  = (Returned Sample.mixed_graph, Sample.mixed_after)
  /\ forall x,
       In x (fst (hover "a.ts"
                    (cleanLinks (types.nodes Sample.mixed_graph)
                       (map received (types.links Sample.mixed_graph)))))
       <-> exists l,
             In l (types.links Sample.mixed_graph)
             /\ In (types.target l)
                   (map types.id (types.nodes Sample.mixed_graph))
             /\ ((types.source l = "a.ts" /\ types.target l = x)
                 \/ (types.target l = "a.ts" /\ types.source l = x)).
Proof.
  split; [exact mixed_run|].
  exact (X20_hover_shows_import_neighbours Sample.mixed Sample.scanner
           Sample.mixed_graph Sample.mixed_after "a.ts" mixed_run).
Defined.

Lemma X13_scan_links_drawn_iff_target_is_node_witness :
  scan Sample.mixed Sample.scanner
  = (Returned Sample.mixed_graph, Sample.mixed_after)
  /\ (forall l, In l (types.links Sample.mixed_graph) ->
        ((exists k,
            In k (cleanLinks (types.nodes Sample.mixed_graph)
                    (map received (types.links Sample.mixed_graph)))
            /\ ends k = (types.source l, types.target l))
         <-> In (types.target l)
               (map types.id (types.nodes Sample.mixed_graph))))
  /\ (forall k,
        In k (cleanLinks (types.nodes Sample.mixed_graph)
                (map received (types.links Sample.mixed_graph))) ->
        exists l, In l (types.links Sample.mixed_graph) /\ k = received l).
Proof.
  split; [exact mixed_run|].
  exact (X13_scan_links_drawn_iff_target_is_node Sample.mixed Sample.scanner
           Sample.mixed_graph Sample.mixed_after mixed_run).
Defined.

(** ** Import paths stay in one line *)

Lemma Match_Many_capture lz p s1 st1 s2 st2 :
  RegExp.Match (RegExp.Many lz p) s1 st1 s2 st2 ->
  RegExp.allChars p
    (substring 0 (RegExp.index st2 - RegExp.index st1) s1) = true.
Proof.
  intros H. inversion H as [| |lz' p' t s' st' Ht| | | | |]; subst.
  rewrite index_consume.
  replace (RegExp.index st1 + String.length t - RegExp.index st1)
    with (String.length t) by lia.
  now rewrite substring_prefix.
Qed.

Lemma allChars_weaken (p q : ascii -> bool) t :
  (forall c, p c = true -> q c = true) ->
  RegExp.allChars p t = true -> RegExp.allChars q t = true.
Proof.
  intros Hpq. induction t as [|c t IH]; cbn [RegExp.allChars]; [reflexivity|].
  intros H. apply andb_true_iff in H. destruct H as [Hc Ht].
  now rewrite (Hpq c Hc), IH.
Qed.

Lemma word_dot c : RegExp.word c = true -> RegExp.dot c = true.
Proof.
  destruct c as [[] [] [] [] [] [] [] []]; vm_compute; intros H;
    congruence.
Qed.

Lemma captured_by_dots r prev s m n p :
  Forall (fun g => exists lz, snd g = RegExp.Many lz RegExp.dot)
         (RegExp.groupsOf r) ->
  RegExp.matchAt r prev s = Some m ->
  In (n, p) (snd m) ->
  RegExp.allChars RegExp.dot p = true.
Proof.
  intros Hg Hm Hin.
  apply matchAt_sound in Hm. destruct Hm as (s2 & st2 & HM & ->).
  cbn [snd] in Hin.
  destruct (Match_captures HM _ _ Hin)
    as [[] | (r1 & a & b & c' & d & Hr & HM' & ->)].
  rewrite Forall_forall in Hg. destruct (Hg _ Hr) as [lz E].
  cbn [snd] in E. subst r1. now apply Match_Many_capture in HM'.
Qed.

(** X21.  No import path spans lines.  Whatever the extension and the
    content, an entry of [importPaths] holds no line terminator: the
    quoted part of an [import], [require], [@import] or [url] that is
    broken over two lines is never taken for a path. *)
Theorem X21_import_paths_hold_no_line_break (ext content p : string) :
  In (Some p) (importPaths ext content) ->
  RegExp.allChars RegExp.dot p = true.
Proof.
  unfold importPaths.
  destruct (Js.includes [".ts"; ".tsx"; ".js"; ".jsx"] ext).
  - intros H. apply in_map_iff in H. destruct H as (m & Hor & Hm).
    apply execAll_matchAt in Hm. destruct Hm as (prev' & s' & Hm).
    assert (Hcap : exists n, In (n, p) (snd m)).
    { apply or_Some in Hor. destruct Hor as [Hor|Hg];
        [apply or_Some in Hor; destruct Hor as [Hg|Hg]|];
        apply group_In in Hg; eauto. }
    destruct Hcap as [n Hin].
    apply (captured_by_dots ecmaImport prev' s' m n p); auto.
    cbn. repeat constructor; eexists; reflexivity.
  - destruct (Js.includes [".css"; ".scss"] ext).
    + intros H. apply in_map_iff in H. destruct H as (m & Hor & Hm).
      apply execAll_matchAt in Hm. destruct Hm as (prev' & s' & Hm).
      assert (Hcap : exists n, In (n, p) (snd m)).
      { apply or_Some in Hor. destruct Hor as [Hg|Hg];
          apply group_In in Hg; eauto. }
      destruct Hcap as [n Hin].
      apply (captured_by_dots cssImport prev' s' m n p); auto.
      cbn. repeat constructor; eexists; reflexivity.
    + destruct (String.eqb_spec ext ".py") as [->|_]; [|intros []].
      intros H.
      assert (H' : In (Some p) (importPaths ".py" content)) by exact H.
      apply python_import_paths_are_words in H'.
      destruct H' as (c & t & -> & Hw).
      exact (allChars_weaken RegExp.word RegExp.dot _ word_dot Hw).
Qed.

Lemma X21_import_paths_hold_no_line_break_witness :
  In (Some "./lib/b") (importPaths ".ts" "import b from './lib/b'")
  /\ RegExp.allChars RegExp.dot "./lib/b" = true.
Proof.
  assert (H : In (Some "./lib/b")
                 (importPaths ".ts" "import b from './lib/b'")).
  { vm_compute. left. reflexivity. }
  split; [exact H|].
  exact (X21_import_paths_hold_no_line_break ".ts"
           "import b from './lib/b'" "./lib/b" H).
Defined.
